(** * Slit tracing and the DEIMOS optical model: a shallow embedding

    The development follows [pypit/traceslits.py] (class [TraceSlits]) and
    [pypeit/spectrographs/keck_deimos.py] (class [KeckDEIMOSSpectrograph],
    [DEIMOSCameraDistortion]).

    Numbers.  The arrays of the source hold IEEE doubles.  They are embedded
    as exact rationals ([Q]): comparisons, minima, maxima and medians of
    finite doubles are exact, and so is the arithmetic on the small dyadic
    values used in the concrete examples below.  Rounding, infinities and
    NaN are not modelled.  Integer arrays ([edgearr]) hold [Z].

    Exceptions.  Fallible code returns [res A]: either [OK a] or [Raise e]
    for a Python exception [e]. *)

From Stdlib Require Import QArith ZArith List Lia Bool Qround Qabs Ascii String.
From stdpp Require Import base option list strings pretty gmap.

Set Warnings "-register-all".
Local Open Scope Z_scope.

(** ** Exceptions and the error monad *)

Inductive exn : Type :=
  | IndexError
  | ValueError (msg : string)
  | KeyError (key : string)
  | TypeError
  | AttributeError
  | IOError (msg : string)
  | PypitError (msg : string).

Inductive res (A : Type) : Type :=
  | OK (a : A)
  | Raise (e : exn).
Arguments OK {A} a.
Arguments Raise {A} e.

#[global] Instance res_ret : MRet res := @OK.
#[global] Instance res_bind : MBind res :=
  λ A B f m, match m with OK a => f a | Raise e => Raise e end.
#[global] Instance res_fmap : FMap res :=
  λ A B f m, match m with OK a => OK (f a) | Raise e => Raise e end.

Definition is_OK {A} (m : res A) : Prop := ∃ a, m = OK a.
Definition raises {A} (m : res A) : Prop := ∃ e, m = Raise e.

(** [of_option e o]: the value of [o], or exception [e]. *)
Definition of_option {A} (e : exn) (o : option A) : res A :=
  match o with Some a => OK a | None => Raise e end.

(** [mapR f l]: [f] on each element, left to right, stopping at the first
    exception. *)
Fixpoint mapR {A B} (f : A → res B) (l : list A) : res (list B) :=
  match l with
  | [] => OK []
  | a :: l' => b ← f a; bs ← mapR f l'; OK (b :: bs)
  end.

(** Rationals are compared as fractions: numerator and denominator. *)
#[global] Instance Q_eq_dec : EqDecision Q.
Proof. solve_decision. Defined.

(** ** A fragment of numpy *)

Module Np.

(** A two-dimensional array with its shape; [rows] is row-major.  The
    shape is kept apart because an array with no row still has a column
    count. *)
Record ndarray (A : Type) : Type := mk_ndarray {
  shape0 : nat;
  shape1 : nat;
  rows : list (list A)
}.
Arguments mk_ndarray {A} _ _ _.
Arguments shape0 {A} _.
Arguments shape1 {A} _.
Arguments rows {A} _.

Definition wf {A} (a : ndarray A) : Prop :=
  length (rows a) = shape0 a ∧ Forall (λ r, length r = shape1 a) (rows a).

(** [a[r, c]] *)
Definition get {A} (a : ndarray A) (r c : nat) : option A :=
  row ← rows a !! r; row !! c.

(** [a[:, o]] for [0 <= o]; out of range is an IndexError. *)
Definition col {A} (a : ndarray A) (o : nat) : res (list A) :=
  if decide (o < shape1 a)%nat
  then mapR (λ r, of_option IndexError (r !! o)) (rows a)
  else Raise IndexError.

(** [a[:, idx]] for a list of non-negative indices. *)
Definition take_cols {A} (a : ndarray A) (idx : list nat) : res (ndarray A) :=
  if decide (Forall (λ j, j < shape1 a)%nat idx)
  then rs ← mapR (λ r, mapR (λ j, of_option IndexError (r !! j)) idx) (rows a);
       OK (mk_ndarray (shape0 a) (length idx) rs)
  else Raise IndexError.

(** [a[idx, :]] *)
Definition take_rows {A} (a : ndarray A) (idx : list nat) : res (ndarray A) :=
  rs ← mapR (λ i, of_option IndexError (rows a !! i)) idx;
  OK (mk_ndarray (length idx) (shape1 a) rs).

(** [a.T] *)
Definition transpose {A} (d : A) (a : ndarray A) : ndarray A :=
  mk_ndarray (shape1 a) (shape0 a)
    (map (λ j, map (λ r, nth j r d) (rows a)) (seq 0 (shape1 a))).

(** [np.zeros((n, m))] *)
Definition zeros {A} (z : A) (n m : nat) : ndarray A :=
  mk_ndarray n m (replicate n (replicate m z)).

(** Elementwise binary operation on one-dimensional arrays, with numpy's
    broadcasting of a length-one operand. *)
Definition broadcast2 {A B C} (f : A → B → C) (a : list A) (b : list B)
  : res (list C) :=
  if decide (length a = length b) then OK (zip_with f a b)
  else match a, b with
       | [x], _ => OK (map (f x) b)
       | _, [y] => OK (map (λ x, f x y) a)
       | _, _ => Raise (ValueError "operands could not be broadcast together")
       end.

Definition Qltb (x y : Q) : bool :=
  match (x ?= y)%Q with Lt => true | _ => false end.

(** [np.min] and [np.max] of a one-dimensional array; the empty array has
    no minimum. *)
Definition Qminl (x : Q) (l : list Q) : Q :=
  fold_left (λ m v, if Qltb v m then v else m) l x.
Definition Qmaxl (x : Q) (l : list Q) : Q :=
  fold_left (λ m v, if Qltb m v then v else m) l x.

Definition min (l : list Q) : res Q :=
  match l with
  | [] => Raise (ValueError "zero-size array to reduction operation minimum which has no identity")
  | x :: l' => OK (Qminl x l')
  end.
Definition max (l : list Q) : res Q :=
  match l with
  | [] => Raise (ValueError "zero-size array to reduction operation maximum which has no identity")
  | x :: l' => OK (Qmaxl x l')
  end.

(** Sorting, for [np.median]. *)
Fixpoint insert_sorted (x : Q) (l : list Q) : list Q :=
  match l with
  | [] => [x]
  | y :: l' => if Qle_bool x y then x :: l else y :: insert_sorted x l'
  end.
Definition sort (l : list Q) : list Q := foldr insert_sorted [] l.

(** [np.median]: the middle element of the sorted values, or the mean of
    the two middle ones.  [None] stands for the NaN numpy returns on an
    empty array. *)
Definition median (l : list Q) : option Q :=
  let s := sort l in
  let n := length l in
  if decide (n = 0)%nat then None
  else if Nat.even n
       then a ← s !! (n / 2 - 1)%nat; b ← s !! (n / 2)%nat; Some ((a + b) / 2)%Q
       else s !! (n / 2)%nat.

(** Broadcasting of two-dimensional arrays: along each axis the sizes
    agree or one of them is 1. *)
Definition bdim (n1 n2 : nat) : res nat :=
  if decide (n1 = n2) then OK n1
  else if decide (n1 = 1)%nat then OK n2
  else if decide (n2 = 1)%nat then OK n1
  else Raise (ValueError "operands could not be broadcast together").
Definition bidx (n i : nat) : nat := if decide (n = 1)%nat then 0%nat else i.

Definition at_ {A} (d : A) (a : ndarray A) (i j : nat) : A :=
  nth j (nth i (rows a) []) d.

Definition broadcast2d {A} (d : A) (f : A → A → A) (a b : ndarray A)
  : res (ndarray A) :=
  n ← bdim (shape0 a) (shape0 b);
  m ← bdim (shape1 a) (shape1 b);
  OK (mk_ndarray n m
        (map (λ i, map (λ j, f (at_ d a (bidx (shape0 a) i) (bidx (shape1 a) j))
                               (at_ d b (bidx (shape0 b) i) (bidx (shape1 b) j)))
                       (seq 0 m))
             (seq 0 n))).

Definition map2d {A B} (f : A → B) (a : ndarray A) : ndarray B :=
  mk_ndarray (shape0 a) (shape1 a) (map (map f) (rows a)).

(** [np.max] and [np.min] over all the entries of an integer array. *)
Definition Zmax_all (l : list Z) : res Z :=
  match l with
  | [] => Raise (ValueError "zero-size array to reduction operation maximum which has no identity")
  | x :: l' => OK (fold_left Z.max l' x)
  end.
Definition Zmin_all (l : list Z) : res Z :=
  match l with
  | [] => Raise (ValueError "zero-size array to reduction operation minimum which has no identity")
  | x :: l' => OK (fold_left Z.min l' x)
  end.

(** [a.mean(0)]: the mean of each column.  (With no row numpy yields NaN;
    here the quotient by zero is 0.) *)
Definition mean0 (a : ndarray Q) : list Q :=
  map (λ j, (fold_right Qplus 0 (map (λ r, nth j r 0) (rows a))
             / inject_Z (Z.of_nat (shape0 a)))%Q)
      (seq 0 (shape1 a)).

(** Python's [l[i]], where a negative [i] counts from the end. *)
Definition py_index {A} (l : list A) (i : Z) : res A :=
  if decide (0 ≤ i) then of_option IndexError (l !! Z.to_nat i)
  else if decide (- i ≤ Z.of_nat (length l))
       then of_option IndexError (l !! Z.to_nat (Z.of_nat (length l) + i))
       else Raise IndexError.

(** [int(q)]: truncation toward zero. *)
Definition int (q : Q) : Z := Z.quot (Qnum q) (Z.pos (Qden q)).

End Np.

(** ** [pypit/traceslits.py] *)

Module TraceSlits.

Abbreviation image := (Np.ndarray Q).
Abbreviation EdgeArr := (Np.ndarray Z).

(** A JSON value: what [tc_dict] holds and what [ltu.jsonify] writes. *)
Inductive json : Type :=
  | JNull
  | JBool (b : bool)
  | JNum (q : Q)
  | JStr (s : string)
  | JList (l : list json)
  | JDict (d : list (string * json)).

(** [settings['trace']['slits']], with the keys of [default_settings]. *)
Record Settings : Type := mk_Settings {
  single : list Q;
  function : string;
  polyorder : Z;
  diffpolyorder : Z;
  fracignore : Q;
  medrep : Z;
  number : Z;
  maxgap : option Z;
  sigdetect : Q;
  pad : Q;
  pca_params : list Z;
  pca_type : string;
  pca_extrapolate_pos : Z;
  pca_extrapolate_neg : Z;
  sobel_mode : string
}.

Definition default_settings : Settings :=
  mk_Settings [] "legendre" 3 2 (1 # 100) 0 (-1) None 20 0
              [3; 2; 1; 0; 0; 0] "pixel" 0 0 "nearest".

(** The attributes of a [TraceSlits] object.  An attribute that is [None]
    in Python is [None] here; [log] collects what [msgs.info] reports. *)
Record State : Type := mk_State {
  mstrace : image;
  pixlocn : Np.ndarray (Q * Q);
  det : option Z;
  ednum : Z;
  binbpx : image;
  input_binbpx : bool;
  settings : Settings;
  lcen : option image;
  rcen : option image;
  tc_dict : option json;
  edgearr : option EdgeArr;
  siglev : option image;
  steps : list string;
  extrapord : option (list bool);
  pixcen : option (Np.ndarray Z);
  pixwid : option (list Z);
  lordpix : option (Np.ndarray Z);
  rordpix : option (Np.ndarray Z);
  slitpix : option (Np.ndarray Z);
  binarr : image;
  user_set : option bool;
  lmin : option Z;
  lmax : option Z;
  rmin : option Z;
  rmax : option Z;
  lcnt : option Z;
  rcnt : option Z;
  lcoeff : option image;
  lnmbrarr : option (list Q);
  ldiffarr : option (list Q);
  lwghtarr : option (list Q);
  rcoeff : option image;
  rnmbrarr : option (list Q);
  rdiffarr : option (list Q);
  rwghtarr : option (list Q);
  lcent : option image;
  rcent : option image;
  gord : option (list Z);
  slitcen : option image;
  edgearrcp : option EdgeArr;
  log : list string
}.

Definition set_lcen (v : option image) (s : State) : State :=
  mk_State (mstrace s) (pixlocn s) (det s) (ednum s) (binbpx s) (input_binbpx s) (settings s) v
  (rcen s) (tc_dict s) (edgearr s) (siglev s) (steps s) (extrapord s) (pixcen s) (pixwid s)
  (lordpix s) (rordpix s) (slitpix s) (binarr s) (user_set s) (lmin s) (lmax s) (rmin s) (rmax s)
  (lcnt s) (rcnt s) (lcoeff s) (lnmbrarr s) (ldiffarr s) (lwghtarr s) (rcoeff s) (rnmbrarr s)
  (rdiffarr s) (rwghtarr s) (lcent s) (rcent s) (gord s) (slitcen s) (edgearrcp s) (log s).
Definition set_rcen (v : option image) (s : State) : State :=
  mk_State (mstrace s) (pixlocn s) (det s) (ednum s) (binbpx s) (input_binbpx s) (settings s)
  (lcen s) v (tc_dict s) (edgearr s) (siglev s) (steps s) (extrapord s) (pixcen s) (pixwid s)
  (lordpix s) (rordpix s) (slitpix s) (binarr s) (user_set s) (lmin s) (lmax s) (rmin s) (rmax s)
  (lcnt s) (rcnt s) (lcoeff s) (lnmbrarr s) (ldiffarr s) (lwghtarr s) (rcoeff s) (rnmbrarr s)
  (rdiffarr s) (rwghtarr s) (lcent s) (rcent s) (gord s) (slitcen s) (edgearrcp s) (log s).
Definition set_tc_dict (v : option json) (s : State) : State :=
  mk_State (mstrace s) (pixlocn s) (det s) (ednum s) (binbpx s) (input_binbpx s) (settings s)
  (lcen s) (rcen s) v (edgearr s) (siglev s) (steps s) (extrapord s) (pixcen s) (pixwid s)
  (lordpix s) (rordpix s) (slitpix s) (binarr s) (user_set s) (lmin s) (lmax s) (rmin s) (rmax s)
  (lcnt s) (rcnt s) (lcoeff s) (lnmbrarr s) (ldiffarr s) (lwghtarr s) (rcoeff s) (rnmbrarr s)
  (rdiffarr s) (rwghtarr s) (lcent s) (rcent s) (gord s) (slitcen s) (edgearrcp s) (log s).
Definition set_edgearr (v : option EdgeArr) (s : State) : State :=
  mk_State (mstrace s) (pixlocn s) (det s) (ednum s) (binbpx s) (input_binbpx s) (settings s)
  (lcen s) (rcen s) (tc_dict s) v (siglev s) (steps s) (extrapord s) (pixcen s) (pixwid s)
  (lordpix s) (rordpix s) (slitpix s) (binarr s) (user_set s) (lmin s) (lmax s) (rmin s) (rmax s)
  (lcnt s) (rcnt s) (lcoeff s) (lnmbrarr s) (ldiffarr s) (lwghtarr s) (rcoeff s) (rnmbrarr s)
  (rdiffarr s) (rwghtarr s) (lcent s) (rcent s) (gord s) (slitcen s) (edgearrcp s) (log s).
Definition set_siglev (v : option image) (s : State) : State :=
  mk_State (mstrace s) (pixlocn s) (det s) (ednum s) (binbpx s) (input_binbpx s) (settings s)
  (lcen s) (rcen s) (tc_dict s) (edgearr s) v (steps s) (extrapord s) (pixcen s) (pixwid s)
  (lordpix s) (rordpix s) (slitpix s) (binarr s) (user_set s) (lmin s) (lmax s) (rmin s) (rmax s)
  (lcnt s) (rcnt s) (lcoeff s) (lnmbrarr s) (ldiffarr s) (lwghtarr s) (rcoeff s) (rnmbrarr s)
  (rdiffarr s) (rwghtarr s) (lcent s) (rcent s) (gord s) (slitcen s) (edgearrcp s) (log s).
Definition set_steps (v : list string) (s : State) : State :=
  mk_State (mstrace s) (pixlocn s) (det s) (ednum s) (binbpx s) (input_binbpx s) (settings s)
  (lcen s) (rcen s) (tc_dict s) (edgearr s) (siglev s) v (extrapord s) (pixcen s) (pixwid s)
  (lordpix s) (rordpix s) (slitpix s) (binarr s) (user_set s) (lmin s) (lmax s) (rmin s) (rmax s)
  (lcnt s) (rcnt s) (lcoeff s) (lnmbrarr s) (ldiffarr s) (lwghtarr s) (rcoeff s) (rnmbrarr s)
  (rdiffarr s) (rwghtarr s) (lcent s) (rcent s) (gord s) (slitcen s) (edgearrcp s) (log s).
Definition set_extrapord (v : option (list bool)) (s : State) : State :=
  mk_State (mstrace s) (pixlocn s) (det s) (ednum s) (binbpx s) (input_binbpx s) (settings s)
  (lcen s) (rcen s) (tc_dict s) (edgearr s) (siglev s) (steps s) v (pixcen s) (pixwid s) (lordpix
  s) (rordpix s) (slitpix s) (binarr s) (user_set s) (lmin s) (lmax s) (rmin s) (rmax s) (lcnt s)
  (rcnt s) (lcoeff s) (lnmbrarr s) (ldiffarr s) (lwghtarr s) (rcoeff s) (rnmbrarr s) (rdiffarr s)
  (rwghtarr s) (lcent s) (rcent s) (gord s) (slitcen s) (edgearrcp s) (log s).
Definition set_pixcen (v : option (Np.ndarray Z)) (s : State) : State :=
  mk_State (mstrace s) (pixlocn s) (det s) (ednum s) (binbpx s) (input_binbpx s) (settings s)
  (lcen s) (rcen s) (tc_dict s) (edgearr s) (siglev s) (steps s) (extrapord s) v (pixwid s)
  (lordpix s) (rordpix s) (slitpix s) (binarr s) (user_set s) (lmin s) (lmax s) (rmin s) (rmax s)
  (lcnt s) (rcnt s) (lcoeff s) (lnmbrarr s) (ldiffarr s) (lwghtarr s) (rcoeff s) (rnmbrarr s)
  (rdiffarr s) (rwghtarr s) (lcent s) (rcent s) (gord s) (slitcen s) (edgearrcp s) (log s).
Definition set_pixwid (v : option (list Z)) (s : State) : State :=
  mk_State (mstrace s) (pixlocn s) (det s) (ednum s) (binbpx s) (input_binbpx s) (settings s)
  (lcen s) (rcen s) (tc_dict s) (edgearr s) (siglev s) (steps s) (extrapord s) (pixcen s) v
  (lordpix s) (rordpix s) (slitpix s) (binarr s) (user_set s) (lmin s) (lmax s) (rmin s) (rmax s)
  (lcnt s) (rcnt s) (lcoeff s) (lnmbrarr s) (ldiffarr s) (lwghtarr s) (rcoeff s) (rnmbrarr s)
  (rdiffarr s) (rwghtarr s) (lcent s) (rcent s) (gord s) (slitcen s) (edgearrcp s) (log s).
Definition set_lordpix (v : option (Np.ndarray Z)) (s : State) : State :=
  mk_State (mstrace s) (pixlocn s) (det s) (ednum s) (binbpx s) (input_binbpx s) (settings s)
  (lcen s) (rcen s) (tc_dict s) (edgearr s) (siglev s) (steps s) (extrapord s) (pixcen s) (pixwid
  s) v (rordpix s) (slitpix s) (binarr s) (user_set s) (lmin s) (lmax s) (rmin s) (rmax s) (lcnt
  s) (rcnt s) (lcoeff s) (lnmbrarr s) (ldiffarr s) (lwghtarr s) (rcoeff s) (rnmbrarr s) (rdiffarr
  s) (rwghtarr s) (lcent s) (rcent s) (gord s) (slitcen s) (edgearrcp s) (log s).
Definition set_rordpix (v : option (Np.ndarray Z)) (s : State) : State :=
  mk_State (mstrace s) (pixlocn s) (det s) (ednum s) (binbpx s) (input_binbpx s) (settings s)
  (lcen s) (rcen s) (tc_dict s) (edgearr s) (siglev s) (steps s) (extrapord s) (pixcen s) (pixwid
  s) (lordpix s) v (slitpix s) (binarr s) (user_set s) (lmin s) (lmax s) (rmin s) (rmax s) (lcnt
  s) (rcnt s) (lcoeff s) (lnmbrarr s) (ldiffarr s) (lwghtarr s) (rcoeff s) (rnmbrarr s) (rdiffarr
  s) (rwghtarr s) (lcent s) (rcent s) (gord s) (slitcen s) (edgearrcp s) (log s).
Definition set_slitpix (v : option (Np.ndarray Z)) (s : State) : State :=
  mk_State (mstrace s) (pixlocn s) (det s) (ednum s) (binbpx s) (input_binbpx s) (settings s)
  (lcen s) (rcen s) (tc_dict s) (edgearr s) (siglev s) (steps s) (extrapord s) (pixcen s) (pixwid
  s) (lordpix s) (rordpix s) v (binarr s) (user_set s) (lmin s) (lmax s) (rmin s) (rmax s) (lcnt
  s) (rcnt s) (lcoeff s) (lnmbrarr s) (ldiffarr s) (lwghtarr s) (rcoeff s) (rnmbrarr s) (rdiffarr
  s) (rwghtarr s) (lcent s) (rcent s) (gord s) (slitcen s) (edgearrcp s) (log s).
Definition set_binarr (v : image) (s : State) : State :=
  mk_State (mstrace s) (pixlocn s) (det s) (ednum s) (binbpx s) (input_binbpx s) (settings s)
  (lcen s) (rcen s) (tc_dict s) (edgearr s) (siglev s) (steps s) (extrapord s) (pixcen s) (pixwid
  s) (lordpix s) (rordpix s) (slitpix s) v (user_set s) (lmin s) (lmax s) (rmin s) (rmax s) (lcnt
  s) (rcnt s) (lcoeff s) (lnmbrarr s) (ldiffarr s) (lwghtarr s) (rcoeff s) (rnmbrarr s) (rdiffarr
  s) (rwghtarr s) (lcent s) (rcent s) (gord s) (slitcen s) (edgearrcp s) (log s).
Definition set_user_set (v : option bool) (s : State) : State :=
  mk_State (mstrace s) (pixlocn s) (det s) (ednum s) (binbpx s) (input_binbpx s) (settings s)
  (lcen s) (rcen s) (tc_dict s) (edgearr s) (siglev s) (steps s) (extrapord s) (pixcen s) (pixwid
  s) (lordpix s) (rordpix s) (slitpix s) (binarr s) v (lmin s) (lmax s) (rmin s) (rmax s) (lcnt s)
  (rcnt s) (lcoeff s) (lnmbrarr s) (ldiffarr s) (lwghtarr s) (rcoeff s) (rnmbrarr s) (rdiffarr s)
  (rwghtarr s) (lcent s) (rcent s) (gord s) (slitcen s) (edgearrcp s) (log s).
Definition set_lmin (v : option Z) (s : State) : State :=
  mk_State (mstrace s) (pixlocn s) (det s) (ednum s) (binbpx s) (input_binbpx s) (settings s)
  (lcen s) (rcen s) (tc_dict s) (edgearr s) (siglev s) (steps s) (extrapord s) (pixcen s) (pixwid
  s) (lordpix s) (rordpix s) (slitpix s) (binarr s) (user_set s) v (lmax s) (rmin s) (rmax s)
  (lcnt s) (rcnt s) (lcoeff s) (lnmbrarr s) (ldiffarr s) (lwghtarr s) (rcoeff s) (rnmbrarr s)
  (rdiffarr s) (rwghtarr s) (lcent s) (rcent s) (gord s) (slitcen s) (edgearrcp s) (log s).
Definition set_lmax (v : option Z) (s : State) : State :=
  mk_State (mstrace s) (pixlocn s) (det s) (ednum s) (binbpx s) (input_binbpx s) (settings s)
  (lcen s) (rcen s) (tc_dict s) (edgearr s) (siglev s) (steps s) (extrapord s) (pixcen s) (pixwid
  s) (lordpix s) (rordpix s) (slitpix s) (binarr s) (user_set s) (lmin s) v (rmin s) (rmax s)
  (lcnt s) (rcnt s) (lcoeff s) (lnmbrarr s) (ldiffarr s) (lwghtarr s) (rcoeff s) (rnmbrarr s)
  (rdiffarr s) (rwghtarr s) (lcent s) (rcent s) (gord s) (slitcen s) (edgearrcp s) (log s).
Definition set_rmin (v : option Z) (s : State) : State :=
  mk_State (mstrace s) (pixlocn s) (det s) (ednum s) (binbpx s) (input_binbpx s) (settings s)
  (lcen s) (rcen s) (tc_dict s) (edgearr s) (siglev s) (steps s) (extrapord s) (pixcen s) (pixwid
  s) (lordpix s) (rordpix s) (slitpix s) (binarr s) (user_set s) (lmin s) (lmax s) v (rmax s)
  (lcnt s) (rcnt s) (lcoeff s) (lnmbrarr s) (ldiffarr s) (lwghtarr s) (rcoeff s) (rnmbrarr s)
  (rdiffarr s) (rwghtarr s) (lcent s) (rcent s) (gord s) (slitcen s) (edgearrcp s) (log s).
Definition set_rmax (v : option Z) (s : State) : State :=
  mk_State (mstrace s) (pixlocn s) (det s) (ednum s) (binbpx s) (input_binbpx s) (settings s)
  (lcen s) (rcen s) (tc_dict s) (edgearr s) (siglev s) (steps s) (extrapord s) (pixcen s) (pixwid
  s) (lordpix s) (rordpix s) (slitpix s) (binarr s) (user_set s) (lmin s) (lmax s) (rmin s) v
  (lcnt s) (rcnt s) (lcoeff s) (lnmbrarr s) (ldiffarr s) (lwghtarr s) (rcoeff s) (rnmbrarr s)
  (rdiffarr s) (rwghtarr s) (lcent s) (rcent s) (gord s) (slitcen s) (edgearrcp s) (log s).
Definition set_lcnt (v : option Z) (s : State) : State :=
  mk_State (mstrace s) (pixlocn s) (det s) (ednum s) (binbpx s) (input_binbpx s) (settings s)
  (lcen s) (rcen s) (tc_dict s) (edgearr s) (siglev s) (steps s) (extrapord s) (pixcen s) (pixwid
  s) (lordpix s) (rordpix s) (slitpix s) (binarr s) (user_set s) (lmin s) (lmax s) (rmin s) (rmax
  s) v (rcnt s) (lcoeff s) (lnmbrarr s) (ldiffarr s) (lwghtarr s) (rcoeff s) (rnmbrarr s)
  (rdiffarr s) (rwghtarr s) (lcent s) (rcent s) (gord s) (slitcen s) (edgearrcp s) (log s).
Definition set_rcnt (v : option Z) (s : State) : State :=
  mk_State (mstrace s) (pixlocn s) (det s) (ednum s) (binbpx s) (input_binbpx s) (settings s)
  (lcen s) (rcen s) (tc_dict s) (edgearr s) (siglev s) (steps s) (extrapord s) (pixcen s) (pixwid
  s) (lordpix s) (rordpix s) (slitpix s) (binarr s) (user_set s) (lmin s) (lmax s) (rmin s) (rmax
  s) (lcnt s) v (lcoeff s) (lnmbrarr s) (ldiffarr s) (lwghtarr s) (rcoeff s) (rnmbrarr s)
  (rdiffarr s) (rwghtarr s) (lcent s) (rcent s) (gord s) (slitcen s) (edgearrcp s) (log s).
Definition set_lcoeff (v : option image) (s : State) : State :=
  mk_State (mstrace s) (pixlocn s) (det s) (ednum s) (binbpx s) (input_binbpx s) (settings s)
  (lcen s) (rcen s) (tc_dict s) (edgearr s) (siglev s) (steps s) (extrapord s) (pixcen s) (pixwid
  s) (lordpix s) (rordpix s) (slitpix s) (binarr s) (user_set s) (lmin s) (lmax s) (rmin s) (rmax
  s) (lcnt s) (rcnt s) v (lnmbrarr s) (ldiffarr s) (lwghtarr s) (rcoeff s) (rnmbrarr s) (rdiffarr
  s) (rwghtarr s) (lcent s) (rcent s) (gord s) (slitcen s) (edgearrcp s) (log s).
Definition set_lnmbrarr (v : option (list Q)) (s : State) : State :=
  mk_State (mstrace s) (pixlocn s) (det s) (ednum s) (binbpx s) (input_binbpx s) (settings s)
  (lcen s) (rcen s) (tc_dict s) (edgearr s) (siglev s) (steps s) (extrapord s) (pixcen s) (pixwid
  s) (lordpix s) (rordpix s) (slitpix s) (binarr s) (user_set s) (lmin s) (lmax s) (rmin s) (rmax
  s) (lcnt s) (rcnt s) (lcoeff s) v (ldiffarr s) (lwghtarr s) (rcoeff s) (rnmbrarr s) (rdiffarr s)
  (rwghtarr s) (lcent s) (rcent s) (gord s) (slitcen s) (edgearrcp s) (log s).
Definition set_ldiffarr (v : option (list Q)) (s : State) : State :=
  mk_State (mstrace s) (pixlocn s) (det s) (ednum s) (binbpx s) (input_binbpx s) (settings s)
  (lcen s) (rcen s) (tc_dict s) (edgearr s) (siglev s) (steps s) (extrapord s) (pixcen s) (pixwid
  s) (lordpix s) (rordpix s) (slitpix s) (binarr s) (user_set s) (lmin s) (lmax s) (rmin s) (rmax
  s) (lcnt s) (rcnt s) (lcoeff s) (lnmbrarr s) v (lwghtarr s) (rcoeff s) (rnmbrarr s) (rdiffarr s)
  (rwghtarr s) (lcent s) (rcent s) (gord s) (slitcen s) (edgearrcp s) (log s).
Definition set_lwghtarr (v : option (list Q)) (s : State) : State :=
  mk_State (mstrace s) (pixlocn s) (det s) (ednum s) (binbpx s) (input_binbpx s) (settings s)
  (lcen s) (rcen s) (tc_dict s) (edgearr s) (siglev s) (steps s) (extrapord s) (pixcen s) (pixwid
  s) (lordpix s) (rordpix s) (slitpix s) (binarr s) (user_set s) (lmin s) (lmax s) (rmin s) (rmax
  s) (lcnt s) (rcnt s) (lcoeff s) (lnmbrarr s) (ldiffarr s) v (rcoeff s) (rnmbrarr s) (rdiffarr s)
  (rwghtarr s) (lcent s) (rcent s) (gord s) (slitcen s) (edgearrcp s) (log s).
Definition set_rcoeff (v : option image) (s : State) : State :=
  mk_State (mstrace s) (pixlocn s) (det s) (ednum s) (binbpx s) (input_binbpx s) (settings s)
  (lcen s) (rcen s) (tc_dict s) (edgearr s) (siglev s) (steps s) (extrapord s) (pixcen s) (pixwid
  s) (lordpix s) (rordpix s) (slitpix s) (binarr s) (user_set s) (lmin s) (lmax s) (rmin s) (rmax
  s) (lcnt s) (rcnt s) (lcoeff s) (lnmbrarr s) (ldiffarr s) (lwghtarr s) v (rnmbrarr s) (rdiffarr
  s) (rwghtarr s) (lcent s) (rcent s) (gord s) (slitcen s) (edgearrcp s) (log s).
Definition set_rnmbrarr (v : option (list Q)) (s : State) : State :=
  mk_State (mstrace s) (pixlocn s) (det s) (ednum s) (binbpx s) (input_binbpx s) (settings s)
  (lcen s) (rcen s) (tc_dict s) (edgearr s) (siglev s) (steps s) (extrapord s) (pixcen s) (pixwid
  s) (lordpix s) (rordpix s) (slitpix s) (binarr s) (user_set s) (lmin s) (lmax s) (rmin s) (rmax
  s) (lcnt s) (rcnt s) (lcoeff s) (lnmbrarr s) (ldiffarr s) (lwghtarr s) (rcoeff s) v (rdiffarr s)
  (rwghtarr s) (lcent s) (rcent s) (gord s) (slitcen s) (edgearrcp s) (log s).
Definition set_rdiffarr (v : option (list Q)) (s : State) : State :=
  mk_State (mstrace s) (pixlocn s) (det s) (ednum s) (binbpx s) (input_binbpx s) (settings s)
  (lcen s) (rcen s) (tc_dict s) (edgearr s) (siglev s) (steps s) (extrapord s) (pixcen s) (pixwid
  s) (lordpix s) (rordpix s) (slitpix s) (binarr s) (user_set s) (lmin s) (lmax s) (rmin s) (rmax
  s) (lcnt s) (rcnt s) (lcoeff s) (lnmbrarr s) (ldiffarr s) (lwghtarr s) (rcoeff s) (rnmbrarr s) v
  (rwghtarr s) (lcent s) (rcent s) (gord s) (slitcen s) (edgearrcp s) (log s).
Definition set_rwghtarr (v : option (list Q)) (s : State) : State :=
  mk_State (mstrace s) (pixlocn s) (det s) (ednum s) (binbpx s) (input_binbpx s) (settings s)
  (lcen s) (rcen s) (tc_dict s) (edgearr s) (siglev s) (steps s) (extrapord s) (pixcen s) (pixwid
  s) (lordpix s) (rordpix s) (slitpix s) (binarr s) (user_set s) (lmin s) (lmax s) (rmin s) (rmax
  s) (lcnt s) (rcnt s) (lcoeff s) (lnmbrarr s) (ldiffarr s) (lwghtarr s) (rcoeff s) (rnmbrarr s)
  (rdiffarr s) v (lcent s) (rcent s) (gord s) (slitcen s) (edgearrcp s) (log s).
Definition set_lcent (v : option image) (s : State) : State :=
  mk_State (mstrace s) (pixlocn s) (det s) (ednum s) (binbpx s) (input_binbpx s) (settings s)
  (lcen s) (rcen s) (tc_dict s) (edgearr s) (siglev s) (steps s) (extrapord s) (pixcen s) (pixwid
  s) (lordpix s) (rordpix s) (slitpix s) (binarr s) (user_set s) (lmin s) (lmax s) (rmin s) (rmax
  s) (lcnt s) (rcnt s) (lcoeff s) (lnmbrarr s) (ldiffarr s) (lwghtarr s) (rcoeff s) (rnmbrarr s)
  (rdiffarr s) (rwghtarr s) v (rcent s) (gord s) (slitcen s) (edgearrcp s) (log s).
Definition set_rcent (v : option image) (s : State) : State :=
  mk_State (mstrace s) (pixlocn s) (det s) (ednum s) (binbpx s) (input_binbpx s) (settings s)
  (lcen s) (rcen s) (tc_dict s) (edgearr s) (siglev s) (steps s) (extrapord s) (pixcen s) (pixwid
  s) (lordpix s) (rordpix s) (slitpix s) (binarr s) (user_set s) (lmin s) (lmax s) (rmin s) (rmax
  s) (lcnt s) (rcnt s) (lcoeff s) (lnmbrarr s) (ldiffarr s) (lwghtarr s) (rcoeff s) (rnmbrarr s)
  (rdiffarr s) (rwghtarr s) (lcent s) v (gord s) (slitcen s) (edgearrcp s) (log s).
Definition set_gord (v : option (list Z)) (s : State) : State :=
  mk_State (mstrace s) (pixlocn s) (det s) (ednum s) (binbpx s) (input_binbpx s) (settings s)
  (lcen s) (rcen s) (tc_dict s) (edgearr s) (siglev s) (steps s) (extrapord s) (pixcen s) (pixwid
  s) (lordpix s) (rordpix s) (slitpix s) (binarr s) (user_set s) (lmin s) (lmax s) (rmin s) (rmax
  s) (lcnt s) (rcnt s) (lcoeff s) (lnmbrarr s) (ldiffarr s) (lwghtarr s) (rcoeff s) (rnmbrarr s)
  (rdiffarr s) (rwghtarr s) (lcent s) (rcent s) v (slitcen s) (edgearrcp s) (log s).
Definition set_slitcen (v : option image) (s : State) : State :=
  mk_State (mstrace s) (pixlocn s) (det s) (ednum s) (binbpx s) (input_binbpx s) (settings s)
  (lcen s) (rcen s) (tc_dict s) (edgearr s) (siglev s) (steps s) (extrapord s) (pixcen s) (pixwid
  s) (lordpix s) (rordpix s) (slitpix s) (binarr s) (user_set s) (lmin s) (lmax s) (rmin s) (rmax
  s) (lcnt s) (rcnt s) (lcoeff s) (lnmbrarr s) (ldiffarr s) (lwghtarr s) (rcoeff s) (rnmbrarr s)
  (rdiffarr s) (rwghtarr s) (lcent s) (rcent s) (gord s) v (edgearrcp s) (log s).
Definition set_edgearrcp (v : option EdgeArr) (s : State) : State :=
  mk_State (mstrace s) (pixlocn s) (det s) (ednum s) (binbpx s) (input_binbpx s) (settings s)
  (lcen s) (rcen s) (tc_dict s) (edgearr s) (siglev s) (steps s) (extrapord s) (pixcen s) (pixwid
  s) (lordpix s) (rordpix s) (slitpix s) (binarr s) (user_set s) (lmin s) (lmax s) (rmin s) (rmax
  s) (lcnt s) (rcnt s) (lcoeff s) (lnmbrarr s) (ldiffarr s) (lwghtarr s) (rcoeff s) (rnmbrarr s)
  (rdiffarr s) (rwghtarr s) (lcent s) (rcent s) (gord s) (slitcen s) v (log s).
Definition set_log (v : list string) (s : State) : State :=
  mk_State (mstrace s) (pixlocn s) (det s) (ednum s) (binbpx s) (input_binbpx s) (settings s)
  (lcen s) (rcen s) (tc_dict s) (edgearr s) (siglev s) (steps s) (extrapord s) (pixcen s) (pixwid
  s) (lordpix s) (rordpix s) (slitpix s) (binarr s) (user_set s) (lmin s) (lmax s) (rmin s) (rmax
  s) (lcnt s) (rcnt s) (lcoeff s) (lnmbrarr s) (ldiffarr s) (lwghtarr s) (rcoeff s) (rnmbrarr s)
  (rdiffarr s) (rwghtarr s) (lcent s) (rcent s) (gord s) (slitcen s) (edgearrcp s) v.

(** [self.steps.append(name)] and [msgs.info(text)] *)
Definition add_step (name : string) (s : State) : State :=
  set_steps (steps s ++ [name]) s.
Definition msgs_info (text : string) (s : State) : State :=
  set_log (log s ++ [text]) s.

(** Using an attribute that is still [None] (or was never set): reading
    an attribute of it, and computing with it. *)
Definition attr {A} (o : option A) : res A := of_option AttributeError o.
Definition operand {A} (o : option A) : res A := of_option TypeError o.

(** *** The collaborators

    [artraceslits], [arutils], [arpixels] and [scipy.ndimage] are not part
    of the module; the class below is their interface as [TraceSlits]
    calls it.  Each may raise.  A function that changes [edgearr] in place
    returns the changed array. *)
Class Collaborators : Type := {
  uniform_filter : image → image;
  edgearr_from_binarr :
    image → image → Z → string → Q → Z → res (image * EdgeArr);
  edgearr_from_user : nat * nat → Q → Q → Z → res EdgeArr;
  new_match_edges : EdgeArr → Z → res (EdgeArr * Z * Z);
  edgearr_add_left_right :
    EdgeArr → image → image → Z → Z → Z → res (EdgeArr * Z * Z);
  assign_slits : image → EdgeArr → Z → Settings → res EdgeArr;
  edgearr_close_slits : image → EdgeArr → EdgeArr → Z → Settings → res EdgeArr;
  edgearr_final_left_right : EdgeArr → Z → option image → res (EdgeArr * Z * Z);
  edgearr_tcrude : EdgeArr → option image → Z → res (EdgeArr * json);
  edgearr_mslit_sync : EdgeArr → option json → Z → res EdgeArr;
  add_user_edges :
    EdgeArr → option image → option json → list (list Q) → res EdgeArr;
  edgearr_ignore_orders : EdgeArr → Q → res (EdgeArr * (Z * Z * Z * Z));
  fit_edges :
    EdgeArr → Z → Z → image → image → bool → Z → string
    → res (image * list Q * list Q * list Q);
  func_val : list Q → list Q → string → Q → Q → res (list Q);
  synchronize_edges :
    image → EdgeArr → image → Z → Z → image → Z → image
    → list Q * list Q * list Q → list Q * list Q * list Q → Settings
    → res (image * image * list Z
           * (image * list Q * list Q * list Q)
           * (image * list Q * list Q * list Q));
  pca_order_slit_edges :
    image → EdgeArr → image → image → list Z → image → image → image → image
    → Np.ndarray (Q * Q) → Settings → res (image * image * list bool);
  pca_pixel_slit_edges :
    image → EdgeArr → image → image
    → list Q * list Q * list Q → list Q * list Q * list Q
    → image → image → image → Settings → res (image * image * list bool);
  phys_to_pix : image → Np.ndarray (Q * Q) → Z → res (Np.ndarray Z);
  core_slit_pixels : image → image → nat * nat → Q → res (Np.ndarray Z)
}.

(** *** Trimming: the array part of [_trim_slits] *)

Definition msg_off (o : nat) : string :=
  "Slit " +:+ pretty (o + 1)%nat +:+ " is off the detector - ignoring this slit".
Definition msg_frac (o : nat) : string :=
  "Slit " +:+ pretty (o + 1)%nat +:+ " is less than fracignore - ignoring this slit".

(** [np.median(x) < fracpix]; a NaN median compares false. *)
Definition median_below (d : list Q) (fracpix : Z) : bool :=
  match Np.median d with
  | Some md => Np.Qltb md (inject_Z fracpix)
  | None => false
  end.

(** One pass of the loop body for slit [o]: the new value of [mask[o]]
    and the messages reported. *)
Definition trim_body (lcen rcen : image) (ncols : nat) (fracpix : Z)
    (usefracpix : bool) (o : nat) : res (bool * list string) :=
  lo ← Np.col lcen o;
  mn ← Np.min lo;
  '(m1, log1) ←
    (if Np.Qltb (inject_Z (Z.of_nat ncols)) mn
     then OK (true, [msg_off o])
     else ro ← Np.col rcen o;
          mx ← Np.max ro;
          if Np.Qltb mx 0 then OK (true, [msg_off o]) else OK (false, []));
  if usefracpix
  then ro ← Np.col rcen o;
       lo' ← Np.col lcen o;
       d ← Np.broadcast2 Qminus ro lo';
       if median_below d fracpix
       then OK (true, log1 ++ [msg_frac o])
       else OK (m1, log1)
  else OK (m1, log1).

(** [for o in range(nslit)]: the mask and the messages, in order. *)
Fixpoint trim_loop (lcen rcen : image) (ncols : nat) (fracpix : Z)
    (usefracpix : bool) (os : list nat) : res (list bool * list string) :=
  match os with
  | [] => OK ([], [])
  | o :: os' =>
      '(m, l) ← trim_body lcen rcen ncols fracpix usefracpix o;
      '(ms, ls) ← trim_loop lcen rcen ncols fracpix usefracpix os';
      OK (m :: ms, l ++ ls)
  end.

(** [np.where(mask == 0)[0]] *)
Fixpoint where_false (i : nat) (mask : list bool) : list nat :=
  match mask with
  | [] => []
  | b :: mask' => if b then where_false (S i) mask' else i :: where_false (S i) mask'
  end.

Definition fracpix_of (fracignore : Q) (ncols : nat) : Z :=
  Np.int (fracignore * inject_Z (Z.of_nat ncols))%Q.

Definition trim_arrays (lcen rcen : image) (ncols : nat) (fracignore : Q)
    (usefracpix : bool) : res (image * image * list string) :=
  let nslit := Np.shape1 lcen in
  let fracpix := fracpix_of fracignore ncols in
  '(mask, msgs) ← trim_loop lcen rcen ncols fracpix usefracpix (seq 0 nslit);
  let wok := where_false 0 mask in
  lcen' ← Np.take_cols lcen wok;
  rcen' ← Np.take_cols rcen wok;
  OK (lcen', rcen', msgs).

Section Methods.
Context `{ext : Collaborators}.

(** [_pca]: "Whether or not a PCA is performed, lcen and rcen are
    generated for the first time". *)
Definition _pca_order_slit_edges (s : State) : res State :=
  let plxbin := Np.mk_ndarray (Np.shape0 (pixlocn s)) (Np.shape1 (pixlocn s))
                  (map (map fst) (Np.rows (pixlocn s))) in
  ea ← attr (edgearr s);
  lct ← attr (lcent s);
  rct ← attr (rcent s);
  go ← attr (gord s);
  lco ← attr (lcoeff s);
  rco ← attr (rcoeff s);
  sc ← attr (slitcen s);
  '(l, r, e) ← pca_order_slit_edges (binarr s) ea lct rct go lco rco plxbin sc
                 (pixlocn s) (settings s);
  OK (add_step "_pca_order_slit_edges"
        (set_extrapord (Some e) (set_rcen (Some r) (set_lcen (Some l) s)))).

Definition _pca_pixel_slit_edges (s : State) : res State :=
  let plxbin := Np.mk_ndarray (Np.shape0 (pixlocn s)) (Np.shape1 (pixlocn s))
                  (map (map fst) (Np.rows (pixlocn s))) in
  ea ← attr (edgearr s);
  lco ← attr (lcoeff s);
  rco ← attr (rcoeff s);
  ld ← attr (ldiffarr s);
  rd ← attr (rdiffarr s);
  ln ← attr (lnmbrarr s);
  rn ← attr (rnmbrarr s);
  lw ← attr (lwghtarr s);
  rw ← attr (rwghtarr s);
  lct ← attr (lcent s);
  rct ← attr (rcent s);
  '(l, r, e) ← pca_pixel_slit_edges (binarr s) ea lco rco (ld, ln, lw) (rd, rn, rw)
                 lct rct plxbin (settings s);
  OK (add_step "_pca_pixel_slit_edges"
        (set_extrapord (Some e) (set_rcen (Some r) (set_lcen (Some l) s)))).

(** [np.all(a, axis=1)] *)
Definition all_axis1 (a : image) : list bool :=
  map (forallb (λ v, negb (Qeq_bool v 0))) (Np.rows a).

(** [np.where(m)[0]] *)
Fixpoint where_true (i : nat) (m : list bool) : list nat :=
  match m with
  | [] => []
  | b :: m' => if b then i :: where_true (S i) m' else where_true (S i) m'
  end.

(** The branch of [_pca] without a PCA: the slits whose two centroid
    traces are non-zero in every row. *)
Definition pca_none (lct rct : image) : res (image * image * list bool) :=
  let allord := seq 0 (Np.shape0 lct) in
  m ← Np.broadcast2 orb (map negb (all_axis1 lct)) (map negb (all_axis1 rct));
  let maskord := where_true 0 m in
  let ww := filter (λ i, i ∉ maskord) allord in
  l ← Np.take_rows lct ww;
  r ← Np.take_rows rct ww;
  let lc := Np.transpose 0%Q l in
  let rc := Np.transpose 0%Q r in
  OK (lc, rc, replicate (Np.shape1 lc) false).

Definition _pca (s : State) : res State :=
  if decide (pca_type (settings s) = "order") then _pca_order_slit_edges s
  else if decide (pca_type (settings s) = "pixel") then _pca_pixel_slit_edges s
  else
    lct ← attr (lcent s);
    rct ← attr (rcent s);
    '(l, r, e) ← pca_none lct rct;
    OK (set_extrapord (Some e) (set_rcen (Some r) (set_lcen (Some l) s))).

Definition _trim_slits (usefracpix : bool) (s : State) : res State :=
  lc ← attr (lcen s);
  rc ← operand (rcen s);
  '(l, r, msgs) ← trim_arrays lc rc (Np.shape1 (mstrace s))
                    (fracignore (settings s)) usefracpix;
  OK (add_step "_trim_slits"
        (set_log (log s ++ msgs) (set_rcen (Some r) (set_lcen (Some l) s)))).

(** [pixlocn[:, :, 0]] and [pixlocn[:, :, 1]] *)
Definition plxbin (s : State) : image := Np.map2d fst (pixlocn s).
Definition plybin (s : State) : image := Np.map2d snd (pixlocn s).

Definition make_binarr (s : State) : State :=
  add_step "make_binarr" (set_binarr (uniform_filter (mstrace s)) s).

(** [TraceSlits.__init__] *)
Definition init (mstrace : image) (pixlocn : Np.ndarray (Q * Q))
    (binbpx : option image) (settings : option Settings) (det : option Z)
    (ednum : Z) : State :=
  make_binarr
    (mk_State mstrace pixlocn det ednum
       (default (Np.map2d (λ _, 0%Q) mstrace) binbpx)
       (bool_decide (binbpx ≠ None))
       (default default_settings settings)
       None None None None None [] None None None None None None
       mstrace None None None None None None None
       None None None None None None None None
       None None None None None []).

Definition _edgearr_from_binarr (s : State) : res State :=
  '(sl, ea) ← edgearr_from_binarr (binarr s) (binbpx s) (medrep (settings s))
                (sobel_mode (settings s)) (sigdetect (settings s))
                (number (settings s));
  OK (add_step "_edgearr_from_binarr" (set_edgearr (Some ea) (set_siglev (Some sl) s))).

Definition _edgearr_single_slit (s : State) : res State :=
  d ← of_option TypeError (det s);
  let iledge := (d - 1) * 2 in
  let iredge := (d - 1) * 2 + 1 in
  ledge ← Np.py_index (single (settings s)) iledge;
  redge ← Np.py_index (single (settings s)) iredge;
  ea ← edgearr_from_user (Np.shape0 (mstrace s), Np.shape1 (mstrace s)) ledge redge d;
  OK (add_step "_edgearr_single_slit" (set_siglev None (set_edgearr (Some ea) s))).

Definition _add_left_right (s : State) : res State :=
  ea ← attr (edgearr s);
  lc ← attr (lcnt s);
  rc ← attr (rcnt s);
  '(ea', l, r) ← edgearr_add_left_right ea (binarr s) (binbpx s) lc rc (ednum s);
  OK (add_step "_add_left_right"
        (set_rcnt (Some r) (set_lcnt (Some l) (set_edgearr (Some ea') s)))).

Definition _set_lrminx (s : State) : res State :=
  ea ← operand (edgearr s);
  let neg := filter (λ v, v < 0) (concat (Np.rows ea)) in
  nmax ← Np.Zmax_all neg;
  nmin ← Np.Zmin_all neg;
  let pos := filter (λ v, 0 < v) (concat (Np.rows ea)) in
  pmin ← Np.Zmin_all pos;
  pmax ← Np.Zmax_all pos;
  OK (set_rmax (Some pmax) (set_rmin (Some pmin)
        (set_lmax (Some (- nmin)) (set_lmin (Some (- nmax)) s)))).

Definition _fit_edges (side : string) (s : State) : res State :=
  ea ← attr (edgearr s);
  (if decide (side = "left")
   then lo ← attr (lmin s);
        hi ← attr (lmax s);
        '(co, nm, df, wg) ← fit_edges ea lo hi (plxbin s) (plybin s) true
                              (polyorder (settings s)) (function (settings s));
        OK (set_lwghtarr (Some wg) (set_ldiffarr (Some df)
              (set_lnmbrarr (Some nm) (set_lcoeff (Some co) s))))
   else lo ← attr (rmin s);
        hi ← attr (rmax s);
        '(co, nm, df, wg) ← fit_edges ea lo hi (plxbin s) (plybin s) false
                              (polyorder (settings s)) (function (settings s));
        OK (set_rwghtarr (Some wg) (set_rdiffarr (Some df)
              (set_rnmbrarr (Some nm) (set_rcoeff (Some co) s)))))
  ≫= λ s', OK (add_step ("_fit_edges_" +:+ side) s').

Definition _synchronize (s : State) : res State :=
  ea ← attr (edgearr s);
  lo ← attr (lmin s);
  hi ← attr (lmax s);
  lco ← attr (lcoeff s);
  rlo ← attr (rmin s);
  rco ← attr (rcoeff s);
  ln ← attr (lnmbrarr s);
  ld ← attr (ldiffarr s);
  lw ← attr (lwghtarr s);
  rn ← attr (rnmbrarr s);
  rd ← attr (rdiffarr s);
  rw ← attr (rwghtarr s);
  let s0 := msgs_info "Synchronizing left and right slit traces" s in
  '(lct, rct, go, (lco', ld', ln', lw'), (rco', rd', rn', rw')) ←
    synchronize_edges (binarr s) ea (plxbin s) lo hi lco rlo rco
      (ln, ld, lw) (rn, rd, rw) (settings s);
  sm ← Np.broadcast2d 0%Q Qplus lct rct;
  let sc := Np.transpose 0%Q (Np.map2d (Qmult (1 # 2)) sm) in
  OK (add_step "_synchronize"
        (set_slitcen (Some sc)
        (set_rwghtarr (Some rw') (set_rnmbrarr (Some rn') (set_rdiffarr (Some rd')
        (set_rcoeff (Some rco')
        (set_lwghtarr (Some lw') (set_lnmbrarr (Some ln') (set_ldiffarr (Some ld')
        (set_lcoeff (Some lco')
        (set_gord (Some go) (set_rcent (Some rct) (set_lcent (Some lct) s0))))))))))))).

Definition reset_edgearr_ednum (s : State) : res State :=
  ea ← operand (edgearr s);
  mx ← Np.Zmax_all (concat (Np.rows ea));
  if decide (mx < ednum s)
  then OK (set_edgearr
             (Some (Np.map2d (λ v, if decide (v < 0) then v - (ednum s - 1)
                                   else if decide (0 < v) then v + (ednum s - 1)
                                   else v) ea)) s)
  else OK s.

Definition add_user_slits (user_slits : list (list Q)) (run_to_finish : bool)
    (s : State) : res State :=
  s1 ← reset_edgearr_ednum s;
  ea ← attr (edgearr s1);
  ea' ← add_user_edges ea (siglev s1) (tc_dict s1) user_slits;
  let s2 := set_edgearr (Some ea') s1 in
  s3 ← (if run_to_finish
        then s ← _set_lrminx s2;
             s ← _fit_edges "left" s;
             s ← _fit_edges "right" s;
             s ← _synchronize s;
             s ← _pca s;
             _trim_slits true s
        else OK s2);
  OK (add_step "add_user_slits" s3).

Definition _assign_edges (s : State) : res State :=
  let s := msgs_info "Assigning left slit edges" s in
  ea ← operand (edgearr s);
  ea1 ← (if decide (lcnt s = Some 1)
         then OK (Np.map2d (λ v, if decide (v ≤ -2 * ednum s) then - ednum s else v) ea)
         else assign_slits (binarr s) ea (-1) (settings s));
  let s := msgs_info "Assigning right slit edges" (set_edgearr (Some ea1) s) in
  ea2 ← (if decide (rcnt s = Some 1)
         then OK (Np.map2d (λ v, if decide (2 * ednum s ≤ v) then ednum s else v) ea1)
         else assign_slits (binarr s) ea1 1 (settings s));
  OK (add_step "_assign_edges" (set_edgearr (Some ea2) s)).

(** [lcen[:, 0] = values]: the values fill the column, a single value
    being broadcast. *)
Definition fill_column (nrow : nat) (v : list Q) : res image :=
  if decide (length v = nrow) then OK (Np.mk_ndarray nrow 1 (map (λ x, [x]) v))
  else match v with
       | [x] => OK (Np.mk_ndarray nrow 1 (replicate nrow [x]))
       | _ => Raise (ValueError "could not broadcast input array")
       end.

Definition _chk_for_longslit (s : State) : res (bool * State) :=
  hi ← operand (lmax s);
  lo ← operand (lmin s);
  if decide (hi + 1 - lo = 1)
  then rhi ← operand (rmax s);
       rlo ← operand (rmin s);
       if decide (rhi + 1 - rlo = 1)
       then r0 ← Np.py_index (Np.rows (plxbin s)) 0;
            minvf ← Np.py_index r0 0;
            rl ← Np.py_index (Np.rows (plxbin s)) (-1);
            maxvf ← Np.py_index rl 0;
            let s := msgs_info "Only one slit was identified. Should be a longslit." s in
            xint ← Np.col (plxbin s) 0;
            lco ← operand (lcoeff s);
            lc0 ← Np.col lco 0;
            lv ← func_val lc0 xint (function (settings s)) minvf maxvf;
            l ← fill_column (Np.shape0 (mstrace s)) lv;
            rco ← operand (rcoeff s);
            rc0 ← Np.col rco 0;
            rv ← func_val rc0 xint (function (settings s)) minvf maxvf;
            r ← fill_column (Np.shape0 (mstrace s)) rv;
            OK (true, set_rcen (Some r) (set_lcen (Some l) s))
       else OK (false, s)
  else OK (false, s).

Definition _final_left_right (s : State) : res State :=
  ea ← attr (edgearr s);
  '(ea', l, r) ← edgearr_final_left_right ea (ednum s) (siglev s);
  OK (add_step "_final_left_right"
        (set_rcnt (Some r) (set_lcnt (Some l) (set_edgearr (Some ea') s)))).

Definition _ignore_orders (s : State) : res State :=
  ea ← attr (edgearr s);
  '(ea', (l0, l1, r0, r1)) ← edgearr_ignore_orders ea (fracignore (settings s));
  OK (add_step "_ignore_orders"
        (set_rmax (Some r1) (set_rmin (Some r0) (set_lmax (Some l1)
           (set_lmin (Some l0) (set_edgearr (Some ea') s)))))).

(** [msgs.error]: reports the message and raises. *)
Definition msgs_error {A} (text : string) : res A := Raise (PypitError text).

Definition overflow_msg : string :=
  "Found more edges than allowed by ednum. Set ednum to a larger number.".

Definition _match_edges (s : State) : res State :=
  ea ← attr (edgearr s);
  '(ea', l, r) ← new_match_edges ea (ednum s);
  let s := set_rcnt (Some r) (set_lcnt (Some l) (set_edgearr (Some ea') s)) in
  (if decide (ednum s ≤ l ∨ ednum s ≤ r)
   then msgs_error overflow_msg
   else OK tt) ≫= λ _,
  OK (add_step "_match_edges" s).

Definition _maxgap_prep (s : State) : res State :=
  ea ← attr (edgearr s);
  mx ← Np.Zmax_all (concat (Np.rows ea));
  mn ← Np.Zmin_all (concat (Np.rows ea));
  OK (add_step "_maxgap_prep"
        (set_edgearr (Some (Np.map2d (λ v, if decide (v < 0) then v + (1 + mx - mn) else v) ea))
           (set_edgearrcp (Some ea) s))).

Definition _maxgap_close (s : State) : res State :=
  ea ← attr (edgearr s);
  cp ← attr (edgearrcp s);
  ea' ← edgearr_close_slits (binarr s) ea cp (ednum s) (settings s);
  OK (add_step "_maxgap_close" (set_edgearr (Some ea') s)).

Definition _mslit_sync (s : State) : res State :=
  ea ← attr (edgearr s);
  ea' ← edgearr_mslit_sync ea (tc_dict s) (ednum s);
  OK (add_step "_mslit_sync" (set_edgearr (Some ea') s)).

Definition _mslit_tcrude (s : State) : res State :=
  ea ← attr (edgearr s);
  '(ea', tc) ← edgearr_tcrude ea (siglev s) (ednum s);
  OK (add_step "_mslit_tcrude" (set_tc_dict (Some tc) (set_edgearr (Some ea') s))).

(** [if cond: method()] *)
Definition when (c : bool) (m : State → res State) (s : State) : res State :=
  if c then m s else OK s.

(** What [run] returns: the eight entries of [trace_slits_dict]. *)
Definition trace_slits_dict (s : State) :=
  (lcen s, rcen s, pixcen s, pixwid s, lordpix s, rordpix s, extrapord s, slitpix s).

(** [run]: the main driver. *)
Definition run (armlsd ignore_orders : bool) (add_user : option (list (list Q)))
    (s : State) : res State :=
  s ← (if decide (0 < length (single (settings s)))%nat
       then s ← _edgearr_single_slit s; OK (set_user_set (Some true) s)
       else s ← _edgearr_from_binarr s; OK (set_user_set (Some false) s));
  s ← _match_edges s;
  s ← _add_left_right s;
  s ← when (bool_decide (maxgap (settings s) ≠ None)) _maxgap_prep s;
  s ← _assign_edges s;
  s ← when (bool_decide (maxgap (settings s) ≠ None)) _maxgap_close s;
  s ← when (bool_decide (user_set s ≠ Some true)) _final_left_right s;
  s ← when armlsd _mslit_tcrude s;
  s ← when armlsd _mslit_sync s;
  s ← match add_user with
      | Some us => add_user_slits us false s
      | None => OK s
      end;
  s ← when ignore_orders _ignore_orders s;
  s ← _set_lrminx s;
  s ← _fit_edges "left" s;
  s ← _fit_edges "right" s;
  '(done_, s) ← _chk_for_longslit s;
  s ← (if (done_ : bool)
       then OK (set_extrapord (Some [false]) s)
       else s ← _synchronize s;
            s ← _pca s;
            _trim_slits armlsd s);
  let s := msgs_info "Converting physical trace locations to nearest pixel" s in
  lc ← operand (lcen s);
  rc ← operand (rcen s);
  mid ← Np.broadcast2d 0%Q Qplus lc rc;
  pc ← phys_to_pix (Np.map2d (Qmult (1 # 2)) mid) (pixlocn s) 1;
  wd ← Np.broadcast2d 0%Q Qminus rc lc;
  let s := set_pixwid (Some (map Np.int (Np.mean0 wd))) (set_pixcen (Some pc) s) in
  lp ← phys_to_pix lc (pixlocn s) 1;
  rp ← phys_to_pix rc (pixlocn s) 1;
  let s := set_rordpix (Some rp) (set_lordpix (Some lp) s) in
  let s := msgs_info "Identifying the pixels belonging to each slit" s in
  sp ← core_slit_pixels lc rc (Np.shape0 (mstrace s), Np.shape1 (mstrace s))
          (pad (settings s));
  OK (set_slitpix (Some sp) s).

End Methods.

(** *** Persisted state: [write] and [from_files]

    The two files written for a root name are an HDU list (FITS) and a
    dictionary (JSON).  [astropy.io.fits] and [linetools] are taken to
    store and return the data unchanged. *)

Inductive hdu_data : Type :=
  | HImage (a : image)
  | HEdge (a : EdgeArr)
  | HLocn (a : Np.ndarray (Q * Q))
  | HNone.

Inductive json_entry : Type :=
  | JSettings (st : Settings)
  | JTcDict (tc : json)
  | JSteps (l : list string).

Inductive file : Type :=
  | Fits (hdul : list (string * hdu_data))
  | Json (d : gmap string json_entry).

(** [names.index(name)] then [hdul[...].data]: the first HDU of that name. *)
Fixpoint hdu_lookup (name : string) (hdul : list (string * hdu_data))
  : res hdu_data :=
  match hdul with
  | [] => Raise (ValueError (name +:+ " is not in list"))
  | (n, d) :: hdul' => if decide (n = name) then OK d else hdu_lookup name hdul'
  end.

(** [name in names] *)
Definition hdu_mem (name : string) (hdul : list (string * hdu_data)) : bool :=
  bool_decide (name ∈ hdul.*1).

Definition as_image (d : hdu_data) : res image :=
  match d with HImage a => OK a | _ => Raise TypeError end.
Definition as_edge (d : hdu_data) : res EdgeArr :=
  match d with HEdge a => OK a | _ => Raise TypeError end.
Definition as_locn (d : hdu_data) : res (Np.ndarray (Q * Q)) :=
  match d with HLocn a => OK a | _ => Raise TypeError end.
(** The data of an HDU written from [None] is [None]. *)
Definition as_image_or_none (d : hdu_data) : res (option image) :=
  match d with HImage a => OK (Some a) | HNone => OK None | _ => Raise TypeError end.

(** [ts_dict[key]] *)
Definition json_get (d : gmap string json_entry) (key : string) : res json_entry :=
  of_option (KeyError key) (d !! key).

Definition option_list {A} (o : option A) : list A :=
  match o with Some a => [a] | None => [] end.

Section Persist.
Context `{ext : Collaborators}.

(** [write]: the HDU list, in the order in which the source appends. *)
Definition write_hdul (s : State) : list (string * hdu_data) :=
  [("MSTRACE", HImage (mstrace s))]
  ++ option_list ((λ a, ("EDGEARR", HEdge a)) <$> edgearr s)
  ++ option_list ((λ a, ("SIGLEV", HImage a)) <$> siglev s)
  ++ [("PIXLOCN", HLocn (pixlocn s))]
  ++ (if input_binbpx s then [("BINBPX", HImage (binbpx s))] else [])
  ++ match lcen s with
     | Some l => [("LCEN", HImage l);
                  ("RCEN", match rcen s with Some r => HImage r | None => HNone end)]
     | None => []
     end.

Definition write_dict (s : State) : gmap string json_entry :=
  let d := <["settings" := JSettings (settings s)]> (∅ : gmap string json_entry) in
  let d := match tc_dict s with
           | Some tc => <["tc_dict" := JTcDict tc]> d
           | None => d
           end in
  <["steps" := JSteps (steps s)]> d.

(** [write(root)]: the two files on the disk [fs], and what is reported. *)
Definition write (root : string) (s : State) (fs : gmap string file)
  : gmap string file * State :=
  let fits_name := root +:+ ".fits" in
  let json_name := root +:+ ".json" in
  let fs := <[fits_name := Fits (write_hdul s)]> fs in
  let s := msgs_info ("Writing TraceSlit arrays to " +:+ fits_name) s in
  let fs := <[json_name := Json (write_dict s)]> fs in
  (fs, msgs_info ("Writing TraceSlit dict to " +:+ json_name) s).

(** [from_files(root)] *)
Definition from_files (root : string) (fs : gmap string file) : res State :=
  let fits_file := root +:+ ".fits" in
  hdul ← match fs !! fits_file with
         | Some (Fits h) => OK h
         | _ => Raise (IOError fits_file)
         end;
  mst ← hdu_lookup "MSTRACE" hdul ≫= as_image;
  loc ← hdu_lookup "PIXLOCN" hdul ≫= as_locn;
  '(bpx, msgs) ← (if hdu_mem "BINBPX" hdul
                  then b ← hdu_lookup "BINBPX" hdul ≫= as_image;
                       OK (Some b, ["Loading BPM from " +:+ fits_file])
                  else OK (None, []));
  let json_file := root +:+ ".json" in
  ts_dict ← match fs !! json_file with
            | Some (Json d) => OK d
            | _ => Raise (IOError json_file)
            end;
  st ← json_get ts_dict "settings" ≫=
         (λ e, match e with JSettings st => OK st | _ => Raise TypeError end);
  let slf := set_log msgs (init mst loc bpx (Some st) None 100000) in
  stp ← json_get ts_dict "steps" ≫=
          (λ e, match e with JSteps l => OK l | _ => Raise TypeError end);
  let slf := set_steps stp slf in
  slf ← (if hdu_mem "LCEN" hdul
         then l ← hdu_lookup "LCEN" hdul ≫= as_image_or_none;
              r ← hdu_lookup "RCEN" hdul ≫= as_image_or_none;
              OK (msgs_info ("Loading LCEN, RCEN from " +:+ fits_file)
                    (set_rcen r (set_lcen l slf)))
         else OK slf);
  slf ← (if hdu_mem "EDGEARR" hdul
         then e ← hdu_lookup "EDGEARR" hdul ≫= as_edge;
              OK (msgs_info ("Loading EDGEARR from " +:+ fits_file)
                    (set_edgearr (Some e) slf))
         else OK slf);
  slf ← (if hdu_mem "SIGLEV" hdul
         then g ← hdu_lookup "SIGLEV" hdul ≫= as_image;
              OK (msgs_info ("Loading SIGLEV from " +:+ fits_file)
                    (set_siglev (Some g) slf))
         else OK slf);
  tc ← json_get ts_dict "tc_dict" ≫=
         (λ e, match e with JTcDict tc => OK tc | _ => Raise TypeError end);
  OK (set_tc_dict (Some tc) slf).

(** Resuming at the fitting phase: what [run] does from "Fit edges" to
    trimming. *)
Definition fit_phase (armlsd : bool) (s : State) : res State :=
  s ← _set_lrminx s;
  s ← _fit_edges "left" s;
  s ← _fit_edges "right" s;
  '(done_, s) ← _chk_for_longslit s;
  if (done_ : bool)
  then OK (set_extrapord (Some [false]) s)
  else s ← _synchronize s;
       s ← _pca s;
       _trim_slits armlsd s.

End Persist.

End TraceSlits.

(** ** [pypeit/spectrographs/keck_deimos.py] *)

Module KeckDEIMOS.

(** *** Camera distortion *)

(** [scipy.interpolate.interp1d(x, y)], linear: the knots sorted by [x]. *)
Record interp1d : Type := mk_interp1d {
  ix : list Q;
  iy : list Q
}.

Fixpoint insert_knot (k : Q * Q) (l : list (Q * Q)) : list (Q * Q) :=
  match l with
  | [] => [k]
  | k' :: l' => if Qle_bool (fst k) (fst k') then k :: l else k' :: insert_knot k l'
  end.

Definition new_interp1d (x y : list Q) : res interp1d :=
  if decide (length x = length y)
  then let knots := foldr insert_knot [] (zip x y) in
       OK (mk_interp1d (knots.*1) (knots.*2))
  else Raise (ValueError "x and y arrays must be equal in length along interpolation axis.").

(** [np.searchsorted(x, v)]: the number of knots below [v]. *)
Fixpoint searchsorted (x : list Q) (v : Q) : nat :=
  match x with
  | [] => 0
  | k :: x' => if Np.Qltb k v then S (searchsorted x' v) else 0
  end.

(** The interpolant at one point inside the bounds. *)
Definition interp_at (it : interp1d) (v : Q) : res Q :=
  let n := length (ix it) in
  let idx := Nat.min (Nat.max (searchsorted (ix it) v) 1) (n - 1) in
  let lo := (idx - 1)%nat in
  let hi := idx in
  x_lo ← of_option IndexError (ix it !! lo);
  x_hi ← of_option IndexError (ix it !! hi);
  y_lo ← of_option IndexError (iy it !! lo);
  y_hi ← of_option IndexError (iy it !! hi);
  let slope := ((y_hi - y_lo) / (x_hi - x_lo))%Q in
  OK (slope * (v - x_lo) + y_lo)%Q.

(** Calling the interpolant on an array: a value outside the knots is an
    error ([bounds_error] is set by default). *)
Definition interp_call (it : interp1d) (vs : list Q) : res (list Q) :=
  match vs with
  | [] => OK []
  | _ =>
    x0 ← of_option IndexError (head (ix it));
    xn ← of_option IndexError (last (ix it));
    if existsb (λ v, Np.Qltb v x0) vs
    then Raise (ValueError "A value in x_new is below the interpolation range.")
    else if existsb (λ v, Np.Qltb xn v) vs
    then Raise (ValueError "A value in x_new is above the interpolation range.")
    else mapR (interp_at it) vs
  end.

(** [np.linspace(start, stop, num)] *)
Definition linspace (start stop : Q) (num : nat) : list Q :=
  match num with
  | O => []
  | S div =>
      let step := ((stop - start) / inject_Z (Z.of_nat div))%Q in
      map (λ i, if decide (i = div) then (if decide (0 < div)%nat then stop else start)
                else (inject_Z (Z.of_nat i) * step + start)%Q)
          (seq 0 num)
  end.

Record DEIMOSCameraDistortion : Type := mk_distortion {
  c0 : Q;
  c2 : Q;
  c4 : Q;
  c6 : Q;
  interpolator : interp1d
}.

Definition remove_distortion_with (c0 c2 c4 c6 x : Q) : Q :=
  let x2 := (x * x)%Q in
  (x / (c0 + x2 * (c2 + x2 * (c4 + x2 * c6))))%Q.

(** [DEIMOSCameraDistortion.__init__] *)
Definition new_distortion : res DEIMOSCameraDistortion :=
  let c0 := 1%Q in
  let c2 := (457563 # 10000000)%Q in
  let c4 := (- (3088123 # 10000000))%Q in
  let c6 := (- (14917 # 1000))%Q in
  let x := linspace (- (6 # 10)) (6 # 10) 1000 in
  let y := map (remove_distortion_with c0 c2 c4 c6) x in
  it ← new_interp1d y x;
  OK (mk_distortion c0 c2 c4 c6 it).

Definition remove_distortion (c : DEIMOSCameraDistortion) (x : Q) : Q :=
  remove_distortion_with (c0 c) (c2 c) (c4 c) (c6 c) x.

(** [x[indx] = values]: the values go, in order, to the positions where
    [indx] holds. *)
Fixpoint scatter (indx : list bool) (zeros values : list Q) : list Q :=
  match indx, zeros with
  | b :: indx', z :: zeros' =>
      if b then match values with
                | v :: values' => v :: scatter indx' zeros' values'
                | [] => z :: scatter indx' zeros' []
                end
      else z :: scatter indx' zeros' values
  | _, _ => zeros
  end.

Definition warning_text : string :=
  "Some input angles outside of valid distortion interval!".

(** [apply_distortion]: the result and the warnings issued. *)
Definition apply_distortion (c : DEIMOSCameraDistortion) (y : list Q)
  : res (list Q * list string) :=
  x0 ← Np.py_index (ix (interpolator c)) 0;
  xn ← Np.py_index (ix (interpolator c)) (-1);
  let indx := map (λ v, Np.Qltb x0 v && Np.Qltb v xn) y in
  let warnings := if forallb id indx then []
                  else [warning_text] in
  let x := map (λ _, 0%Q) y in
  vals ← interp_call (interpolator c) (filter (λ v, Np.Qltb x0 v && Np.Qltb v xn) y);
  OK (scatter indx x vals, warnings).

(** *** Grating and slit mask from a calibration file *)

(** The header cards and the slit table that the class reads. *)
Record Header : Type := mk_Header {
  GRATEPOS : Z;
  G3TLTWAV : Q;
  G3TLTVAL : Q;
  G4TLTWAV : Q;
  G4TLTVAL : Q;
  GRATENAM : string
}.

Record BluSlits : Type := mk_BluSlits {
  corners : list (list (Q * Q));
  dSlitId : list Z
}.

Record File : Type := mk_File {
  header : Header;
  bluslits : option BluSlits
}.

Record SlitMask : Type := mk_SlitMask {
  sm_corners : list (list (Q * Q));
  slitid : list Z;
  center : list (Q * Q)
}.

Record ReflectionGrating : Type := mk_ReflectionGrating {
  ruling : Q;
  tilt : Q;
  roll : Q;
  yaw : Q;
  central_wave : Q
}.

Record DEIMOSOpticalModel : Type := mk_DEIMOSOpticalModel {
  om_grating : ReflectionGrating
}.

(** The rational part of the detector geometry (the chip rotations, in
    degrees, are kept as given). *)
Record DEIMOSDetectorMap : Type := mk_DEIMOSDetectorMap {
  nccd : nat;
  npix : Q * Q;
  pixel_size : Q;
  ccd_gap : Q * Q;
  ccd_edge : Q * Q;
  ccd_size : Q * Q;
  ccd_center : list (Q * Q);
  rotation_deg : list Q
}.

Definition new_detector_map : DEIMOSDetectorMap :=
  let npix := (2048, 4096)%Q in
  let pixel_size := (15 # 1000)%Q in
  let ccd_gap := (1, 1 # 10)%Q in
  let ccd_edge := (154 # 1000, 70 # 1000)%Q in
  let ccd_size := (fst npix + (2 * fst ccd_edge + fst ccd_gap) / pixel_size,
                   snd npix + (2 * snd ccd_edge + snd ccd_gap) / pixel_size)%Q in
  let origin := [(- (3 # 2), - (1 # 2)); (- (1 # 2), - (1 # 2)); (1 # 2, - (1 # 2));
                 (3 # 2, - (1 # 2)); (- (3 # 2), 1 # 2); (- (1 # 2), 1 # 2);
                 (1 # 2, 1 # 2); (3 # 2, 1 # 2)]%Q in
  let offset := [(- (2005 # 100), 1412 # 100); (- (1264 # 100), 725 # 100); (0, 0);
                 (- (134 # 100), - (1992 # 100)); (- (1902 # 100), 1646 # 100);
                 (- (965 # 100), 895 # 100); (188 # 100, 102 # 100);
                 (481 # 100, - (2401 # 100))]%Q in
  mk_DEIMOSDetectorMap 8 npix pixel_size ccd_gap ccd_edge ccd_size
    (zip_with (λ o f, (fst o * fst ccd_size + fst f, snd o * snd ccd_size + snd f)%Q)
              origin offset)
    [- (82 # 1000); 30 # 1000; 0; - (1206 # 10000); 136 # 1000; - (60 # 1000);
     - (19 # 1000); - (82 # 1000)]%Q.

(** The attributes of [KeckDEIMOSSpectrograph] used by the optical model. *)
Record Spectrograph : Type := mk_Spectrograph {
  slitmask : option SlitMask;
  grating : option ReflectionGrating;
  optical_model : option DEIMOSOpticalModel;
  detector_map : option DEIMOSDetectorMap
}.

(** [KeckDEIMOSSpectrograph.__init__] *)
Definition new_spectrograph : Spectrograph := mk_Spectrograph None None None None.

(** ['Mirror' in name] *)
Fixpoint contains (needle s : string) : bool :=
  String.prefix needle s
  || match s with
     | EmptyString => false
     | String _ s' => contains needle s'
     end.

(** [re.sub('[^0-9]', '', name)] *)
Definition is_digit (a : ascii) : bool :=
  (48 <=? Ascii.nat_of_ascii a)%nat && (Ascii.nat_of_ascii a <=? 57)%nat.
Fixpoint digits_of (s : string) : list nat :=
  match s with
  | EmptyString => []
  | String a s' =>
      if is_digit a then (Ascii.nat_of_ascii a - 48)%nat :: digits_of s' else digits_of s'
  end.

(** [float(digits)]; the empty string is not a number. *)
Definition float_of_digits (ds : list nat) : res Q :=
  match ds with
  | [] => Raise (ValueError "could not convert string to float: ''")
  | _ => OK (inject_Z (fold_left (λ acc d, acc * 10 + Z.of_nat d) ds 0))
  end.

(** The ruling read from the grating name. *)
Definition ruling_of_name (name : string) : res Q :=
  if contains "Mirror" name then OK 0%Q
  else r ← float_of_digits (digits_of name);
       if Np.Qltb (Qabs (r - 1200)) (1 # 2) then OK (120006 # 100)%Q
       else if Np.Qltb (Qabs (r - 831)) 2 then OK (83190 # 100)%Q
       else OK r.

Definition orientation_coeffs (slider : Z) (rul : option Z) : res (Q * Q * Q * Q) :=
  if decide (slider = 3)
  then OK match rul with
          | Some 600%Z => (145 # 1000, - (8 # 1000), 56 # 100000, - (182 # 1000))
          | Some 831%Z => (143 # 1000, 0, 56 # 100000, - (182 # 1000))
          | Some 900%Z => (141 # 1000, 0, 56 # 100000, - (134 # 1000))
          | Some 1200%Z => (145 # 1000, 55 # 1000, 56 # 100000, - (181 # 1000))
          | _ => (145 # 1000, 0, 56 # 100000, - (182 # 1000))
          end%Q
  else if decide (slider = 4)
  then OK match rul with
          | Some 600%Z => (- (65 # 1000), 63 # 1000, 69 # 100000, - (298 # 1000))
          | Some 831%Z => (- (34 # 1000), 60 # 1000, 69 # 100000, - (196 # 1000))
          | Some 900%Z => (- (64 # 1000), 83 # 1000, 69 # 100000, - (277 # 1000))
          | Some 1200%Z => (- (52 # 1000), 122 # 1000, 69 # 100000, - (294 # 1000))
          | _ => (- (50 # 1000), 80 # 1000, 69 # 100000, - (250 # 1000))
          end%Q
  else Raise (KeyError (pretty slider)).

(** [_grating_orientation]: roll, yaw and tilt. *)
Definition _grating_orientation (slider : Z) (ruling tilt : Q) : res (Q * Q * Q) :=
  if decide (slider = 2 ∧ Np.int ruling = 0)
  then OK (0, 0, - (19423 # 1000))%Q
  else if decide (slider = 2)
  then Raise (ValueError "Ruling should be 0 if slider in position 2.")
  else
    let _ruling := if decide (Np.int ruling ∈ [600; 831; 900; 1200])
                   then Some (Np.int ruling) else None in
    '(k0, k1, k2, k3) ← orientation_coeffs slider _ruling;
    OK (k0, k1, tilt * (1 - k2) + k3)%Q.

Section OpticalModel.
(** [SlitMask] computes the slit centres from the corners, and
    [OpticalModel] and [DetectorMap] trace the rays; these classes live
    in other modules. *)
Variable slit_centers : list (list (Q * Q)) → list (Q * Q).
Variable mask_to_imaging_coordinates :
  DEIMOSOpticalModel → list Q → list Q → option Q → Z → res (list Q * list Q).
Variable ccd_coordinates :
  DEIMOSDetectorMap → list Q → list Q → res (list Z * list Q * list Q).

Definition get_slitmask (filename : File) (self : Spectrograph)
  : res (SlitMask * Spectrograph) :=
  t ← of_option (KeyError "BluSlits") (bluslits filename);
  let m := mk_SlitMask (corners t) (dSlitId t) (slit_centers (corners t)) in
  OK (m, mk_Spectrograph (Some m) (grating self) (optical_model self)
            (detector_map self)).

Definition get_grating (filename : File) (self : Spectrograph)
  : res (option ReflectionGrating * Spectrograph) :=
  let hdr := header filename in
  let slider := GRATEPOS hdr in
  let '(central_wave, tilt) :=
    if decide (slider = 3) then (G3TLTWAV hdr, G3TLTVAL hdr)
    else (G4TLTWAV hdr, G4TLTVAL hdr) in
  let name := GRATENAM hdr in
  ruling ← ruling_of_name name;
  '(roll, yaw, tilt) ← _grating_orientation slider ruling tilt;
  let g := if Qeq_bool ruling 0 then None
           else Some (mk_ReflectionGrating ruling tilt roll yaw central_wave) in
  OK (g, mk_Spectrograph (slitmask self) g (optical_model self) (detector_map self)).

Definition no_coordinates_msg : string :=
  "No coordinates; Provide them directly or instantiate slit mask.".
Definition no_grating_msg : string :=
  "Must define a grating first; provide a file or use get_grating()".

Definition mask_to_pixel_coordinates (x y : option (list Q)) (wave : option Q)
    (order : Z) (filename : option File) (self : Spectrograph)
  : res (list Z * list Q * list Q * Spectrograph) :=
  (if bool_decide (x = None ∧ y ≠ None ∨ x ≠ None ∧ y = None)
   then Raise (ValueError "Must provide both x and y or neither to use slit mask.")
   else OK tt) ≫= λ _,
  self ← match filename with
         | Some f =>
             self ← (if bool_decide (x = None ∧ y = None)
                     then snd <$> get_slitmask f self
                     else OK self);
             snd <$> get_grating f self
         | None => OK self
         end;
  (if bool_decide (x = None ∧ y = None ∧ slitmask self = None)
   then Raise (ValueError no_coordinates_msg)
   else OK tt) ≫= λ _,
  _x ← match x with
       | None => m ← of_option AttributeError (slitmask self); OK (center m).*1
       | Some x => OK x
       end;
  _y ← match y with
       | None => m ← of_option AttributeError (slitmask self); OK (center m).*2
       | Some y => OK y
       end;
  g ← of_option (ValueError no_grating_msg) (grating self);
  (* a new optical model, or the old one with its grating reset *)
  let om := mk_DEIMOSOpticalModel g in
  let dm := match detector_map self with
            | None => new_detector_map
            | Some d => d
            end in
  let self := mk_Spectrograph (slitmask self) (grating self) (Some om) (Some dm) in
  '(x_img, y_img) ← mask_to_imaging_coordinates om _x _y wave order;
  '(chip, xpix, ypix) ← ccd_coordinates dm x_img y_img;
  OK (chip, xpix, ypix, self).

End OpticalModel.

End KeckDEIMOS.

(** ** Specification-side definitions *)

Module TrimSpec.
Import TraceSlits.

(** [a[:, o]] as a total function (zero where a row is too short). *)
Definition colv (a : image) (o : nat) : list Q := map (λ r, nth o r 0%Q) (Np.rows a).

(** "Its left edge lies entirely beyond the right boundary of the
    detector, or its right edge lies entirely left of pixel 0." *)
Definition off_detector (lcen rcen : image) (ncols : nat) (o : nat) : Prop :=
  Forall (λ v, (inject_Z (Z.of_nat ncols) < v)%Q) (colv lcen o)
  ∨ Forall (λ v, (v < 0)%Q) (colv rcen o).

(** "Its median width is below the threshold." *)
Definition too_narrow (lcen rcen : image) (threshold : Q) (o : nat) : Prop :=
  ∃ md, Np.median (zip_with Qminus (colv rcen o) (colv lcen o)) = Some md
        ∧ (md < threshold)%Q.

Definition drop_rule (lcen rcen : image) (ncols : nat) (threshold : Q)
    (usefracpix : bool) (o : nat) : Prop :=
  off_detector lcen rcen ncols o
  ∨ (usefracpix = true ∧ too_narrow lcen rcen threshold o).

(** The same tests as booleans. *)
Definition off_b (lcen rcen : image) (ncols : nat) (o : nat) : bool :=
  match Np.min (colv lcen o), Np.max (colv rcen o) with
  | OK mn, OK mx => Np.Qltb (inject_Z (Z.of_nat ncols)) mn || Np.Qltb mx 0
  | _, _ => false
  end.
Definition narrow_b (lcen rcen : image) (fracpix : Z) (o : nat) : bool :=
  median_below (zip_with Qminus (colv rcen o) (colv lcen o)) fracpix.
Definition dropped_b (lcen rcen : image) (ncols : nat) (fracpix : Z)
    (usefracpix : bool) (o : nat) : bool :=
  off_b lcen rcen ncols o || (usefracpix && narrow_b lcen rcen fracpix o).
Definition messages_of (lcen rcen : image) (ncols : nat) (fracpix : Z)
    (usefracpix : bool) (o : nat) : list string :=
  (if off_b lcen rcen ncols o then [msg_off o] else [])
  ++ (if usefracpix && narrow_b lcen rcen fracpix o then [msg_frac o] else []).

(** Arrays of one shape with at least one row. *)
Definition same_shape (lcen rcen : image) : Prop :=
  Np.wf lcen ∧ Np.wf rcen ∧ Np.shape0 lcen = Np.shape0 rcen
  ∧ Np.shape1 lcen = Np.shape1 rcen.
End TrimSpec.

(** ** A small concrete setting

    Collaborators simple enough to run by hand, used for the concrete runs
    below: one left and one right edge, at the first and last column of a
    small image, and constant edge fits. *)

Module Toy.
Import TraceSlits.

(** An edge map marking the first column as a raw left edge and the last
    column as a raw right edge. *)
Definition bracket_row (m : nat) : list Z :=
  match m with
  | O => []
  | 1%nat => [-200000]
  | S (S k) => -200000 :: replicate k 0 ++ [200000]
  end.
Definition bracket_edges (n m : nat) : EdgeArr :=
  Np.mk_ndarray n m (replicate n (bracket_row m)).

(** The number of distinct non-zero labels below and above zero in the
    first row. *)
Definition count_edges (ea : EdgeArr) : Z * Z :=
  let r := list_to_set (C := gset Z) (default [] (head (Np.rows ea))) in
  (Z.of_nat (size (filter (λ v, v < 0) r)), Z.of_nat (size (filter (λ v, 0 < v) r))).

Definition const_fit (left : bool) (w : nat) : image * list Q * list Q * list Q :=
  (Np.mk_ndarray 1 1 [[if left then 0%Q else inject_Z (Z.of_nat w - 1)]], [], [], []).

#[local] Instance collaborators : Collaborators := {|
  uniform_filter := λ a, a;
  edgearr_from_binarr := λ b _ _ _ _ _,
    OK (b, bracket_edges (Np.shape0 b) (Np.shape1 b));
  edgearr_from_user := λ sh _ _ _, OK (bracket_edges (fst sh) (snd sh));
  new_match_edges := λ ea _, OK (ea, fst (count_edges ea), snd (count_edges ea));
  edgearr_add_left_right := λ ea _ _ l r _, OK (ea, l, r);
  assign_slits := λ _ ea _ _, OK ea;
  edgearr_close_slits := λ _ ea _ _ _, OK ea;
  edgearr_final_left_right := λ ea _ _,
    OK (ea, fst (count_edges ea), snd (count_edges ea));
  edgearr_tcrude := λ ea _ _, OK (ea, JDict []);
  edgearr_mslit_sync := λ ea _ _, OK ea;
  add_user_edges := λ ea _ _ _, OK ea;
  edgearr_ignore_orders := λ ea _, OK (ea, (1, 1, 1, 1));
  fit_edges := λ ea _ _ _ _ left _ _, OK (const_fit left (Np.shape1 ea));
  func_val := λ coeff xint _ _ _, OK (map (λ _, default 0%Q (head coeff)) xint);
  synchronize_edges := λ _ _ px _ _ lco _ rco lf rf _,
    OK (Np.mk_ndarray 1 (Np.shape0 px)
          [replicate (Np.shape0 px) (Np.at_ 0%Q lco 0 0)],
        Np.mk_ndarray 1 (Np.shape0 px)
          [replicate (Np.shape0 px) (Np.at_ 0%Q rco 0 0)],
        [0], (lco, lf.1.2, lf.1.1, lf.2), (rco, rf.1.2, rf.1.1, rf.2));
  pca_order_slit_edges := λ _ _ lct rct _ _ _ _ _ _ _,
    OK (Np.transpose 0%Q lct, Np.transpose 0%Q rct, replicate (Np.shape0 lct) false);
  pca_pixel_slit_edges := λ _ _ _ _ _ _ lct rct _ _,
    OK (Np.transpose 0%Q lct, Np.transpose 0%Q rct, replicate (Np.shape0 lct) false);
  phys_to_pix := λ a _ _, OK (Np.map2d Np.int a);
  core_slit_pixels := λ _ _ sh _, OK (Np.zeros 0 (fst sh) (snd sh))
|}.

(** A 2 x 4 trace image with unit pixels. *)
Definition mstrace0 : image := Np.mk_ndarray 2 4 [[1; 9; 9; 1]; [1; 9; 9; 1]]%Q.
Definition pixlocn0 : Np.ndarray (Q * Q) :=
  Np.mk_ndarray 2 4 [[(0, 0); (0, 1); (0, 2); (0, 3)];
                     [(1, 0); (1, 1); (1, 2); (1, 3)]]%Q.

Definition user_settings : Settings :=
  mk_Settings [0; 3]%Q "legendre" 3 2 (1 # 100) 0 (-1) None 20 0
              [3; 2; 1; 0; 0; 0] "pixel" 0 0 "nearest".

(** A tracer whose user supplied the single slit [0, 3] for detector 1. *)
Definition user_tracer : State :=
  init mstrace0 pixlocn0 None (Some user_settings) (Some 1) 100000.

(** A tracer with the default settings. *)
Definition auto_tracer : State :=
  init mstrace0 pixlocn0 None None (Some 1) 100000.

(** A tracer holding a freshly detected edge map. *)
Definition labelled_tracer : State :=
  set_edgearr (Some (bracket_edges 2 4)) auto_tracer.

(** The same with [ednum = 1]: a single fragment reaches the bound. *)
Definition crowded_tracer : State :=
  set_edgearr (Some (bracket_edges 2 4))
    (init mstrace0 pixlocn0 None None (Some 1) 1).

End Toy.

(** Concrete arrays for the trimming examples. *)
Module TrimExamples.
Import TraceSlits.

(** A detector of 2048 columns and one slit from 100 to 120.25: wider
    than [int(0.01 * 2048) = 20] pixels, narrower than [0.01 * 2048]. *)
Definition lcen1 : image := Np.mk_ndarray 2 1 [[100]; [100]]%Q.
Definition rcen1 : image := Np.mk_ndarray 2 1 [[481 # 4]; [481 # 4]]%Q.

(** Three slits on a detector of 100 columns: the first off the detector,
    the second two pixels wide, the third kept. *)
Definition lcen3 : image := Np.mk_ndarray 2 3 [[150; 10; 40]; [160; 10; 40]]%Q.
Definition rcen3 : image := Np.mk_ndarray 2 3 [[170; 12; 60]; [180; 12; 60]]%Q.

(** Centroid traces of one slit whose edges cross in the second row. *)
Definition lcent_cross : image := Np.mk_ndarray 1 2 [[1; 2]]%Q.
Definition rcent_cross : image := Np.mk_ndarray 1 2 [[3; 1]]%Q.

Definition no_pca_settings : Settings :=
  mk_Settings [] "legendre" 3 2 (1 # 100) 0 (-1) None 20 0
              [3; 2; 1; 0; 0; 0] "none" 0 0 "nearest".

(** A tracer after synchronisation, without PCA. *)
Definition crossing_tracer : State :=
  set_rcent (Some rcent_cross)
    (set_lcent (Some lcent_cross)
       (init (ext := Toy.collaborators) Toy.mstrace0 Toy.pixlocn0 None
          (Some no_pca_settings) (Some 1) 100000)).

(** A tracer about to be trimmed. *)
Definition untrimmed_tracer : State :=
  set_rcen (Some rcen3)
    (set_lcen (Some lcen3)
       (init (ext := Toy.collaborators)
          (Np.zeros 0%Q 2 100) (Np.zeros (0%Q, 0%Q) 2 100) None None (Some 1) 100000)).
End TrimExamples.

(** Steps of a run. *)
Module RunSpec.
Import TraceSlits.

(** The steps recorded by [run] up to and including the two edge fits,
    when the user supplied the single slit. *)
Definition user_run_steps (maxgap_set armlsd add_user ignore_orders : bool)
  : list string :=
  ["_edgearr_single_slit"; "_match_edges"; "_add_left_right"]
  ++ (if maxgap_set then ["_maxgap_prep"] else [])
  ++ ["_assign_edges"]
  ++ (if maxgap_set then ["_maxgap_close"] else [])
  ++ (if armlsd then ["_mslit_tcrude"; "_mslit_sync"] else [])
  ++ (if add_user then ["add_user_slits"] else [])
  ++ (if ignore_orders then ["_ignore_orders"] else [])
  ++ ["_fit_edges_left"; "_fit_edges_right"].

(** The step recorded by [_pca]. *)
Definition pca_steps (pca_type : string) : list string :=
  if decide (pca_type = "order") then ["_pca_order_slit_edges"]
  else if decide (pca_type = "pixel") then ["_pca_pixel_slit_edges"]
  else [].

(** The steps recorded after the fits: none for a long slit. *)
Definition after_fit_steps (pca_type : string) (longslit : bool) : list string :=
  if longslit then []
  else ["_synchronize"] ++ pca_steps pca_type ++ ["_trim_slits"].

(** The steps of the adaptive algorithms that follow detection. *)
Definition adaptive_steps : list string :=
  ["_final_left_right"; "_mslit_tcrude"; "_mslit_sync";
   "_pca_order_slit_edges"; "_pca_pixel_slit_edges"].

(** "All downstream adaptive algorithms are skipped": the run added none
    of their steps to the [before] already recorded. *)
Definition skips_adaptive (before : list string) (s' : State) : Prop :=
  ∃ added, steps s' = before ++ added ∧ ∀ name, name ∈ adaptive_steps → name ∉ added.

(** What a method leaves alone, and the steps it records. *)
Definition frame (added : list string) (s s' : State) : Prop :=
  steps s' = steps s ++ added
  ∧ settings s' = settings s
  ∧ user_set s' = user_set s.
End RunSpec.

(** What the fitting phase reads of a tracer, step after step, and what it
    is asked for. *)
Module ResumeSpec.
Import TraceSlits.

Definition fit_inputs (s : State) :=
(mstrace s, pixlocn s, settings s, edgearr s, binarr s).

Definition with_ranges (s : State) :=
(fit_inputs s, (lmin s, lmax s, rmin s, rmax s)).

Definition with_left_fit (s : State) :=
(with_ranges s, (lcoeff s, lnmbrarr s, ldiffarr s, lwghtarr s)).

Definition with_fits (s : State) :=
(with_left_fit s, (rcoeff s, rnmbrarr s, rdiffarr s, rwghtarr s)).

Definition with_sync (s : State) :=
(with_fits s, (lcent s, rcent s, gord s, slitcen s)).

Definition edge_curves (s : State) : option image * option image := (lcen s, rcen s).

Definition before_trim (s : State) :=
(mstrace s, settings s, edge_curves s).

Definition after_check (r : bool * State) :=
(r.1, with_fits r.2, if r.1 then Some (edge_curves r.2) else None).
End ResumeSpec.

(** Concrete calibration files and a simple optical model. *)
Module DeimosExamples.
Import KeckDEIMOS.

(** The centre of a slit: the mean of its corners. *)
Definition mean_corner (c : list (Q * Q)) : Q * Q :=
  let n := inject_Z (Z.of_nat (length c)) in
  (fold_right Qplus 0 (c.*1) / n, fold_right Qplus 0 (c.*2) / n)%Q.
Definition slit_centers (cs : list (list (Q * Q))) : list (Q * Q) :=
  map mean_corner cs.

(** An optical model that maps mask coordinates to themselves, on chip 1. *)
Definition mask_to_imaging_coordinates (om : DEIMOSOpticalModel) (x y : list Q)
    (wave : option Q) (order : Z) : res (list Q * list Q) := OK (x, y).
Definition ccd_coordinates (dm : DEIMOSDetectorMap) (x y : list Q)
  : res (list Z * list Q * list Q) := OK (map (λ _, 1) x, x, y).

Definition one_slit : BluSlits :=
  mk_BluSlits [[(0, 0); (2, 0); (2, 1); (0, 1)]%Q] [7].

(** A file taken with the mirror in slider 2. *)
Definition mirror_file : File :=
  mk_File (mk_Header 2 0 0 0 (- (19 # 1))%Q "Mirror") (Some one_slit).

(** A file taken with the 830 line grating in slider 3. *)
Definition grating_file : File :=
  mk_File (mk_Header 3 (8500 + (1 # 128))%Q (- (1 # 4))%Q 0 0 "830G") (Some one_slit).

(** A file naming a mirror in slider 1, a position without coefficients. *)
Definition odd_slider_file : File :=
  mk_File (mk_Header 1 0 0 0 0 "Mirror") None.

Definition call := mask_to_pixel_coordinates slit_centers mask_to_imaging_coordinates
                     ccd_coordinates.
End DeimosExamples.

(** The round trip through the camera distortion. *)
Module DistortionSpec.
Import KeckDEIMOS.

(** [c.apply_distortion(c.remove_distortion(x))] for a fresh
    [c = DEIMOSCameraDistortion()]. *)
Definition round_trip_with (c : DEIMOSCameraDistortion) (x : Q) : res Q :=
  '(out, _) ← apply_distortion c [remove_distortion c x];
  of_option IndexError (head out).
Definition round_trip (x : Q) : res Q :=
  c ← new_distortion; round_trip_with c x.

Definition tolerance : Q := 1 # 100000.

(** The round trip returns a value within [1e-5] of [x]. *)
Definition recovers (x : Q) : Prop :=
  ∃ v, round_trip x = OK v ∧ (Qabs (v - x) < tolerance)%Q.

Definition recovers_with_b (c : DEIMOSCameraDistortion) (x : Q) : bool :=
  match round_trip_with c x with
  | OK v => Np.Qltb (Qabs (v - x)) tolerance
  | Raise _ => false
  end.

(** The domain tabulated by the constructor. *)
Definition tabulated_domain (x : Q) : Prop := (- (6 # 10) <= x ∧ x <= 6 # 10)%Q.

(** The multiples of 0.1 from -0.5 to 0.5. *)
Definition sample_points : list Q :=
  map (λ k, k # 10) [-5; -4; -3; -2; -1; 0; 1; 2; 3; 4; 5].

Definition all_recover_b (l : list Q) : bool :=
  match new_distortion with
  | OK c => forallb (recovers_with_b c) l
  | Raise _ => false
  end.

(** A value lies strictly between the first and the last tabulated knot. *)
Definition in_range (x0 xn v : Q) : Prop := (x0 < v ∧ v < xn)%Q.
Definition inside (x0 xn v : Q) : bool := Np.Qltb x0 v && Np.Qltb v xn.
End DistortionSpec.
(** Edge maps: their entries and labels. *)
Module EdgeSpec.
Import TraceSlits.

(** All the entries of an edge map, row after row. *)
Definition entries (ea : EdgeArr) : list Z := concat (Np.rows ea).

(** The map holds a left edge (a negative label), a right edge (a
    positive label). *)
Definition has_left (ea : EdgeArr) : Prop := Exists (λ v, v < 0) (entries ea).
Definition has_right (ea : EdgeArr) : Prop := Exists (λ v, 0 < v) (entries ea).

Definition max_msg : string :=
  "zero-size array to reduction operation maximum which has no identity".
Definition min_msg : string :=
  "zero-size array to reduction operation minimum which has no identity".

(** An edge map without any right edge. *)
Definition left_only : EdgeArr := Np.mk_ndarray 1 2 [[-1; 0]].
(** The relabelling of [reset_edgearr_ednum]. *)
Definition shifted (ednum v : Z) : Z :=
  if decide (v < 0) then v - (ednum - 1)
  else if decide (0 < v) then v + (ednum - 1) else v.

(** A tracer whose edge map holds one left and one right edge. *)
Definition single_edge_tracer : State :=
  set_rcnt (Some 1) (set_lcnt (Some 1) Toy.labelled_tracer).
End EdgeSpec.
(** The stages of [run], and the steps of a run that detects the edges. *)
Module RunStages.
Import TraceSlits.

(** The steps recorded by [run] up to and including the two edge fits,
    when the edges are detected from the trace image. *)
Definition auto_run_steps (maxgap_set armlsd add_user ignore_orders : bool)
  : list string :=
  ["_edgearr_from_binarr"; "_match_edges"; "_add_left_right"]
  ++ (if maxgap_set then ["_maxgap_prep"] else [])
  ++ ["_assign_edges"]
  ++ (if maxgap_set then ["_maxgap_close"] else [])
  ++ ["_final_left_right"]
  ++ (if armlsd then ["_mslit_tcrude"; "_mslit_sync"] else [])
  ++ (if add_user then ["add_user_slits"] else [])
  ++ (if ignore_orders then ["_ignore_orders"] else [])
  ++ ["_fit_edges_left"; "_fit_edges_right"].

Section Stages.
Context `{ext : Collaborators}.

(** The first stage: the edge map of the user, or the detected one. *)
Definition first_stage (s : State) : res State :=
  if decide (0 < length (single (settings s)))%nat
  then s ← _edgearr_single_slit s; OK (set_user_set (Some true) s)
  else s ← _edgearr_from_binarr s; OK (set_user_set (Some false) s).

(** From the matching of the edges to the two fits. *)
Definition middle_stages (armlsd ignore_orders : bool)
    (add_user : option (list (list Q))) (s : State) : res State :=
  s ← _match_edges s;
  s ← _add_left_right s;
  s ← when (bool_decide (maxgap (settings s) ≠ None)) _maxgap_prep s;
  s ← _assign_edges s;
  s ← when (bool_decide (maxgap (settings s) ≠ None)) _maxgap_close s;
  s ← when (bool_decide (user_set s ≠ Some true)) _final_left_right s;
  s ← when armlsd _mslit_tcrude s;
  s ← when armlsd _mslit_sync s;
  s ← match add_user with
      | Some us => add_user_slits us false s
      | None => OK s
      end;
  s ← when ignore_orders _ignore_orders s;
  s ← _set_lrminx s;
  s ← _fit_edges "left" s;
  _fit_edges "right" s.

(** The long-slit check and what follows it. *)
Definition curve_stage (armlsd : bool) (s : State) : res (bool * State) :=
  '(done_, s) ← _chk_for_longslit s;
  s ← (if (done_ : bool)
       then OK (set_extrapord (Some [false]) s)
       else s ← _synchronize s;
            s ← _pca s;
            _trim_slits armlsd s);
  OK (done_, s).

(** The conversion to pixels that ends a run. *)
Definition pixel_stage (s : State) : res State :=
  let s := msgs_info "Converting physical trace locations to nearest pixel" s in
  lc ← operand (lcen s);
  rc ← operand (rcen s);
  mid ← Np.broadcast2d 0%Q Qplus lc rc;
  pc ← phys_to_pix (Np.map2d (Qmult (1 # 2)) mid) (pixlocn s) 1;
  wd ← Np.broadcast2d 0%Q Qminus rc lc;
  let s := set_pixwid (Some (map Np.int (Np.mean0 wd))) (set_pixcen (Some pc) s) in
  lp ← phys_to_pix lc (pixlocn s) 1;
  rp ← phys_to_pix rc (pixlocn s) 1;
  let s := set_rordpix (Some rp) (set_lordpix (Some lp) s) in
  let s := msgs_info "Identifying the pixels belonging to each slit" s in
  sp ← core_slit_pixels lc rc (Np.shape0 (mstrace s), Np.shape1 (mstrace s))
          (pad (settings s));
  OK (set_slitpix (Some sp) s).
End Stages.
End RunStages.
(** Centroid traces without gaps. *)
Module PcaSpec.
Import TraceSlits.

(** Row [i] of the traces (one row per slit) has no zero entry. *)
Definition complete (a : image) (i : nat) : Prop :=
  ∃ row, Np.rows a !! i = Some row ∧ Forall (λ v, ¬ (v == 0)%Q) row.

(** Centroid traces of three slits, the second with a gap on its left
    edge. *)
Definition lcent3 : image := Np.mk_ndarray 3 2 [[1; 1]; [0; 5]; [9; 9]]%Q.
Definition rcent3 : image := Np.mk_ndarray 3 2 [[3; 3]; [7; 7]; [12; 12]]%Q.
Definition gap_tracer : State :=
  set_rcent (Some rcent3)
    (set_lcent (Some lcent3)
       (init (ext := Toy.collaborators) Toy.mstrace0 Toy.pixlocn0 None
          (Some TrimExamples.no_pca_settings) (Some 1) 100000)).

(** A tracer with one fitted edge on each side. *)
Definition fitted_tracer : State :=
  set_rcoeff (Some (Np.mk_ndarray 1 1 [[3%Q]]))
    (set_lcoeff (Some (Np.mk_ndarray 1 1 [[0%Q]]))
       (set_rmax (Some 1) (set_rmin (Some 1)
          (set_lmax (Some 1) (set_lmin (Some 1) Toy.labelled_tracer))))).
End PcaSpec.
(** The tracer that [from_files] builds from the files of [write]. *)
Module ReloadSpec.
Import TraceSlits.

Section Reloaded.
Context `{ext : Collaborators}.

Definition reloaded (root : string) (s : State) (tc : json) : State :=
  let fits_file := root +:+ ".fits" in
  let slf :=
    set_log (if input_binbpx s then ["Loading BPM from " +:+ fits_file] else [])
      (init (mstrace s) (pixlocn s)
         (if input_binbpx s then Some (binbpx s) else None)
         (Some (settings s)) None 100000) in
  let slf := set_steps (steps s) slf in
  let slf := match lcen s with
             | Some l => msgs_info ("Loading LCEN, RCEN from " +:+ fits_file)
                           (set_rcen (rcen s) (set_lcen (Some l) slf))
             | None => slf
             end in
  let slf := match edgearr s with
             | Some e => msgs_info ("Loading EDGEARR from " +:+ fits_file)
                           (set_edgearr (Some e) slf)
             | None => slf
             end in
  let slf := match siglev s with
             | Some g => msgs_info ("Loading SIGLEV from " +:+ fits_file)
                           (set_siglev (Some g) slf)
             | None => slf
             end in
  set_tc_dict (Some tc) slf.
End Reloaded.

(** A tracer that went through trace-crude. *)
Definition crude_tracer : State :=
  set_tc_dict (Some (JDict [])) Toy.labelled_tracer.
End ReloadSpec.
(** Grating names. *)
Module GratingSpec.
Import KeckDEIMOS.

(** The number spelled by the digits of a grating name. *)
Definition name_number (name : string) : Z :=
  fold_left (λ acc d, acc * 10 + Z.of_nat d) (digits_of name) 0.

(** The integer ruling that selects the orientation coefficients. *)
Definition nominal_ruling (n : Z) : Z :=
  if decide (830 ≤ n ≤ 832) then 831 else n.

(** The ruling stored for the number [n] of a name. *)
Definition adjusted_ruling (n : Z) : Q :=
  if decide (n = 1200) then 120006 # 100
  else if decide (830 ≤ n ≤ 832) then 83190 # 100
  else inject_Z n.

Definition float_msg : string := "could not convert string to float: ''".
Definition slider2_msg : string := "Ruling should be 0 if slider in position 2.".
Definition both_msg : string :=
  "Must provide both x and y or neither to use slit mask.".
End GratingSpec.
(** The table of the camera distortion. *)
Module KnotSpec.
Import KeckDEIMOS.

(** Each value is below the next one. *)
Fixpoint increasing_b (l : list Q) : bool :=
  match l with
  | a :: l' => match l' with
               | b :: _ => Np.Qltb a b && increasing_b l'
               | [] => true
               end
  | [] => true
  end.

(** The angles tabulated by the constructor. *)
Definition grid : list Q := linspace (- (6 # 10)) (6 # 10) 1000.

(** The table of a distortion object is the one its constructor builds:
    the images of the grid, in the order of the grid, with the
    coefficients of the source. *)
Definition tabulates_grid (c : DEIMOSCameraDistortion) : Prop :=
  ix (interpolator c) = map (remove_distortion c) grid
  ∧ iy (interpolator c) = grid
  ∧ increasing_b (ix (interpolator c)) = true.

Definition tabulates_grid_b (c : DEIMOSCameraDistortion) : bool :=
  bool_decide (ix (interpolator c) = map (remove_distortion c) grid)
  && bool_decide (iy (interpolator c) = grid)
  && increasing_b (ix (interpolator c)).
End KnotSpec.
(** ** [pypeit/spectrographs/keck_deimos.py]: frames, bad pixels and raw
    files

    [add_to_fitstbl], [bpm], [get_image_section] and [load_raw_img_head] of
    [KeckDEIMOSSpectrograph], and the functions [read_deimos], [indexing]
    and [deimos_read_1chip].

    The directory is the list of its path names with the file behind each;
    [glob.glob(raw_file + '*')] yields the names that start with
    [raw_file], which is taken to hold none of the special characters of
    [glob].  A raw file is taken to be a DEIMOS file: its primary header
    has the cards read by [read_deimos], with integer and string values,
    and each further HDU has DATASEC, DETSEC and an image.  [msgs.error]
    raises the error of the package; what [msgs.info] prints while reading
    is left out. *)

Module DeimosFrames.

(** *** The table of frames: [add_to_fitstbl]

    The columns of [fitstbl] that the method and [get_grating]'s cards
    concern. *)
Record FitsTbl : Type := mk_FitsTbl {
  gratepos : list Z;
  g3tltwav : list Q;
  g4tltwav : list Q;
  dispangle : list Q
}.

(** [dst[mask] = src[mask]]: a mask of another length is an error. *)
Definition mask_assign (mask : list bool) (dst src : list Q) : res (list Q) :=
  if decide (length mask = length dst ∧ length mask = length src)
  then OK (zip_with (λ (m : bool) ds, if m then ds.2 else ds.1) mask (zip dst src))
  else Raise IndexError.

Definition add_to_fitstbl (fitstbl : FitsTbl) : res FitsTbl :=
  let step (t : FitsTbl) (gval : Z) : res FitsTbl :=
    let gmt := map (λ g, bool_decide (g = gval)) (gratepos t) in
    d ← mask_assign gmt (dispangle t) (g3tltwav t);
    OK (mk_FitsTbl (gratepos t) (g3tltwav t) (g4tltwav t) d) in
  t ← step fitstbl 3;
  step t 4.

(** *** Bad pixels: [bpm] *)

(** [a[:, lo:hi] = 1] for [0 <= lo <= hi]: the slice stops at the width
    of the array. *)
Definition set_cols (lo hi : nat) (a : Np.ndarray Z) : Np.ndarray Z :=
  Np.mk_ndarray (Np.shape0 a) (Np.shape1 a)
    (map (imap (λ j v, if decide (lo ≤ j < hi)%nat then 1 else v)) (Np.rows a)).

(** [a[:, c] = 1]: a column beyond the width is an error. *)
Definition set_col (c : nat) (a : Np.ndarray Z) : res (Np.ndarray Z) :=
  if decide (c < Np.shape1 a)%nat then OK (set_cols c (S c) a) else Raise IndexError.

Section Bpm.
(** [empty_bpm] of the parent class leaves the empty mask in
    [self.bpm_img]. *)
Variable empty_bpm : option string → option Z → res (Np.ndarray Z).

Definition bpm (filename : option string) (det : option Z) : res (Np.ndarray Z) :=
  bpm_img ← empty_bpm filename det;
  if decide (det = Some 1) then OK (set_cols 1052 1054 bpm_img)
  else if decide (det = Some 2)
  then set_col 2047 (set_cols 376 380 (set_cols 0 4 bpm_img))
  else if decide (det = Some 3) then set_col 851 bpm_img
  else if decide (det = Some 4) then OK (set_cols 997 998 (set_cols 0 4 bpm_img))
  else if decide (det = Some 5) then set_col 129 bpm_img
  else if decide (det = Some 7) then OK (set_cols 426 428 bpm_img)
  else if decide (det = Some 8)
  then bpm_img ← set_col 931 bpm_img; set_col 933 bpm_img
  else OK bpm_img.
End Bpm.

(** *** Raw files *)

(** [indexing(itt, postpix, det)]:
    [x1, x2, y1, y2, o_x1, o_x2, o_y1, o_y2]. *)
Definition indexing (itt postpix : Z) (det : option Z)
  : Z * Z * Z * Z * Z * Z * Z * Z :=
  let tt := if det is Some _ then 0 else itt in
  let ii := 2048 in
  let jj := 4096 in
  let '(y1, y2) := if decide (tt < 4) then (0, jj) else (jj, 2 * jj) in
  let '(o_y1, o_y2) := (y1, y2) in
  let '(x1, x2) := ((tt `mod` 4) * ii, (tt `mod` 4 + 1) * ii) in
  let o_x1 := if det is None then 4 * ii + (tt `mod` 4) * postpix
              else ii + (tt `mod` 4) * postpix in
  let o_x2 := o_x1 + postpix in
  (x1, x2, y1, y2, o_x1, o_x2, o_y1, o_y2).

(** A slice [i:j] of a sequence of length [n]: where it starts and how
    long it is.  A negative bound counts from the end; bounds are clipped
    to the sequence. *)
Definition slice_bounds (i j : Z) (n : nat) : nat * nat :=
  let norm k := if decide (k < 0) then Z.max (k + Z.of_nat n) 0
                else Z.min k (Z.of_nat n) in
  (Z.to_nat (norm i), Z.to_nat (norm j - norm i)).

Definition slice {A} (i j : Z) (l : list A) : list A :=
  let '(s, len) := slice_bounds i j (length l) in take len (drop s l).

(** [a[i1:j1, i2:j2]] *)
Definition slice2d {A} (i1 j1 i2 j2 : Z) (a : Np.ndarray A) : Np.ndarray A :=
  Np.mk_ndarray (slice_bounds i1 j1 (Np.shape0 a)).2 (slice_bounds i2 j2 (Np.shape1 a)).2
    (map (slice i2 j2) (slice i1 j1 (Np.rows a))).

(** [a[:, i2:]] *)
Definition cols_from {A} (i2 : Z) (a : Np.ndarray A) : Np.ndarray A :=
  let n := Np.shape1 a in
  Np.mk_ndarray (Np.shape0 a) (slice_bounds i2 (Z.of_nat n) n).2
    (map (λ r, slice i2 (Z.of_nat (length r)) r) (Np.rows a)).

Definition flipud {A} (a : Np.ndarray A) : Np.ndarray A :=
  Np.mk_ndarray (Np.shape0 a) (Np.shape1 a) (reverse (Np.rows a)).
Definition fliplr {A} (a : Np.ndarray A) : Np.ndarray A :=
  Np.mk_ndarray (Np.shape0 a) (Np.shape1 a) (map reverse (Np.rows a)).

Definition shape_text (sh : nat * nat) : string :=
  "(" +:+ pretty sh.1 +:+ "," +:+ pretty sh.2 +:+ ")".
Definition broadcast_msg (src dst : nat * nat) : string :=
  "could not broadcast input array from shape " +:+ shape_text src
  +:+ " into shape " +:+ shape_text dst.

(** [img[i1:j1, i2:j2] = data]: the data must have the shape of the
    slice, an axis of length one being repeated. *)
Definition assign_slice (i1 j1 i2 j2 : Z) (data img : Np.ndarray Q)
  : res (Np.ndarray Q) :=
  let '(s1, n1) := slice_bounds i1 j1 (Np.shape0 img) in
  let '(s2, n2) := slice_bounds i2 j2 (Np.shape1 img) in
  if decide ((Np.shape0 data = n1 ∨ Np.shape0 data = 1%nat)
             ∧ (Np.shape1 data = n2 ∨ Np.shape1 data = 1%nat))
  then OK (Np.mk_ndarray (Np.shape0 img) (Np.shape1 img)
             (imap (λ r row,
                if decide (s1 ≤ r < s1 + n1)%nat
                then imap (λ c v,
                       if decide (s2 ≤ c < s2 + n2)%nat
                       then Np.at_ 0%Q data (Np.bidx (Np.shape0 data) (r - s1))
                              (Np.bidx (Np.shape1 data) (c - s2))
                       else v) row
                else row) (Np.rows img)))
  else Raise (ValueError (broadcast_msg (Np.shape0 data, Np.shape1 data) (n1, n2))).

(** The primary header and the detector HDUs of a raw file. *)
Record Head0 : Type := mk_Head0 {
  PRECOL : Z;
  POSTPIX : Z;
  PRELINE : Z;
  POSTLINE : Z;
  DETLSIZE : string;
  BINNING : string
}.

Record ChipHDU : Type := mk_ChipHDU {
  DATASEC : string;
  DETSEC : string;
  chip_data : Np.ndarray Q
}.

Record RawFile : Type := mk_RawFile {
  head0 : Head0;
  chips : list ChipHDU
}.

(** [hdu[chipno]]: HDU 0 is the primary one. *)
Definition hdu_at (hdu : RawFile) (chipno : Z) : res (option ChipHDU) :=
  Np.py_index (None :: map Some (chips hdu)) chipno.

(** ['[{:d}:{:d},{:d}:{:d}]'.format(a, b, c, d)] *)
Definition section_text (a b c d : Z) : string :=
  "[" +:+ pretty a +:+ ":" +:+ pretty b +:+ "," +:+ pretty c +:+ ":" +:+ pretty d +:+ "]".

Definition found_msg (n : nat) (pattern : string) : string :=
  "Found " +:+ pretty n +:+ " files matching " +:+ pattern.
Definition binning_msg : string :=
  "This binning for DEIMOS might not work.  But it might..".
Definition negative_msg : string := "negative dimensions are not allowed".

(** [np.zeros((n, m))] for integers. *)
Definition zeros (n m : Z) : res (Np.ndarray Q) :=
  if decide (n < 0 ∨ m < 0) then Raise (ValueError negative_msg)
  else OK (Np.zeros 0%Q (Z.to_nat n) (Z.to_nat m)).

Section Read.
(** [parse.load_sections], flattened: the four numbers of a section. *)
Variable load_sections : string → res (Z * Z * Z * Z).

(** [deimos_read_1chip(hdu, chipno)]: the data and the overscan. *)
Definition deimos_read_1chip (hdu : RawFile) (chipno : Z)
  : res (Np.ndarray Q * Np.ndarray Q) :=
  h ← hdu_at hdu chipno;
  c ← of_option (KeyError "DATASEC") h;
  let datsec := DATASEC c in
  let detsec := DETSEC c in
  '(x1_dat, x2_dat, y1_dat, y2_dat) ← load_sections datsec;
  '(x1_det, x2_det, y1_det, y2_det) ← load_sections detsec;
  let fullimage := chip_data c in
  let data := slice2d x1_dat x2_dat y1_dat y2_dat fullimage in
  let oscan := cols_from y2_dat fullimage in
  let '(data, oscan) := if decide (x2_det < x1_det)
                        then (flipud data, flipud oscan) else (data, oscan) in
  let '(data, oscan) := if decide (y2_det < y1_det)
                        then (fliplr data, fliplr oscan) else (data, oscan) in
  OK (data, oscan).

(** The body of the loop over the chips: the image and the two lists
    of sections.  With a detector given, the image is created here. *)
Definition read_chip (hdu : RawFile) (det : option Z) (postpix : Z)
    (acc : Np.ndarray Q * list string * list string) (itt : Z)
  : res (Np.ndarray Q * list string * list string) :=
  let '(image, dsec, osec) := acc in
  '(data, oscan) ← deimos_read_1chip hdu (itt + 1);
  let image := if det is Some _
               then Np.zeros 0%Q (Np.shape0 data) (Np.shape1 data + Np.shape1 oscan)
               else image in
  let '(x1, x2, y1, y2, o_x1, o_x2, o_y1, o_y2) := indexing itt postpix det in
  image ← assign_slice y1 y2 x1 x2 data image;
  image ← assign_slice o_y1 o_y2 o_x1 o_x2 oscan image;
  let idsec := section_text y1 y2 x1 x2 in
  let iosec := section_text o_y1 o_y2 o_x1 o_x2 in
  OK (image, dsec ++ [idsec], osec ++ [iosec]).

Fixpoint read_chips (hdu : RawFile) (det : option Z) (postpix : Z)
    (acc : Np.ndarray Q * list string * list string) (chips : list Z)
  : res (Np.ndarray Q * list string * list string) :=
  match chips with
  | [] => OK acc
  | itt :: chips' => acc ← read_chip hdu det postpix acc itt;
                     read_chips hdu det postpix acc chips'
  end.

(** [read_deimos(raw_file, det)] on the files [fs]: the image, the
    primary header and the sections.  (Without a detector the image is
    created before the loop; with one, in its single pass.) *)
Definition read_deimos (fs : list (string * RawFile)) (raw_file : string)
    (det : option Z)
  : res (Np.ndarray Q * Head0 * (list string * list string)) :=
  let fil := filter (λ f, String.prefix raw_file f.1 = true) fs in
  (if decide (length fil ≠ 1%nat)
   then Raise (PypitError (found_msg (length fil) (raw_file +:+ "*")))
   else OK tt) ≫= λ _,
  f ← Np.py_index fil 0;
  let hdu := f.2 in
  let head0 := head0 hdu in
  let postpix := POSTPIX head0 in
  '(x0, x_npix, y0, y_npix) ← load_sections (DETLSIZE head0);
  image ← (if det is None
           then zeros x_npix (y_npix + 4 * postpix)
           else OK (Np.zeros 0%Q 0 0));
  (if decide (BINNING head0 ≠ "1,1")
   then Raise (PypitError binning_msg)
   else OK tt) ≫= λ _,
  let nchip := 8%nat in
  let chips := match det with
               | None => map Z.of_nat (seq 0 nchip)
               | Some d => [d - 1]
               end in
  '(image, dsec, osec) ← read_chips hdu det postpix (image, [], []) chips;
  OK (image, head0, (dsec, osec)).

Definition load_raw_img_head (fs : list (string * RawFile)) (raw_file : string)
    (det : option Z) : res (Np.ndarray Q * Head0) :=
  '(raw_img, head0, _) ← read_deimos fs raw_file det;
  OK (raw_img, head0).

Definition get_image_section (fs : list (string * RawFile)) (filename : string)
    (det : option Z) (section : string)
  : res (list string * bool * bool * bool) :=
  '(temp, head0, secs) ← read_deimos fs filename det;
  if decide (section = "datasec") then OK (secs.1, false, false, false)
  else if decide (section = "oscansec") then OK (secs.2, false, false, false)
  else Raise (ValueError ("Unrecognized keyword: " +:+ section)).
End Read.

End DeimosFrames.
(** The layout of the detectors, and files small enough to read by hand. *)
Module FrameSpec.
Import DeimosFrames.

(** A rectangle [x1, x2, y1, y2] of pixels: columns [x1 <= x < x2], rows
    [y1 <= y < y2]. *)
Definition rect : Type := Z * Z * Z * Z.

Definition data_rect (itt postpix : Z) (det : option Z) : rect :=
  let '(x1, x2, y1, y2, _, _, _, _) := indexing itt postpix det in (x1, x2, y1, y2).
Definition oscan_rect (itt postpix : Z) (det : option Z) : rect :=
  let '(_, _, _, _, o_x1, o_x2, o_y1, o_y2) := indexing itt postpix det in
  (o_x1, o_x2, o_y1, o_y2).

(** Two rectangles share no pixel. *)
Definition disjoint (a b : rect) : Prop :=
  let '(ax1, ax2, ay1, ay2) := a in
  let '(bx1, bx2, by1, by2) := b in
  ax2 ≤ bx1 ∨ bx2 ≤ ax1 ∨ ay2 ≤ by1 ∨ by2 ≤ ay1.

(** A rectangle lies within the columns [lo <= x < hi] and the rows
    [0 <= y < 8192]. *)
Definition within (a : rect) (lo hi : Z) : Prop :=
  let '(x1, x2, y1, y2) := a in
  lo ≤ x1 ∧ x1 ≤ x2 ∧ x2 ≤ hi ∧ 0 ≤ y1 ∧ y1 < y2 ∧ y2 ≤ 8192.

(** The columns that [bpm] masks for a detector, and the least width
    with which it returns. *)
Definition bad_columns (det : option Z) : list nat :=
  match det with
  | Some 1 => [1052; 1053]%nat
  | Some 2 => [0; 1; 2; 3; 376; 377; 378; 379; 2047]%nat
  | Some 3 => [851]%nat
  | Some 4 => [0; 1; 2; 3; 997]%nat
  | Some 5 => [129]%nat
  | Some 7 => [426; 427]%nat
  | Some 8 => [931; 933]%nat
  | _ => []
  end.
Definition needed_width (det : option Z) : nat :=
  match det with
  | Some 2 => 2048%nat
  | Some 3 => 852%nat
  | Some 5 => 130%nat
  | Some 8 => 934%nat
  | _ => 0%nat
  end.

(** An empty mask of 2 rows and 2048 columns, whatever the file. *)
Definition empty_bpm0 (filename : option string) (det : option Z)
  : res (Np.ndarray Z) := OK (Np.zeros 0 2 2048).

(** The table has one entry per frame in each column. *)
Definition table_of (n : nat) (t : FitsTbl) : Prop :=
  length (gratepos t) = n ∧ length (g3tltwav t) = n ∧ length (dispangle t) = n.

Definition frames3 : FitsTbl :=
  mk_FitsTbl [3; 4; 2] [7000; 7100; 7200]%Q [8000; 8100; 8200]%Q [0; 0; 0]%Q.

(** A parser that knows a few sections. *)
Definition load_sections0 (s : string) : res (Z * Z * Z * Z) :=
  if decide (s = "[1:1,1:1]") then OK (0, 1, 0, 1)
  else if decide (s = "[1:2048,1:1]") then OK (0, 1, 0, 2048)
  else if decide (s = "[1:2,1:2]") then OK (0, 2, 0, 2)
  else if decide (s = "[3:1,3:1]") then OK (2, 1, 2, 1)
  else if decide (s = "[1:8192,1:8192]") then OK (0, 8192, 0, 8192)
  else Raise (ValueError s).

(** A raw file with one detector of a single pixel, and a directory
    holding it under two names. *)
Definition pixel_chip : ChipHDU :=
  mk_ChipHDU "[1:1,1:1]" "[1:1,1:1]" (Np.mk_ndarray 1 1 [[5%Q]]).
Definition tiny_file : RawFile :=
  mk_RawFile (mk_Head0 0 8 0 0 "[1:8192,1:8192]" "1,1") [pixel_chip].
Definition binned_file : RawFile :=
  mk_RawFile (mk_Head0 0 8 0 0 "[1:8192,1:8192]" "2,2") [pixel_chip].
Definition disk : list (string * RawFile) :=
  [("d0913_0001.fits", tiny_file); ("d0913_0001.fits.gz", tiny_file);
   ("d0913_0002.fits", tiny_file); ("d0913_0003.fits", binned_file)].

(** A raw file whose detector has one row of 2048 pixels and one pixel
    of overscan. *)
Definition wide_chip : ChipHDU :=
  mk_ChipHDU "[1:2048,1:1]" "[1:2048,1:1]"
    (Np.mk_ndarray 1 2049 [replicate 2048 1%Q ++ [7%Q]]).
Definition wide_file : RawFile :=
  mk_RawFile (mk_Head0 0 1 0 0 "[1:8192,1:8192]" "1,1") [wide_chip].
Definition wide_data : Np.ndarray Q := Np.mk_ndarray 1 2048 [replicate 2048 1%Q].
Definition wide_oscan : Np.ndarray Q := Np.mk_ndarray 1 1 [[7%Q]].

(** A detector of 2 by 2 pixels with one column of overscan, mounted
    upside down and mirrored. *)
Definition turned_chip : ChipHDU :=
  mk_ChipHDU "[1:2,1:2]" "[3:1,3:1]"
    (Np.mk_ndarray 2 3 [[1; 2; 3]; [4; 5; 6]]%Q).
Definition turned_file : RawFile :=
  mk_RawFile (mk_Head0 0 1 0 0 "[1:8192,1:8192]" "1,1") [turned_chip].

(** Where entry [i] of an axis of length [n] comes from. *)
Definition flipped (flip : bool) (n i : nat) : nat :=
  if flip then (n - 1 - i)%nat else i.

(** The two flips of [deimos_read_1chip] together. *)
Definition oriented {A} (ud lr : bool) (a : Np.ndarray A) : Np.ndarray A :=
  let a := if ud then flipud a else a in
  if lr then fliplr a else a.

(** The files that match [raw_file + '*']. *)
Definition matching (fs : list (string * RawFile)) (raw_file : string)
  : list (string * RawFile) :=
  filter (λ f, String.prefix raw_file f.1 = true) fs.

(** A rectangle as [read_deimos] writes it: rows first. *)
Definition rect_text (a : rect) : string :=
  let '(x1, x2, y1, y2) := a in section_text y1 y2 x1 x2.

(** The sections of the eight detectors of the mosaic, and those of a
    single detector. *)
Definition mosaic_sections (postpix : Z) : list string * list string :=
  (map (λ t, rect_text (data_rect t postpix None)) [0; 1; 2; 3; 4; 5; 6; 7],
   map (λ t, rect_text (oscan_rect t postpix None)) [0; 1; 2; 3; 4; 5; 6; 7]).
Definition single_sections (postpix : Z) : list string * list string :=
  (["[0:4096,0:2048]"], [section_text 0 4096 2048 (2048 + postpix)]).
Definition sections_of (det : option Z) (postpix : Z) : list string * list string :=
  if det is Some _ then single_sections postpix else mosaic_sections postpix.

(** [np.hstack((a, b))] for arrays with the same number of rows. *)
Definition hstack {A} (a b : Np.ndarray A) : Np.ndarray A :=
  Np.mk_ndarray (Np.shape0 a) (Np.shape1 a + Np.shape1 b)
    (zip_with app (Np.rows a) (Np.rows b)).
End FrameSpec.

(** * Theorems *)

(** ** Facts about the numpy fragment *)

Module NpFacts.
Import Np.

Lemma Qltb_lt (x y : Q) : Qltb x y = true ↔ (x < y)%Q.
Proof.
  unfold Qltb. rewrite Qlt_alt. destruct (x ?= y)%Q; split; congruence.
Qed.

Lemma Qltb_ge (x y : Q) : Qltb x y = false ↔ (y <= x)%Q.
Proof.
  rewrite <- not_true_iff_false, Qltb_lt. split.
  - apply Qnot_lt_le.
  - intros H1 H2. exact (Qlt_not_le _ _ H2 H1).
Qed.

Lemma mapR_Forall2 {A B} (f : A → res B) l bs :
  mapR f l = OK bs ↔ Forall2 (λ a b, f a = OK b) l bs.
Proof.
  revert bs. induction l as [|a l IH]; intros bs; simpl.
  - split.
    + intros [= <-]. constructor.
    + intros H. inversion H. reflexivity.
  - split.
    + destruct (f a) as [b|e] eqn:Hf; simpl; [|discriminate].
      destruct (mapR f l) as [bs'|e] eqn:Hm; simpl; [|discriminate].
      intros [= <-]. constructor; [exact Hf|]. apply IH. reflexivity.
    + intros H. inversion H as [|a' b l' bs' Hf Hrest]; subst.
      rewrite Hf. simpl. apply IH in Hrest. rewrite Hrest. reflexivity.
Qed.

Lemma mapR_total {A B} (f : A → res B) (g : A → B) l :
  Forall (λ a, f a = OK (g a)) l → mapR f l = OK (map g l).
Proof.
  intros H. apply mapR_Forall2. induction H; constructor; auto.
Qed.

(** The column [o] of a well-formed array, as a total function. *)
Lemma col_wf (a : ndarray Q) o :
  wf a → (o < shape1 a)%nat → col a o = OK (map (λ r, nth o r 0%Q) (rows a)).
Proof.
  intros [_ Hr] Ho. unfold col. rewrite decide_True by exact Ho.
  apply mapR_total. eapply Forall_impl; [exact Hr|].
  intros r Hlen. simpl in Hlen.
  destruct (r !! o) as [v|] eqn:Hv.
  - simpl. f_equal. symmetry. apply nth_lookup_Some with (d := 0%Q) in Hv. exact Hv.
  - apply lookup_ge_None in Hv. lia.
Qed.
End NpFacts.

(** ** Trimming *)

Module TrimFacts.
Import Np NpFacts TraceSlits TrimSpec.

Lemma Qminl_gt c x l :
  (c < Qminl x l)%Q ↔ (c < x)%Q ∧ Forall (λ v, (c < v)%Q) l.
Proof.
  revert x. induction l as [|v l IH]; intros x; unfold Qminl in *; simpl.
  - split; [intros H; split; [exact H|constructor] | intros [H _]; exact H].
  - rewrite IH, Forall_cons. destruct (Qltb v x) eqn:Hvx.
    + apply Qltb_lt in Hvx. split.
      * intros [Hv Hl]. repeat split; try assumption.
        eapply Qlt_trans; eassumption.
      * intros [Hx [Hv Hl]]. split; assumption.
    + apply Qltb_ge in Hvx. split.
      * intros [Hx Hl]. repeat split; try assumption.
        eapply Qlt_le_trans; eassumption.
      * intros [Hx [Hv Hl]]. split; assumption.
Qed.

Lemma Qmaxl_lt c x l :
  (Qmaxl x l < c)%Q ↔ (x < c)%Q ∧ Forall (λ v, (v < c)%Q) l.
Proof.
  revert x. induction l as [|v l IH]; intros x; unfold Qmaxl in *; simpl.
  - split; [intros H; split; [exact H|constructor] | intros [H _]; exact H].
  - rewrite IH, Forall_cons. destruct (Qltb x v) eqn:Hvx.
    + apply Qltb_lt in Hvx. split.
      * intros [Hv Hl]. repeat split; try assumption.
        eapply Qlt_trans; eassumption.
      * intros [Hx [Hv Hl]]. split; assumption.
    + apply Qltb_ge in Hvx. split.
      * intros [Hx Hl]. repeat split; try assumption.
        eapply Qle_lt_trans; eassumption.
      * intros [Hx [Hv Hl]]. split; assumption.
Qed.

(** The minimum of a non-empty column exceeds [c] exactly when every
    entry does. *)
Lemma min_gt_all c l mn :
  Np.min l = OK mn → ((c < mn)%Q ↔ Forall (λ v, (c < v)%Q) l).
Proof.
  destruct l as [|x l]; simpl; [discriminate|].
  intros [= <-]. rewrite Qminl_gt, Forall_cons. reflexivity.
Qed.

Lemma max_lt_all c l mx :
  Np.max l = OK mx → ((mx < c)%Q ↔ Forall (λ v, (v < c)%Q) l).
Proof.
  destruct l as [|x l]; simpl; [discriminate|].
  intros [= <-]. rewrite Qmaxl_lt, Forall_cons. reflexivity.
Qed.

Lemma colv_length (a : image) o : length (colv a o) = length (rows a).
Proof. unfold colv. apply length_map. Qed.

Lemma min_nonempty l : l ≠ [] → ∃ mn, Np.min l = OK mn.
Proof. destruct l; [congruence|]. intros _. eexists. reflexivity. Qed.
Lemma max_nonempty l : l ≠ [] → ∃ mx, Np.max l = OK mx.
Proof. destruct l; [congruence|]. intros _. eexists. reflexivity. Qed.

Lemma colv_nonempty (a : image) o : wf a → (0 < shape0 a)%nat → colv a o ≠ [].
Proof.
  intros [Hl _] Hpos Hnil. apply (f_equal length) in Hnil.
  rewrite colv_length, Hl in Hnil. simpl in Hnil. lia.
Qed.

Section Body.
Variables (lcen rcen : image) (ncols : nat) (fracpix : Z) (usefracpix : bool).
Hypothesis Hshape : same_shape lcen rcen.
Hypothesis Hrows : (0 < shape0 lcen)%nat.

Lemma off_b_spec o : off_b lcen rcen ncols o = true ↔ off_detector lcen rcen ncols o.
Proof.
  destruct Hshape as (Hwl & Hwr & H0 & H1).
  destruct (min_nonempty (colv lcen o)) as [mn Hmn].
  { apply colv_nonempty; assumption. }
  destruct (max_nonempty (colv rcen o)) as [mx Hmx].
  { apply colv_nonempty; [assumption|lia]. }
  unfold off_b, off_detector. rewrite Hmn, Hmx.
  rewrite orb_true_iff, !Qltb_lt.
  rewrite (min_gt_all _ _ _ Hmn), (max_lt_all _ _ _ Hmx). reflexivity.
Qed.

Lemma narrow_b_spec o :
  narrow_b lcen rcen fracpix o = true ↔ too_narrow lcen rcen (inject_Z fracpix) o.
Proof.
  unfold narrow_b, too_narrow, median_below.
  destruct (median _) as [md|]; split.
  - intros H. exists md. split; [reflexivity|]. apply Qltb_lt. exact H.
  - intros (md' & [= <-] & H). apply Qltb_lt. exact H.
  - discriminate.
  - intros (md' & Hn & _). discriminate.
Qed.

Lemma dropped_b_spec o :
  dropped_b lcen rcen ncols fracpix usefracpix o = true
  ↔ drop_rule lcen rcen ncols (inject_Z fracpix) usefracpix o.
Proof.
  unfold dropped_b, drop_rule.
  rewrite orb_true_iff, andb_true_iff, off_b_spec, narrow_b_spec. reflexivity.
Qed.

Lemma trim_body_wf o :
  (o < shape1 lcen)%nat →
  trim_body lcen rcen ncols fracpix usefracpix o
  = OK (dropped_b lcen rcen ncols fracpix usefracpix o,
        messages_of lcen rcen ncols fracpix usefracpix o).
Proof.
  intros Ho. destruct Hshape as (Hwl & Hwr & H0 & H1).
  unfold trim_body, dropped_b, messages_of, off_b, narrow_b.
  rewrite (col_wf lcen o Hwl Ho). rewrite (col_wf rcen o Hwr) by lia.
  fold (colv lcen o). fold (colv rcen o). simpl.
  destruct (min_nonempty (colv lcen o)) as [mn Hmn].
  { apply colv_nonempty; assumption. }
  destruct (max_nonempty (colv rcen o)) as [mx Hmx].
  { apply colv_nonempty; [assumption|lia]. }
  rewrite Hmn, Hmx. simpl.
  assert (Hb : broadcast2 Qminus (colv rcen o) (colv lcen o)
               = OK (zip_with Qminus (colv rcen o) (colv lcen o))).
  { unfold broadcast2. rewrite decide_True; [reflexivity|].
    rewrite !colv_length. destruct Hwl as [-> _], Hwr as [-> _]. lia. }
  destruct (Qltb (inject_Z (Z.of_nat ncols)) mn); simpl.
  - destruct usefracpix; simpl; [|reflexivity].
    rewrite Hb. simpl. destruct (median_below _ _); reflexivity.
  - destruct (Qltb mx 0); simpl.
    + destruct usefracpix; simpl; [|reflexivity].
      rewrite Hb. simpl. destruct (median_below _ _); reflexivity.
    + destruct usefracpix; simpl; [|reflexivity].
      rewrite Hb. simpl. destruct (median_below _ _); reflexivity.
Qed.

Lemma trim_loop_wf os :
  Forall (λ o, (o < shape1 lcen)%nat) os →
  trim_loop lcen rcen ncols fracpix usefracpix os
  = OK (map (dropped_b lcen rcen ncols fracpix usefracpix) os,
        concat (map (messages_of lcen rcen ncols fracpix usefracpix) os)).
Proof.
  induction 1 as [|o os Ho Hos IH]; simpl; [reflexivity|].
  rewrite (trim_body_wf o Ho). simpl. rewrite IH. reflexivity.
Qed.
End Body.

Lemma where_false_map (f : nat → bool) n k :
  where_false k (map f (seq k n)) = filter (λ o, f o = false) (seq k n).
Proof.
  revert k. induction n as [|n IH]; intros k; simpl; [reflexivity|].
  rewrite IH. rewrite filter_cons. destruct (f k) eqn:Hf.
  - rewrite decide_False by congruence. reflexivity.
  - rewrite decide_True by reflexivity. reflexivity.
Qed.

Lemma filter_seq_increasing (P : nat → Prop) `{∀ o, Decision (P o)} k n i j oi oj :
  filter P (seq k n) !! i = Some oi → filter P (seq k n) !! j = Some oj →
  (i < j)%nat → (oi < oj)%nat.
Proof.
  revert k i j. induction n as [|n IH]; intros k i j; simpl; [discriminate|].
  rewrite filter_cons. destruct (decide (P k)) as [Hk|Hk].
  - destruct i as [|i]; destruct j as [|j]; simpl; try lia.
    + intros [= <-] Hj _. apply list_elem_of_lookup_2 in Hj.
      apply list_elem_of_filter in Hj as [_ Hj]. apply elem_of_seq in Hj. lia.
    + intros Hi Hj Hlt. apply (IH (S k) i j); [assumption..|lia].
  - apply IH.
Qed.

Lemma take_cols_wf (a : image) idx :
  wf a → Forall (λ j, (j < shape1 a)%nat) idx →
  take_cols a idx
  = OK (mk_ndarray (shape0 a) (length idx)
          (map (λ r, map (λ j, nth j r 0%Q) idx) (rows a))).
Proof.
  intros [_ Hr] Hidx. unfold take_cols. rewrite decide_True by exact Hidx.
  rewrite (mapR_total _ (λ r, map (λ j, nth j r 0%Q) idx)); [reflexivity|].
  eapply Forall_impl; [exact Hr|]. intros r Hlen. simpl in Hlen.
  apply mapR_total. eapply Forall_impl; [exact Hidx|]. intros j Hj. simpl in Hj.
  destruct (r !! j) as [v|] eqn:Hv.
  - simpl. f_equal. symmetry. apply nth_lookup_Some with (d := 0%Q) in Hv. exact Hv.
  - apply lookup_ge_None in Hv. lia.
Qed.

Lemma get_take_cols (a : image) idx r i o :
  wf a → Forall (λ j, (j < shape1 a)%nat) idx → idx !! i = Some o →
  get (mk_ndarray (shape0 a) (length idx)
         (map (λ r, map (λ j, nth j r 0%Q) idx) (rows a))) r i
  = get a r o.
Proof.
  intros [_ Hr] Hidx Hi. unfold get. simpl.
  rewrite list_lookup_fmap. destruct (rows a !! r) as [row|] eqn:Hrow; simpl; [|reflexivity].
  rewrite list_lookup_fmap, Hi. simpl.
  assert (Hlen : length row = shape1 a).
  { rewrite Forall_forall in Hr. apply Hr. eapply list_elem_of_lookup_2. exact Hrow. }
  assert (Ho : (o < shape1 a)%nat).
  { rewrite Forall_forall in Hidx. apply Hidx. eapply list_elem_of_lookup_2. exact Hi. }
  destruct (row !! o) as [v|] eqn:Hv.
  - f_equal. apply nth_lookup_Some with (d := 0%Q) in Hv. exact Hv.
  - apply lookup_ge_None in Hv. lia.
Qed.

Lemma take_cols_wf_result (a : image) idx :
  wf a → wf (mk_ndarray (shape0 a) (length idx)
               (map (λ r, map (λ j, nth j r 0%Q) idx) (rows a))).
Proof.
  intros [Hl _]. split; simpl.
  - rewrite length_map. exact Hl.
  - apply Forall_forall. intros r Hr. apply list_elem_of_fmap in Hr as (r0 & -> & _).
    apply length_map.
Qed.

End TrimFacts.

Module Trimming.
Import Np NpFacts TraceSlits TrimSpec TrimFacts TrimExamples.

Lemma elem_of_concat {A} (x : A) (ls : list (list A)) :
  x ∈ concat ls ↔ ∃ l, x ∈ l ∧ l ∈ ls.
Proof.
  induction ls as [|l ls IH]; simpl.
  - split; [intros H; inversion H | intros (l & _ & H); inversion H].
  - rewrite elem_of_app, IH. split.
    + intros [H|(l' & H1 & H2)]; [exists l | exists l'];
        (split; [assumption|]); [left | right; assumption].
    + intros (l' & H1 & H2). apply elem_of_cons in H2 as [->|H2]; [left; exact H1|].
      right. exists l'. split; assumption.
Qed.


Lemma take_cols_OK {A} (a a' : ndarray A) idx :
  take_cols a idx = OK a' →
  shape0 a' = shape0 a ∧ shape1 a' = length idx
  ∧ Forall2 (λ r r', Forall2 (λ j v, r !! j = Some v) idx r') (rows a) (rows a').
Proof.
  unfold take_cols. destruct (decide _) as [_|_]; [|discriminate].
  destruct (mapR _ (rows a)) as [rs|e] eqn:Hm; simpl; [|discriminate].
  intros [= <-]. simpl. split; [reflexivity|]. split; [reflexivity|].
  apply mapR_Forall2 in Hm. eapply Forall2_impl; [exact Hm|].
  intros r r' Hr. simpl in Hr. apply mapR_Forall2 in Hr.
  eapply Forall2_impl; [exact Hr|]. intros j v Hj. simpl in Hj.
  destruct (r !! j); simpl in Hj; congruence.
Qed.

Lemma take_cols_get {A} (a a' : ndarray A) idx r i v :
  take_cols a idx = OK a' → get a' r i = Some v →
  ∃ o, idx !! i = Some o ∧ get a r o = Some v.
Proof.
  intros Ht Hg. apply take_cols_OK in Ht as (_ & _ & HF).
  unfold get in *. destruct (rows a' !! r) as [r'|] eqn:Hr'; simpl in Hg; [|discriminate].
  destruct (Forall2_lookup_r _ _ _ _ _ HF Hr') as (r0 & Hr0 & HF').
  destruct (Forall2_lookup_r _ _ _ _ _ HF' Hg) as (o & Ho & Hv).
  exists o. split; [exact Ho|]. rewrite Hr0. simpl. exact Hv.
Qed.

Lemma take_cols_row_lengths {A} (a a' : ndarray A) idx :
  take_cols a idx = OK a' → Forall (λ r, length r = shape1 a') (rows a').
Proof.
  intros Ht. apply take_cols_OK in Ht as (_ & -> & HF).
  apply Forall_forall. intros r' Hr'.
  apply list_elem_of_lookup in Hr' as [i Hi].
  destruct (Forall2_lookup_r _ _ _ _ _ HF Hi) as (r0 & _ & HF').
  symmetry. eapply Forall2_length. exact HF'.
Qed.

Lemma trim_arrays_OK lc rc ncols fi u lc' rc' msgs :
  trim_arrays lc rc ncols fi u = OK (lc', rc', msgs) →
  ∃ wok, take_cols lc wok = OK lc' ∧ take_cols rc wok = OK rc'.
Proof.
  unfold trim_arrays.
  destruct (trim_loop _ _ _ _ _ _) as [[mask ms]|e]; simpl; [|discriminate].
  destruct (take_cols lc _) as [l|e] eqn:Hl; simpl; [|discriminate].
  destruct (take_cols rc _) as [r|e] eqn:Hr; simpl; [|discriminate].
  intros [= <- <- <-]. eexists. split; eassumption.
Qed.





End Trimming.

(** ** Edge matching *)

Module Matching.
Import TraceSlits.

(** C2.  Once [new_match_edges] has returned the counts [l] and [r] of
    left and right fragments, [_match_edges] raises the fatal error when
    [l] or [r] reaches or exceeds [ednum]; otherwise it succeeds,
    recording the relabelled edge map, the two counts and its step. *)
Theorem match_edges_overflow_guard `{ext : Collaborators} s ea ea' l r :
  edgearr s = Some ea →
  new_match_edges ea (ednum s) = OK (ea', l, r) →
  _match_edges s
  = if decide (ednum s ≤ l ∨ ednum s ≤ r)
    then Raise (PypitError overflow_msg)
    else OK (add_step "_match_edges"
               (set_rcnt (Some r) (set_lcnt (Some l) (set_edgearr (Some ea') s)))).
Proof.
  intros Hea Hm. unfold _match_edges. rewrite Hea. simpl. rewrite Hm. simpl.
  destruct (decide _); reflexivity.
Qed.

Lemma match_edges_overflow_guard_witness :
  edgearr Toy.labelled_tracer = Some (Toy.bracket_edges 2 4)
  ∧ new_match_edges (Collaborators := Toy.collaborators)
      (Toy.bracket_edges 2 4) (ednum Toy.labelled_tracer)
    = OK (Toy.bracket_edges 2 4, 1, 1)
  ∧ _match_edges (ext := Toy.collaborators) Toy.labelled_tracer
    = OK (add_step "_match_edges"
            (set_rcnt (Some 1) (set_lcnt (Some 1)
               (set_edgearr (Some (Toy.bracket_edges 2 4)) Toy.labelled_tracer)))).
Proof.
  split; [reflexivity|]. split; [vm_compute; reflexivity|].
  rewrite (match_edges_overflow_guard (ext := Toy.collaborators) Toy.labelled_tracer
             (Toy.bracket_edges 2 4) (Toy.bracket_edges 2 4) 1 1);
    [reflexivity | reflexivity | vm_compute; reflexivity].
Defined.

(** With [ednum = 1] a single left fragment already reaches the bound. *)
Example match_edges_overflow_run :
  _match_edges (ext := Toy.collaborators) Toy.crowded_tracer
  = Raise (PypitError overflow_msg).
Proof. vm_compute. reflexivity. Qed.

End Matching.

(** ** The driver [run] *)

Module Running.
Import TraceSlits RunSpec.

Lemma bind_OK {A B} (m : res A) (f : A → res B) b :
  m ≫= f = OK b → ∃ a, m = OK a ∧ f a = OK b.
Proof. destruct m as [a|e]; simpl; [eauto | discriminate]. Qed.

Lemma frame_refl s : frame [] s s.
Proof. unfold frame. rewrite app_nil_r. auto. Qed.

Lemma frame_trans a b s1 s2 s3 :
  frame a s1 s2 → frame b s2 s3 → frame (a ++ b) s1 s3.
Proof.
  intros (H1 & H2 & H3) (H4 & H5 & H6). unfold frame.
  rewrite H4, H1, H5, H2, H6, H3, app_assoc. auto.
Qed.

(** Splits the hypothesis [H : m ≫= f = OK b] as long as it is a bind. *)
Ltac split_binds H :=
  repeat match type of H with
  | _ ≫= _ = OK _ =>
      let a := fresh "a" in let Ha := fresh "Ha" in
      apply bind_OK in H as (a & Ha & H)
  | (let '(_, _) := ?p in _) = OK _ => destruct p
  | (if ?c then _ else _) = OK _ => destruct c
  | Raise _ = OK _ => discriminate H
  end.

Ltac frame_of_OK H :=
  split_binds H; injection H as <-; unfold frame, add_step, msgs_info; simpl;
  rewrite ?app_nil_r; auto.

Section Frames.
Context `{ext : Collaborators}.

Lemma frame_edgearr_single_slit s s' :
  _edgearr_single_slit s = OK s' → frame ["_edgearr_single_slit"] s s'.
Proof. unfold _edgearr_single_slit. intros H. frame_of_OK H. Qed.

Lemma frame_match_edges s s' :
  _match_edges s = OK s' → frame ["_match_edges"] s s'.
Proof. unfold _match_edges, msgs_error. intros H. frame_of_OK H. Qed.

Lemma frame_add_left_right s s' :
  _add_left_right s = OK s' → frame ["_add_left_right"] s s'.
Proof. unfold _add_left_right. intros H. frame_of_OK H. Qed.

Lemma frame_maxgap_prep s s' :
  _maxgap_prep s = OK s' → frame ["_maxgap_prep"] s s'.
Proof. unfold _maxgap_prep. intros H. frame_of_OK H. Qed.

Lemma frame_assign_edges s s' :
  _assign_edges s = OK s' → frame ["_assign_edges"] s s'.
Proof. unfold _assign_edges. intros H. frame_of_OK H. Qed.

Lemma frame_maxgap_close s s' :
  _maxgap_close s = OK s' → frame ["_maxgap_close"] s s'.
Proof. unfold _maxgap_close. intros H. frame_of_OK H. Qed.

Lemma frame_final_left_right s s' :
  _final_left_right s = OK s' → frame ["_final_left_right"] s s'.
Proof. unfold _final_left_right. intros H. frame_of_OK H. Qed.

Lemma frame_mslit_tcrude s s' :
  _mslit_tcrude s = OK s' → frame ["_mslit_tcrude"] s s'.
Proof. unfold _mslit_tcrude. intros H. frame_of_OK H. Qed.

Lemma frame_mslit_sync s s' :
  _mslit_sync s = OK s' → frame ["_mslit_sync"] s s'.
Proof. unfold _mslit_sync. intros H. frame_of_OK H. Qed.

Lemma frame_reset_edgearr_ednum s s' :
  reset_edgearr_ednum s = OK s' → frame [] s s'.
Proof. unfold reset_edgearr_ednum. intros H. frame_of_OK H. Qed.

Lemma frame_ignore_orders s s' :
  _ignore_orders s = OK s' → frame ["_ignore_orders"] s s'.
Proof. unfold _ignore_orders. intros H. frame_of_OK H. Qed.

Lemma frame_set_lrminx s s' :
  _set_lrminx s = OK s' → frame [] s s'.
Proof. unfold _set_lrminx. intros H. frame_of_OK H. Qed.

Lemma frame_fit_edges side s s' :
  _fit_edges side s = OK s' → frame ["_fit_edges_" +:+ side] s s'.
Proof.
  unfold _fit_edges. intros H. split_binds H. injection H as <-.
  destruct (decide (side = "left")); frame_of_OK Ha0.
Qed.

Lemma frame_chk_for_longslit s b s' :
  _chk_for_longslit s = OK (b, s') → frame [] s s'.
Proof.
  unfold _chk_for_longslit. intros H. split_binds H.
  - split_binds H. injection H as <- <-. unfold frame, msgs_info; simpl.
    rewrite ?app_nil_r; auto.
  - injection H as <- <-. apply frame_refl.
  - injection H as <- <-. apply frame_refl.
Qed.

Lemma frame_synchronize s s' :
  _synchronize s = OK s' → frame ["_synchronize"] s s'.
Proof. unfold _synchronize. intros H. frame_of_OK H. Qed.

Lemma frame_pca s s' :
  _pca s = OK s' → frame (pca_steps (pca_type (settings s))) s s'.
Proof.
  unfold _pca, pca_steps. intros H.
  destruct (decide (pca_type (settings s) = "order")).
  { unfold _pca_order_slit_edges in H. frame_of_OK H. }
  destruct (decide (pca_type (settings s) = "pixel")).
  { unfold _pca_pixel_slit_edges in H. frame_of_OK H. }
  frame_of_OK H.
Qed.

Lemma frame_trim_slits u s s' :
  _trim_slits u s = OK s' → frame ["_trim_slits"] s s'.
Proof. unfold _trim_slits. intros H. frame_of_OK H. Qed.

Lemma frame_when (c : bool) m a s s' :
  (∀ s s', m s = OK s' → frame a s s') →
  when c m s = OK s' → frame (if c then a else []) s s'.
Proof.
  intros Hm. unfold when. destruct c; [apply Hm|].
  intros [= <-]. apply frame_refl.
Qed.

Lemma frame_add_user_slits us s s' :
  add_user_slits us false s = OK s' → frame ["add_user_slits"] s s'.
Proof.
  unfold add_user_slits. intros H.
  apply bind_OK in H as (s1 & H1 & H). apply frame_reset_edgearr_ednum in H1.
  split_binds H. injection Ha1 as <-. injection H as <-.
  destruct H1 as (E1 & E2 & E3).
  unfold frame, add_step; simpl. rewrite E1, E2, E3, app_nil_r. auto.
Qed.

(** Extends the frame [F : frame acc t sk] by [Hk : frame a sk sk'],
    in which [a] may depend on the settings of [sk]. *)
Ltac chain F Hk :=
  let T := fresh "T" in
  pose proof F as (_ & T & _); rewrite ?T in Hk; clear T;
  let F' := fresh "F" in
  pose proof (frame_trans _ _ _ _ _ F Hk) as F'; clear F Hk; rename F' into F.

(** The steps of a run in which the user supplied the single slit. *)
Lemma run_steps_user armlsd ignore_orders add_user s s' :
  (0 < length (single (settings s)))%nat →
  run armlsd ignore_orders add_user s = OK s' →
  user_set s' = Some true
  ∧ ∃ longslit,
      steps s' = steps s
                 ++ user_run_steps (bool_decide (maxgap (settings s) ≠ None)) armlsd
                      (bool_decide (add_user ≠ None)) ignore_orders
                 ++ after_fit_steps (pca_type (settings s)) longslit.
Proof.
  intros Hsingle H. unfold run in H.
  rewrite decide_True in H by exact Hsingle.
  apply bind_OK in H as (s1 & H1 & H).
  apply bind_OK in H1 as (s0 & H0 & H1). injection H1 as <-.
  apply frame_edgearr_single_slit in H0 as (E0 & T0 & _).
  set (t1 := set_user_set (Some true) s0) in *.
  assert (F1 : steps t1 = steps s ++ ["_edgearr_single_slit"]
               ∧ settings t1 = settings s ∧ user_set t1 = Some true).
  { subst t1. simpl. auto. }
  clearbody t1. clear E0 T0 s0. destruct F1 as (E1 & T1 & U1).
  pose proof (frame_refl t1) as F.
  apply bind_OK in H as (s2 & H2 & H). apply frame_match_edges in H2. chain F H2.
  apply bind_OK in H as (s3 & H3 & H). apply frame_add_left_right in H3. chain F H3.
  apply bind_OK in H as (s4 & H4 & H).
  apply (frame_when _ _ _ _ _ frame_maxgap_prep) in H4. chain F H4.
  apply bind_OK in H as (s5 & H5 & H). apply frame_assign_edges in H5. chain F H5.
  apply bind_OK in H as (s6 & H6 & H).
  apply (frame_when _ _ _ _ _ frame_maxgap_close) in H6. chain F H6.
  apply bind_OK in H as (s7 & H7 & H).
  assert (U6 : user_set s6 = Some true).
  { destruct F as (_ & _ & ->). exact U1. }
  rewrite U6 in H7.
  rewrite bool_decide_eq_false_2 in H7 by (intros Hn; apply Hn; reflexivity).
  injection H7 as <-.
  apply bind_OK in H as (s8 & H8 & H).
  apply (frame_when _ _ _ _ _ frame_mslit_tcrude) in H8. chain F H8.
  apply bind_OK in H as (s9 & H9 & H).
  apply (frame_when _ _ _ _ _ frame_mslit_sync) in H9. chain F H9.
  apply bind_OK in H as (s10 & H10 & H).
  assert (F10 : frame (if bool_decide (add_user ≠ None) then ["add_user_slits"] else [])
                  s9 s10).
  { destruct add_user as [us|].
    - apply frame_add_user_slits in H10. exact H10.
    - injection H10 as <-. apply frame_refl. }
  clear H10. chain F F10.
  apply bind_OK in H as (s11 & H11 & H).
  apply (frame_when _ _ _ _ _ frame_ignore_orders) in H11. chain F H11.
  apply bind_OK in H as (s12 & H12 & H). apply frame_set_lrminx in H12. chain F H12.
  apply bind_OK in H as (s13 & H13 & H). apply frame_fit_edges in H13. chain F H13.
  apply bind_OK in H as (s14 & H14 & H). apply frame_fit_edges in H14. chain F H14.
  apply bind_OK in H as ([done_ s15] & H15 & H).
  apply frame_chk_for_longslit in H15. chain F H15.
  apply bind_OK in H as (s16 & H16 & H).
  assert (F16 : frame (after_fit_steps (pca_type (settings s15)) done_) s15 s16).
  { destruct done_; simpl.
    - injection H16 as <-. unfold frame. simpl. rewrite app_nil_r. auto.
    - apply bind_OK in H16 as (sa & Ha & H16). apply frame_synchronize in Ha.
      apply bind_OK in H16 as (sb & Hb & H16). apply frame_pca in Hb.
      apply frame_trim_slits in H16.
      assert (Ts : settings sa = settings s15) by (destruct Ha as (_ & Ts & _); exact Ts).
      rewrite Ts in Hb.
      pose proof (frame_trans _ _ _ _ _ Ha Hb) as F'.
      pose proof (frame_trans _ _ _ _ _ F' H16) as F''.
      rewrite <- app_assoc in F''. exact F''. }
  clear H16. chain F F16.
  destruct F as (E & T & U).
  split_binds H. injection H as <-. unfold msgs_info. simpl.
  split.
  - rewrite U. exact U1.
  - exists done_. rewrite E, E1, T1. unfold user_run_steps.
    destruct (bool_decide (maxgap (settings s) ≠ None)), armlsd,
      (bool_decide (add_user ≠ None)), ignore_orders; simpl;
      rewrite <- ?app_assoc; simpl; reflexivity.
Qed.

Lemma edgearr_single_slit_OK s s0 :
  _edgearr_single_slit s = OK s0 →
  siglev s0 = None
  ∧ ∃ d ledge redge ea,
      det s = Some d
      ∧ Np.py_index (single (settings s)) ((d - 1) * 2) = OK ledge
      ∧ Np.py_index (single (settings s)) ((d - 1) * 2 + 1) = OK redge
      ∧ edgearr_from_user (Np.shape0 (mstrace s), Np.shape1 (mstrace s)) ledge redge d
        = OK ea
      ∧ edgearr s0 = Some ea.
Proof.
  unfold _edgearr_single_slit. intros H.
  apply bind_OK in H as (d & Hd & H).
  apply bind_OK in H as (ledge & Hl & H).
  apply bind_OK in H as (redge & Hr & H).
  apply bind_OK in H as (ea & He & H). injection H as <-.
  split; [reflexivity|].
  destruct (det s) as [d'|]; [|discriminate]. injection Hd as ->.
  exists d, ledge, redge, ea. auto.
Qed.

Lemma run_first_step_user armlsd ignore_orders add_user s s' :
  (0 < length (single (settings s)))%nat →
  run armlsd ignore_orders add_user s = OK s' →
  ∃ s0, _edgearr_single_slit s = OK s0.
Proof.
  intros Hsingle H. unfold run in H.
  rewrite decide_True in H by exact Hsingle.
  apply bind_OK in H as (s1 & H1 & H).
  apply bind_OK in H1 as (s0 & H0 & H1). eauto.
Qed.

End Frames.


End Running.

(** ** Resuming at the fitting phase *)

Module Resume.
Import TraceSlits ResumeSpec.

Lemma bind_agree {A B V W : Type} (v : A → V) (w : B → W) (f : A → res B)
  (m1 m2 : res A) :
v <$> m1 = v <$> m2 →
(∀ a b, v a = v b → w <$> f a = w <$> f b) →
w <$> (m1 ≫= f) = w <$> (m2 ≫= f).
Proof.
intros Hm Hf. destruct m1 as [a|e], m2 as [b|e']; simpl in *; try discriminate.
- injection Hm as Hv. apply Hf. exact Hv.
- injection Hm as ->. reflexivity.
Qed.

(** Compares one method on two tracers that agree on what it reads: the
  readings of the first are rewritten into those of the second. *)
Ltac same_reads H :=
unfold after_check, with_sync, with_fits, with_left_fit, with_ranges, fit_inputs,
  before_trim, edge_curves in H;
cbn in H;
repeat match goal with
       | E : (_, _) = (_, _) |- _ => injection E as ? ?
       end.

Ltac use_reads :=
repeat match goal with
       | E : _ = _ |- _ => progress rewrite E
       end.

Ltac same_result :=
unfold after_check, with_sync, with_fits, with_left_fit, with_ranges, fit_inputs,
  before_trim, edge_curves, mbind, res_bind, fmap, res_fmap, attr, operand, of_option;
simpl; use_reads;
repeat (match goal with
        | |- context [match ?x with _ => _ end] =>
            lazymatch x with
            | context [match _ with _ => _ end] => fail
            | _ => destruct x eqn:?
            end
        end; simpl; use_reads);
reflexivity.

Section Resume.
Context `{ext : Collaborators}.

Lemma set_lrminx_agree s t :
fit_inputs s = fit_inputs t →
with_ranges <$> _set_lrminx s = with_ranges <$> _set_lrminx t.
Proof.
intros H. same_reads H.
unfold _set_lrminx. same_result.
Qed.

Lemma fit_left_agree s t :
with_ranges s = with_ranges t →
with_left_fit <$> _fit_edges "left" s = with_left_fit <$> _fit_edges "left" t.
Proof.
intros H. same_reads H.
unfold _fit_edges, attr, operand, of_option, plxbin, plybin, add_step. same_result.
Qed.

Lemma fit_right_agree s t :
with_left_fit s = with_left_fit t →
with_fits <$> _fit_edges "right" s = with_fits <$> _fit_edges "right" t.
Proof.
intros H. same_reads H.
unfold _fit_edges, attr, operand, of_option, plxbin, plybin, add_step. same_result.
Qed.

Lemma chk_for_longslit_agree s t :
with_fits s = with_fits t →
after_check <$> _chk_for_longslit s = after_check <$> _chk_for_longslit t.
Proof.
intros H. same_reads H.
unfold _chk_for_longslit, attr, operand, of_option, plxbin, plybin, msgs_info. same_result.
Qed.

Lemma synchronize_agree s t :
with_fits s = with_fits t →
with_sync <$> _synchronize s = with_sync <$> _synchronize t.
Proof.
intros H. same_reads H.
unfold _synchronize, plxbin, plybin, add_step, msgs_info. same_result.
Qed.

Lemma pca_agree s t :
with_sync s = with_sync t →
before_trim <$> _pca s = before_trim <$> _pca t.
Proof.
intros H. same_reads H.
unfold _pca, _pca_order_slit_edges, _pca_pixel_slit_edges, plxbin, plybin, add_step.
same_result.
Qed.

Lemma trim_slits_agree u s t :
before_trim s = before_trim t →
edge_curves <$> _trim_slits u s = edge_curves <$> _trim_slits u t.
Proof.
intros H. same_reads H.
unfold _trim_slits, add_step. same_result.
Qed.

(** The edge curves that the fitting phase produces depend on the trace
image, the pixel locations, the settings, the edge map and the
filtered image only. *)
Lemma fit_phase_depends_on_inputs armlsd s t :
fit_inputs s = fit_inputs t →
edge_curves <$> fit_phase armlsd s = edge_curves <$> fit_phase armlsd t.
Proof.
intros H. unfold fit_phase.
apply (bind_agree with_ranges); [apply set_lrminx_agree; exact H|].
clear s t H. intros s t H.
apply (bind_agree with_left_fit); [apply fit_left_agree; exact H|].
clear s t H. intros s t H.
apply (bind_agree with_fits); [apply fit_right_agree; exact H|].
clear s t H. intros s t H.
apply (bind_agree after_check); [apply chk_for_longslit_agree; exact H|].
clear s t H. intros [d s] [d' t] H. unfold after_check in H. cbn [fst snd] in H.
assert (Hd : d = d') by congruence. subst d'.
assert (Hfits : with_fits s = with_fits t) by congruence.
destruct d.
- assert (Hcurves : edge_curves s = edge_curves t) by congruence.
unfold edge_curves in *. simpl. congruence.
- apply (bind_agree with_sync); [apply synchronize_agree; exact Hfits|].
clear s t H Hfits. intros s t H.
apply (bind_agree before_trim); [apply pca_agree; exact H|].
clear s t H. intros s t H.
apply trim_slits_agree. exact H.
Qed.
End Resume.
End Resume.

(** ** Writing and reloading the tracing state *)

Module Persistence.
Import TraceSlits.

Lemma fits_json_names_differ root : root +:+ ".fits" ≠ root +:+ ".json".
Proof. induction root as [|c root IH]; simpl; [discriminate|]. intros [= H]. auto. Qed.

Section RoundTrip.
Context `{ext : Collaborators}.

Lemma read_fits root s fs :
  (write root s fs).1 !! (root +:+ ".fits") = Some (Fits (write_hdul s)).
Proof.
  unfold write. simpl. rewrite lookup_insert_ne by (symmetry; apply fits_json_names_differ).
  apply lookup_insert_eq.
Qed.

Lemma read_json root s fs :
  (write root s fs).1 !! (root +:+ ".json") = Some (Json (write_dict s)).
Proof. unfold write. simpl. apply lookup_insert_eq. Qed.

Lemma json_settings s : json_get (write_dict s) "settings" = OK (JSettings (settings s)).
Proof.
  unfold json_get, write_dict. destruct (tc_dict s); simpl;
    rewrite lookup_insert_ne by discriminate;
    [rewrite lookup_insert_ne by discriminate|]; rewrite lookup_insert_eq; reflexivity.
Qed.

Lemma json_steps s : json_get (write_dict s) "steps" = OK (JSteps (steps s)).
Proof. unfold json_get, write_dict. rewrite lookup_insert_eq. reflexivity. Qed.

Lemma json_tc_dict s :
  json_get (write_dict s) "tc_dict"
  = match tc_dict s with
    | Some tc => OK (JTcDict tc)
    | None => Raise (KeyError "tc_dict")
    end.
Proof.
  unfold json_get, write_dict. rewrite lookup_insert_ne by discriminate.
  destruct (tc_dict s).
  - rewrite lookup_insert_eq. reflexivity.
  - rewrite lookup_insert_ne by discriminate. rewrite lookup_empty. reflexivity.
Qed.

(** C9, the failing case.  A state without [tc_dict] is written without
    the key, and reading it back raises [KeyError]. *)
Theorem from_files_without_tc_dict root s fs :
  tc_dict s = None →
  from_files root (write root s fs).1 = Raise (KeyError "tc_dict").
Proof.
  intros Htc.
  pose proof (read_fits root s fs) as Hf.
  pose proof (read_json root s fs) as Hj.
  generalize dependent (write root s fs).1. intros fs' Hf Hj.
  pose proof (json_settings s) as Hset.
  pose proof (json_steps s) as Hstp.
  pose proof (json_tc_dict s) as Htcd. rewrite Htc in Htcd.
  generalize dependent (write_dict s). intros d Hj Hset Hstp Htcd.
  unfold from_files. rewrite Hf. unfold write_hdul.
  destruct (lcen s) as [l|].
  - destruct (rcen s) as [r|], (edgearr s) as [ea|], (siglev s) as [sl|], (input_binbpx s);
      cbn -[json_get init]; rewrite Hj; cbn -[json_get init];
      rewrite Hset; cbn -[json_get init]; rewrite Hstp; cbn -[json_get init];
      rewrite Htcd; reflexivity.
  - destruct (edgearr s) as [ea|], (siglev s) as [sl|], (input_binbpx s);
      cbn -[json_get init]; rewrite Hj; cbn -[json_get init];
      rewrite Hset; cbn -[json_get init]; rewrite Hstp; cbn -[json_get init];
      rewrite Htcd; reflexivity.
Qed.
End RoundTrip.

Lemma from_files_without_tc_dict_witness :
  tc_dict Toy.auto_tracer = None
  ∧ from_files (ext := Toy.collaborators) "trace"
      (write "trace" Toy.auto_tracer ∅).1
    = Raise (KeyError "tc_dict").
Proof.
  assert (H1 : tc_dict Toy.auto_tracer = None) by reflexivity.
  split; [exact H1|].
  exact (from_files_without_tc_dict (ext := Toy.collaborators) "trace"
           Toy.auto_tracer ∅ H1).
Defined.
End Persistence.

(** ** The DEIMOS optical model: grating and slit mask *)

Module OpticalModelFacts.
Import KeckDEIMOS DeimosExamples.

Section Calls.
Variable slit_centers : list (list (Q * Q)) → list (Q * Q).
Variable mask_to_imaging_coordinates :
  DEIMOSOpticalModel → list Q → list Q → option Q → Z → res (list Q * list Q).
Variable ccd_coordinates :
  DEIMOSDetectorMap → list Q → list Q → res (list Z * list Q * list Q).

Abbreviation mtpc := (mask_to_pixel_coordinates slit_centers mask_to_imaging_coordinates
                    ccd_coordinates).

(** [get_grating] changes the grating only, and the grating it builds
    does not depend on the object. *)
Lemma get_grating_OK f self g self' :
  get_grating f self = OK (g, self') →
  grating self' = g ∧ slitmask self' = slitmask self
  ∧ ∀ other, ∃ other', get_grating f other = OK (g, other').
Proof.
  unfold get_grating.
  destruct (decide (GRATEPOS (header f) = 3));
    destruct (ruling_of_name _) as [r|]; simpl; try discriminate;
    destruct (_grating_orientation _ _ _) as [[[ro ya] ti]|]; simpl; try discriminate;
    intros [= <- <-]; simpl; eauto.
Qed.

Lemma get_grating_raises f self other :
  raises (get_grating f self) → raises (get_grating f other).
Proof.
  intros [e He]. destruct (get_grating f other) as [[g o']|e'] eqn:Ho.
  - apply get_grating_OK in Ho as (_ & _ & Hall).
    destruct (Hall self) as (s' & Hs). congruence.
  - eexists. reflexivity.
Qed.

Lemma get_slitmask_OK f self m self' :
  get_slitmask slit_centers f self = OK (m, self') →
  slitmask self' = Some m ∧ grating self' = grating self.
Proof.
  unfold get_slitmask. destruct (bluslits f); simpl; [|discriminate].
  intros [= <- <-]. auto.
Qed.

Lemma call_raises_without x y wave order filename self :
  (x = None ∧ y = None ∧ slitmask self = None
   ∧ ¬ (∃ f, filename = Some f ∧ is_OK (get_slitmask slit_centers f self)))
  ∨ (grating self = None
     ∧ ¬ (∃ f g self', filename = Some f ∧ get_grating f self = OK (Some g, self'))) →
  raises (mtpc x y wave order filename self).
Proof.
  intros Hno. unfold mask_to_pixel_coordinates.
  destruct (bool_decide (x = None ∧ y ≠ None ∨ x ≠ None ∧ y = None)) eqn:Hxy;
    simpl; [eexists; reflexivity|].
  destruct filename as [f|].
  - (* a file is given *)
    destruct (bool_decide (x = None ∧ y = None)) eqn:Hnone.
    + apply bool_decide_eq_true_1 in Hnone as [-> ->].
      destruct (get_slitmask slit_centers f self) as [[m self1]|e] eqn:Hm;
        simpl; [|eexists; reflexivity].
      destruct Hno as [(_ & _ & _ & Hno)|(Hg & Hno)].
      { exfalso. apply Hno. exists f. split; [reflexivity|]. unfold is_OK. rewrite Hm. eauto. }
      apply get_slitmask_OK in Hm as (Hm1 & Hm2).
      destruct (get_grating f self1) as [[g self2]|e] eqn:Hgr;
        simpl; [|eexists; reflexivity].
      pose proof Hgr as (Hg1 & Hg2 & Hall)%get_grating_OK.
      rewrite Hg2, Hm1. simpl.
      destruct g as [g|].
      { exfalso. apply Hno. destruct (Hall self) as (self' & Hs'). eauto. }
      rewrite Hg1. simpl. eexists. reflexivity.
    + simpl. apply bool_decide_eq_false_1 in Hnone.
      destruct Hno as [(-> & -> & _)|(Hg & Hno)]; [exfalso; apply Hnone; auto|].
      destruct (get_grating f self) as [[g self2]|e] eqn:Hgr;
        simpl; [|eexists; reflexivity].
      pose proof Hgr as (Hg1 & Hg2 & Hall)%get_grating_OK.
      destruct g as [g|]; [exfalso; apply Hno; eauto|].
      destruct x as [x|], y as [y|]; simpl;
        try (exfalso; apply Hnone; auto; fail);
        try (apply bool_decide_eq_false_1 in Hxy; exfalso; apply Hxy;
             first [left; split; [reflexivity|discriminate]
                   |right; split; [discriminate|reflexivity]]).
      rewrite Hg1. simpl. eexists. reflexivity.
  - (* no file *)
    simpl.
    destruct (bool_decide (x = None ∧ y = None ∧ slitmask self = None)) eqn:H3;
      simpl; [eexists; reflexivity|].
    apply bool_decide_eq_false_1 in H3.
    destruct Hno as [(-> & -> & Hs & _)|(Hg & _)]; [exfalso; apply H3; auto|].
    destruct x as [x|], y as [y|]; simpl.
    + rewrite Hg. simpl. eexists. reflexivity.
    + apply bool_decide_eq_false_1 in Hxy. exfalso. apply Hxy.
      right. split; [discriminate|reflexivity].
    + apply bool_decide_eq_false_1 in Hxy. exfalso. apply Hxy.
      left. split; [reflexivity|discriminate].
    + destruct (slitmask self) as [m|]; [|exfalso; apply H3; auto].
      simpl. rewrite Hg. simpl. eexists. reflexivity.
Qed.

(** C5.  A call without coordinates, on an object that has no slit mask
    and with no file from which one can be read, raises; and so does a
    call on an object without grating when no file is given from which
    a grating can be built. *)
Theorem mask_to_pixel_coordinates_needs_mask_and_grating
    x y wave order filename self :
  (x = None ∧ y = None ∧ slitmask self = None
   ∧ ¬ (∃ f, filename = Some f ∧ is_OK (get_slitmask slit_centers f self)))
  ∨ (grating self = None
     ∧ ¬ (∃ f g self', filename = Some f ∧ get_grating f self = OK (Some g, self'))) →
  raises (mtpc x y wave order filename self).
Proof. apply call_raises_without. Qed.

Lemma mirror_ruling name :
  contains "Mirror" name = true → ruling_of_name name = OK 0%Q.
Proof. unfold ruling_of_name. intros ->. reflexivity. Qed.

Lemma mirror_get_grating f self :
  contains "Mirror" (GRATENAM (header f)) = true →
  GRATEPOS (header f) ∈ [2; 3; 4] →
  get_grating f self
  = OK (None, mk_Spectrograph (slitmask self) None (optical_model self)
                (detector_map self)).
Proof.
  intros Hm Hs. unfold get_grating. rewrite (mirror_ruling _ Hm).
  rewrite !elem_of_cons, elem_of_nil in Hs.
  destruct Hs as [->|[->|[->|[]]]]; reflexivity.
Qed.

(** C10 (as amended).  For a file whose grating name contains 'Mirror'
    and whose slider is 2, 3 or 4, [get_grating] finds the ruling 0 and
    stores [None] as the grating.  Every later call of
    [mask_to_pixel_coordinates], without a file or with the same file,
    raises; the error is the one about the missing grating whenever the
    call gives both coordinates, or gives none while a slit mask is
    known (call without file) or is read from the file. *)
Theorem mirror_grating_is_undefined f self :
  contains "Mirror" (GRATENAM (header f)) = true →
  GRATEPOS (header f) ∈ [2; 3; 4] →
  ruling_of_name (GRATENAM (header f)) = OK 0%Q
  ∧ ∃ self',
      get_grating f self = OK (None, self')
      ∧ grating self' = None
      ∧ ∀ x y wave order filename,
          filename = None ∨ filename = Some f →
          raises (mtpc x y wave order filename self')
          ∧ ((is_Some x ∧ is_Some y)
             ∨ (x = None ∧ y = None
                ∧ ((filename = None ∧ is_Some (slitmask self))
                   ∨ (filename = Some f ∧ is_Some (bluslits f)))) →
             mtpc x y wave order filename self' = Raise (ValueError no_grating_msg)).
Proof.
  intros Hm Hs. split; [apply mirror_ruling; exact Hm|].
  eexists. split; [apply mirror_get_grating; assumption|].
  split; [reflexivity|].
  intros x y wave order filename Hfile. split.
  - apply call_raises_without. right. split; [reflexivity|].
    intros (f' & g & self'' & Hf' & Hg).
    destruct Hfile as [->| ->]; [discriminate|]. injection Hf' as <-.
    rewrite (mirror_get_grating _ _ Hm Hs) in Hg. discriminate.
  - intros Hcoord. unfold mask_to_pixel_coordinates.
    destruct Hcoord as [([x' ->] & [y' ->])|(-> & -> & Hmask)].
    + destruct Hfile as [->| ->]; simpl.
      * reflexivity.
      * rewrite (mirror_get_grating _ _ Hm Hs). reflexivity.
    + destruct Hmask as [[-> [m Hmask]]|[-> [t Ht]]].
      * simpl. rewrite Hmask. reflexivity.
      * simpl. unfold get_slitmask. rewrite Ht. simpl.
        rewrite (mirror_get_grating _ _ Hm Hs). reflexivity.
Qed.
End Calls.

Lemma mask_to_pixel_coordinates_needs_mask_and_grating_witness :
  ((@None (list Q) = None ∧ @None (list Q) = None ∧ slitmask new_spectrograph = None
    ∧ ¬ (∃ f, @None File = Some f
              ∧ is_OK (get_slitmask slit_centers f new_spectrograph)))
   ∨ (grating new_spectrograph = None
      ∧ ¬ (∃ f g self', @None File = Some f
                        ∧ get_grating f new_spectrograph = OK (Some g, self'))))
  ∧ raises (call None None None 1 None new_spectrograph).
Proof.
  assert (H : (@None (list Q) = None ∧ @None (list Q) = None
               ∧ slitmask new_spectrograph = None
               ∧ ¬ (∃ f, @None File = Some f
                         ∧ is_OK (get_slitmask slit_centers f new_spectrograph)))
              ∨ (grating new_spectrograph = None
                 ∧ ¬ (∃ f g self', @None File = Some f
                        ∧ get_grating f new_spectrograph = OK (Some g, self')))).
  { left. repeat split; try reflexivity. intros (f & Hf & _). discriminate. }
  split; [exact H|].
  exact (mask_to_pixel_coordinates_needs_mask_and_grating slit_centers
           mask_to_imaging_coordinates ccd_coordinates None None None 1 None
           new_spectrograph H).
Defined.

Lemma mirror_grating_is_undefined_witness :
  contains "Mirror" (GRATENAM (header mirror_file)) = true
  ∧ GRATEPOS (header mirror_file) ∈ [2; 3; 4]
  ∧ ruling_of_name (GRATENAM (header mirror_file)) = OK 0%Q
  ∧ ∃ self',
      get_grating mirror_file new_spectrograph = OK (None, self')
      ∧ grating self' = None
      ∧ call (Some [1%Q]) (Some [2%Q]) None 1 (Some mirror_file) self'
        = Raise (ValueError no_grating_msg).
Proof.
  assert (Hm : contains "Mirror" (GRATENAM (header mirror_file)) = true) by reflexivity.
  assert (Hs : GRATEPOS (header mirror_file) ∈ [2; 3; 4]).
  { simpl. rewrite !elem_of_cons. tauto. }
  split; [exact Hm|]. split; [exact Hs|].
  destruct (mirror_grating_is_undefined slit_centers mask_to_imaging_coordinates
              ccd_coordinates mirror_file new_spectrograph Hm Hs)
    as (Hr & self' & Hg & Hn & Hcall).
  split; [exact Hr|]. exists self'. split; [exact Hg|]. split; [exact Hn|].
  destruct (Hcall (Some [1%Q]) (Some [2%Q]) None 1 (Some mirror_file)) as (_ & He).
  { right. reflexivity. }
  apply He. left. split; eexists; reflexivity.
Defined.

(** C10, counterexample.  After [get_grating] on a mirror file, a call
    without coordinates and without file, on an object without slit mask,
    raises the error about the missing coordinates, not the one about the
    grating. *)
Lemma mirror_call_without_coordinates :
  contains "Mirror" (GRATENAM (header mirror_file)) = true
  ∧ ∃ self',
      get_grating mirror_file new_spectrograph = OK (None, self')
      ∧ call None None None 1 None self' = Raise (ValueError no_coordinates_msg)
      ∧ ValueError no_coordinates_msg ≠ ValueError no_grating_msg.
Proof.
  split; [reflexivity|]. eexists. split; [reflexivity|].
  split; [reflexivity|]. discriminate.
Qed.

(** A mirror named in a slider without coefficients: [get_grating] raises
    before the grating is stored. *)
Example mirror_in_unknown_slider :
  contains "Mirror" (GRATENAM (header odd_slider_file)) = true
  ∧ get_grating odd_slider_file new_spectrograph = Raise (KeyError "1").
Proof. split; reflexivity. Qed.

(** The grating of the 830 line file, as in the repository's test. *)
Example grating_of_830G :
  ∃ g self', get_grating grating_file new_spectrograph = OK (Some g, self')
             ∧ (central_wave g == 8500 + (1 # 128))%Q
             ∧ (ruling g == 8319 # 10)%Q.
Proof. eexists _, _. split; [reflexivity|]. split; reflexivity. Qed.
End OpticalModelFacts.

(** ** The camera distortion *)

Module Distortion.
Import Np NpFacts KeckDEIMOS DistortionSpec.

Lemma insert_knot_length k l : length (insert_knot k l) = S (length l).
Proof.
  induction l as [|k' l IH]; simpl; [reflexivity|].
  destruct (Qle_bool _ _); simpl; [reflexivity|]. rewrite IH. reflexivity.
Qed.

Lemma sorted_knots_length l : length (foldr insert_knot [] l) = length l.
Proof.
  induction l as [|k l IH]; simpl; [reflexivity|].
  rewrite insert_knot_length, IH. reflexivity.
Qed.

Lemma new_interp1d_lengths x y it :
  new_interp1d x y = OK it →
  length (ix it) = length x ∧ length (iy it) = length x.
Proof.
  unfold new_interp1d. destruct (decide _) as [Hl|]; [|discriminate].
  intros [= <-]. simpl.
  rewrite !length_fmap, sorted_knots_length, length_zip_with. lia.
Qed.

Lemma linspace_length a b n : length (linspace a b n) = n.
Proof.
  destruct n as [|n]; [reflexivity|]. unfold linspace.
  rewrite length_map, length_seq. reflexivity.
Qed.

Lemma new_distortion_lengths c :
  new_distortion = OK c →
  length (ix (interpolator c)) = 1000%nat ∧ length (iy (interpolator c)) = 1000%nat.
Proof.
  unfold new_distortion. intros H.
  destruct (new_interp1d _ _) as [it|] eqn:Hit; simpl in H; [|discriminate].
  injection H as <-. simpl.
  apply new_interp1d_lengths in Hit. rewrite length_map, linspace_length in Hit.
  exact Hit.
Qed.

(** With at least one knot the interpolant is defined at every point. *)
Lemma interp_at_total it v :
  (0 < length (ix it))%nat → length (iy it) = length (ix it) →
  ∃ w, interp_at it v = OK w.
Proof.
  intros Hn Hl. unfold interp_at.
  set (idx := Nat.min (Nat.max (searchsorted (ix it) v) 1) (length (ix it) - 1)).
  assert (Hidx : (idx < length (ix it))%nat) by (subst idx; lia).
  destruct (lookup_lt_is_Some_2 (ix it) (idx - 1)) as [xl Hxl]; [lia|].
  destruct (lookup_lt_is_Some_2 (ix it) idx) as [xh Hxh]; [lia|].
  destruct (lookup_lt_is_Some_2 (iy it) (idx - 1)) as [yl Hyl]; [lia|].
  destruct (lookup_lt_is_Some_2 (iy it) idx) as [yh Hyh]; [lia|].
  rewrite Hxl, Hxh, Hyl, Hyh. simpl. eexists. reflexivity.
Qed.

Lemma py_index_first {A} (l : list A) : py_index l 0 = of_option IndexError (head l).
Proof. unfold py_index. rewrite decide_True by lia. destruct l; reflexivity. Qed.

Lemma py_index_last {A} (l : list A) : py_index l (-1) = of_option IndexError (last l).
Proof.
  unfold py_index. rewrite decide_False by lia.
  destruct (decide (- -1 ≤ Z.of_nat (length l))) as [H|H].
  - rewrite last_lookup. f_equal. f_equal. lia.
  - destruct l; [reflexivity|]. simpl in H. lia.
Qed.

Lemma existsb_false_Forall {A} (f : A → bool) l :
  Forall (λ v, f v = false) l → existsb f l = false.
Proof. induction 1 as [|v l Hv _ IH]; simpl; [reflexivity|]. rewrite Hv, IH. reflexivity. Qed.

Section Apply.
Variables (it : interp1d) (x0 xn : Q).
Hypothesis Hhead : head (ix it) = Some x0.
Hypothesis Hlast : last (ix it) = Some xn.
Hypothesis Hlen : length (iy it) = length (ix it).

Abbreviation inside := (DistortionSpec.inside x0 xn).

Lemma inside_spec v : inside v = true ↔ in_range x0 xn v.
Proof. unfold DistortionSpec.inside, in_range. rewrite andb_true_iff, !Qltb_lt. reflexivity. Qed.

Lemma knots_nonempty : (0 < length (ix it))%nat.
Proof. destruct (ix it); [discriminate|simpl; lia]. Qed.

(** Calling the interpolant on values inside the range never raises. *)
Lemma interp_call_inside vs :
  Forall (λ v, inside v = true) vs →
  ∃ ws, interp_call it vs = OK ws ∧ Forall2 (λ v w, interp_at it v = OK w) vs ws.
Proof.
  intros Hin. unfold interp_call.
  destruct vs as [|v0 vs0] eqn:Hvs; [exists []; split; [reflexivity|constructor]|].
  rewrite <- Hvs in *. clear Hvs v0 vs0.
  rewrite Hhead, Hlast. simpl.
  rewrite existsb_false_Forall.
  2:{ eapply Forall_impl; [exact Hin|]. intros v Hv. simpl in Hv.
      apply inside_spec in Hv as [H1 _]. apply Qltb_ge. apply Qlt_le_weak. exact H1. }
  rewrite existsb_false_Forall.
  2:{ eapply Forall_impl; [exact Hin|]. intros v Hv. simpl in Hv.
      apply inside_spec in Hv as [_ H2]. apply Qltb_ge. apply Qlt_le_weak. exact H2. }
  clear Hin. induction vs as [|v vs IH].
  - exists []. split; [reflexivity|constructor].
  - destruct (interp_at_total it v knots_nonempty Hlen) as [w Hw].
    destruct IH as (ws & Hws & HF).
    exists (w :: ws). simpl. rewrite Hw. simpl. rewrite Hws. simpl.
    split; [reflexivity|]. constructor; assumption.
Qed.

Lemma scatter_spec ys ws :
  Forall2 (λ v w, interp_at it v = OK w) (filter (λ v, inside v) ys) ws →
  length (scatter (map inside ys) (map (λ _, 0%Q) ys) ws) = length ys
  ∧ ∀ i v, ys !! i = Some v →
      (inside v = true →
       ∃ w, interp_at it v = OK w
            ∧ scatter (map inside ys) (map (λ _, 0%Q) ys) ws !! i = Some w)
      ∧ (inside v = false →
         scatter (map inside ys) (map (λ _, 0%Q) ys) ws !! i = Some 0%Q).
Proof.
  revert ws. induction ys as [|y ys IH]; intros ws HF.
  - split; [reflexivity|]. intros i v Hi. discriminate.
  - rewrite filter_cons in HF. cbn [map scatter].
    destruct (inside y) eqn:Hy.
    + rewrite decide_True in HF by exact I.
      inversion HF as [|? w ? ws' Hw HF']; subst.
      destruct (IH ws' HF') as (Hl & Hget). split; [simpl; rewrite Hl; reflexivity|].
      intros [|i] v Hi; simpl in *.
      * injection Hi as <-. split; [intros _; eauto|congruence].
      * apply Hget. exact Hi.
    + rewrite decide_False in HF by exact id.
      destruct (IH ws HF) as (Hl & Hget). split; [simpl; rewrite Hl; reflexivity|].
      intros [|i] v Hi; simpl in *.
      * injection Hi as <-. split; [congruence|reflexivity].
      * apply Hget. exact Hi.
Qed.
End Apply.

(** The constructor returns. *)
Lemma new_distortion_OK : ∃ c, new_distortion = OK c.
Proof.
  assert (H : match new_distortion with OK _ => true | Raise _ => false end = true)
    by (vm_compute; reflexivity).
  destruct new_distortion as [c|e]; [eauto|discriminate].
Qed.

(** The table of the constructor runs from the image of -0.6 to the image
    of 0.6. *)
Lemma distortion_range_ends :
  ∃ c x0 xn,
    new_distortion = OK c
    ∧ head (ix (interpolator c)) = Some x0
    ∧ last (ix (interpolator c)) = Some xn
    ∧ (x0 == remove_distortion c (- (6 # 10)))%Q
    ∧ (xn == remove_distortion c (6 # 10))%Q.
Proof.
  destruct new_distortion_OK as [c Hc].
  assert (H : match new_distortion with
              | OK c =>
                  match head (ix (interpolator c)), last (ix (interpolator c)) with
                  | Some x0, Some xn =>
                      Qeq_bool x0 (remove_distortion c (- (6 # 10)))
                      && Qeq_bool xn (remove_distortion c (6 # 10))
                  | _, _ => false
                  end
              | Raise _ => false
              end = true) by (vm_compute; reflexivity).
  rewrite Hc in H.
  destruct (head (ix (interpolator c))) as [x0|] eqn:Hh; [|discriminate].
  destruct (last (ix (interpolator c))) as [xn|] eqn:Hl; [|discriminate].
  apply andb_true_iff in H as [H1 H2].
  apply Qeq_bool_iff in H1. apply Qeq_bool_iff in H2.
  exists c, x0, xn. auto.
Qed.



(** A value beyond the table is zero-filled with a warning; the value 0
    is interpolated (and the result is 0 as a fraction). *)
Example apply_distortion_out_of_range :
  ((λ r, (map Qred r.1, r.2)) <$> (c ← new_distortion; apply_distortion c [0; 3]%Q))
  = OK ([0; 0]%Q, [warning_text])
  ∧ ((λ r, (map Qred r.1, r.2)) <$> (c ← new_distortion; apply_distortion c [0]%Q))
    = OK ([0]%Q, []).
Proof. split; vm_compute; reflexivity. Qed.

Lemma recovers_with_b_sound c x :
  new_distortion = OK c → recovers_with_b c x = true → recovers x.
Proof.
  intros Hc. unfold recovers_with_b, recovers, round_trip. rewrite Hc. simpl.
  destruct (round_trip_with c x) as [v|e]; [|discriminate].
  intros H. exists v. split; [reflexivity|]. apply Qltb_lt. exact H.
Qed.

Lemma all_recover_sound l : all_recover_b l = true → Forall recovers l.
Proof.
  unfold all_recover_b. destruct new_distortion as [c|e] eqn:Hc; [|discriminate].
  intros H. apply Forall_forall. intros x Hx.
  apply (recovers_with_b_sound c x Hc).
  rewrite forallb_forall in H. apply H. apply list_elem_of_In. exact Hx.
Qed.



(** Near the ends of the table the linear interpolation itself misses the
    tolerance: at 0.5994 the error is about [1.04e-5]. *)
Lemma distortion_round_trip_fails_near_end :
  tabulated_domain (2997 # 5000) ∧ ¬ recovers (2997 # 5000).
Proof.
  split; [split; vm_compute; discriminate|].
  intros (v & Hv & Hlt).
  assert (Hb : match round_trip (2997 # 5000) with
               | OK w => Qltb (Qabs (w - (2997 # 5000))) tolerance
               | Raise _ => true
               end = false) by (vm_compute; reflexivity).
  rewrite Hv in Hb. apply Qltb_ge in Hb. exact (Qlt_not_le _ _ Hlt Hb).
Qed.
End Distortion.
Module EdgeFacts.
Import Np TraceSlits EdgeSpec.

Lemma fold_max_spec l x :
  let m := fold_left Z.max l x in
  m ∈ x :: l ∧ ∀ v, v ∈ x :: l → v ≤ m.
Proof.
  revert x. induction l as [|y l IH]; intros x; simpl.
  - split; [apply list_elem_of_here|]. intros v Hv.
    apply list_elem_of_singleton in Hv. lia.
  - destruct (IH (Z.max x y)) as [Hin Hle]. split.
    + apply elem_of_cons in Hin as [Hin|Hin].
      * rewrite Hin. destruct (Z.max_spec x y) as [[_ ->]|[_ ->]].
        -- apply list_elem_of_further, list_elem_of_here.
        -- apply list_elem_of_here.
      * do 2 apply list_elem_of_further. exact Hin.
    + intros v Hv. apply elem_of_cons in Hv as [->|Hv].
      * etransitivity; [|apply Hle, list_elem_of_here]. lia.
      * apply elem_of_cons in Hv as [->|Hv].
        -- etransitivity; [|apply Hle, list_elem_of_here]. lia.
        -- apply Hle. apply list_elem_of_further. exact Hv.
Qed.

Lemma fold_min_spec l x :
  let m := fold_left Z.min l x in
  m ∈ x :: l ∧ ∀ v, v ∈ x :: l → m ≤ v.
Proof.
  revert x. induction l as [|y l IH]; intros x; simpl.
  - split; [apply list_elem_of_here|]. intros v Hv.
    apply list_elem_of_singleton in Hv. lia.
  - destruct (IH (Z.min x y)) as [Hin Hle]. split.
    + apply elem_of_cons in Hin as [Hin|Hin].
      * rewrite Hin. destruct (Z.min_spec x y) as [[_ ->]|[_ ->]].
        -- apply list_elem_of_here.
        -- apply list_elem_of_further, list_elem_of_here.
      * do 2 apply list_elem_of_further. exact Hin.
    + intros v Hv. apply elem_of_cons in Hv as [->|Hv].
      * etransitivity; [apply Hle, list_elem_of_here|]. lia.
      * apply elem_of_cons in Hv as [->|Hv].
        -- etransitivity; [apply Hle, list_elem_of_here|]. lia.
        -- apply Hle. apply list_elem_of_further. exact Hv.
Qed.

Lemma Zmax_all_OK l m :
  Zmax_all l = OK m → m ∈ l ∧ ∀ v, v ∈ l → v ≤ m.
Proof.
  destruct l as [|x l]; simpl; [discriminate|]. intros [= <-]. apply fold_max_spec.
Qed.

Lemma Zmin_all_OK l m :
  Zmin_all l = OK m → m ∈ l ∧ ∀ v, v ∈ l → m ≤ v.
Proof.
  destruct l as [|x l]; simpl; [discriminate|]. intros [= <-]. apply fold_min_spec.
Qed.

Lemma Zmax_all_nonempty l v : v ∈ l → ∃ m, Zmax_all l = OK m.
Proof. destruct l; [intros H; inversion H|]. intros _. eexists. reflexivity. Qed.

Lemma Zmin_all_nonempty l v : v ∈ l → ∃ m, Zmin_all l = OK m.
Proof. destruct l; [intros H; inversion H|]. intros _. eexists. reflexivity. Qed.

Lemma Zmax_all_empty l :
  (∀ v, v ∉ l) → Zmax_all l = Raise (ValueError max_msg).
Proof.
  destruct l as [|x l]; [reflexivity|]. intros H. exfalso.
  apply (H x). apply list_elem_of_here.
Qed.

Lemma Zmin_all_empty l :
  (∀ v, v ∉ l) → Zmin_all l = Raise (ValueError min_msg).
Proof.
  destruct l as [|x l]; [reflexivity|]. intros H. exfalso.
  apply (H x). apply list_elem_of_here.
Qed.

Lemma has_left_iff ea : has_left ea ↔ ∃ v, v ∈ entries ea ∧ v < 0.
Proof. apply Exists_exists. Qed.
Lemma has_right_iff ea : has_right ea ↔ ∃ v, v ∈ entries ea ∧ 0 < v.
Proof. apply Exists_exists. Qed.

(** [_set_lrminx] on a map with both kinds of edges. *)
Lemma set_lrminx_OK s ea s' :
  edgearr s = Some ea → _set_lrminx s = OK s' →
  ∃ nmax nmin pmin pmax,
    Zmax_all (filter (λ v, v < 0) (entries ea)) = OK nmax
    ∧ Zmin_all (filter (λ v, v < 0) (entries ea)) = OK nmin
    ∧ Zmin_all (filter (λ v, 0 < v) (entries ea)) = OK pmin
    ∧ Zmax_all (filter (λ v, 0 < v) (entries ea)) = OK pmax
    ∧ s' = set_rmax (Some pmax) (set_rmin (Some pmin)
             (set_lmax (Some (- nmin)) (set_lmin (Some (- nmax)) s))).
Proof.
  intros Hea H. unfold _set_lrminx in H. rewrite Hea in H. simpl in H.
  fold (entries ea) in H.
  apply Running.bind_OK in H as (nmax & H1 & H).
  apply Running.bind_OK in H as (nmin & H2 & H).
  apply Running.bind_OK in H as (pmin & H3 & H).
  apply Running.bind_OK in H as (pmax & H4 & H).
  revert H.
  intros [= <-]. exists nmax, nmin, pmin, pmax. auto.
Qed.

(** X1.  When [_set_lrminx] returns, [lmin <= lmax] are the smallest
    and largest left label (the negated negative entries of the edge map)
    and [rmin <= rmax] the smallest and largest right label: all four are
    positive, each is attained in the map, every negative entry [v] has
    [lmin <= -v <= lmax], every positive one [rmin <= v <= rmax], and the
    map is unchanged. *)
Theorem set_lrminx_bounds s s' ea :
  edgearr s = Some ea → _set_lrminx s = OK s' →
  ∃ l0 l1 r0 r1,
    lmin s' = Some l0 ∧ lmax s' = Some l1 ∧ rmin s' = Some r0 ∧ rmax s' = Some r1
    ∧ 0 < l0 ≤ l1 ∧ 0 < r0 ≤ r1
    ∧ - l0 ∈ entries ea ∧ - l1 ∈ entries ea ∧ r0 ∈ entries ea ∧ r1 ∈ entries ea
    ∧ (∀ v, v ∈ entries ea → v < 0 → l0 ≤ - v ≤ l1)
    ∧ (∀ v, v ∈ entries ea → 0 < v → r0 ≤ v ≤ r1)
    ∧ edgearr s' = Some ea.
Proof.
  intros Hea H.
  destruct (set_lrminx_OK s ea s' Hea H) as (nmax & nmin & pmin & pmax & H1 & H2 & H3 & H4 & ->).
  apply Zmax_all_OK in H1 as [I1 L1]. apply Zmin_all_OK in H2 as [I2 L2].
  apply Zmin_all_OK in H3 as [I3 L3]. apply Zmax_all_OK in H4 as [I4 L4].
  apply list_elem_of_filter in I1 as [N1 I1]. apply list_elem_of_filter in I2 as [N2 I2].
  apply list_elem_of_filter in I3 as [N3 I3]. apply list_elem_of_filter in I4 as [N4 I4].
  assert (Hn : ∀ v, v ∈ entries ea → v < 0 → nmin ≤ v ≤ nmax).
  { intros v Hv Hneg. split; [apply L2|apply L1]; apply list_elem_of_filter; auto. }
  assert (Hp : ∀ v, v ∈ entries ea → 0 < v → pmin ≤ v ≤ pmax).
  { intros v Hv Hpos. split; [apply L3|apply L4]; apply list_elem_of_filter; auto. }
  exists (- nmax), (- nmin), pmin, pmax. simpl.
  do 4 (split; [reflexivity|]).
  pose proof (Hn nmax I1 N1). pose proof (Hp pmin I3 N3).
  split; [lia|]. split; [lia|].
  rewrite !Z.opp_involutive. do 4 (split; [assumption|]).
  split; [intros v Hv Hneg; specialize (Hn v Hv Hneg); lia|].
  split; [exact Hp|exact Hea].
Qed.

Lemma set_lrminx_bounds_witness :
  edgearr Toy.labelled_tracer = Some (Toy.bracket_edges 2 4)
  ∧ ∃ s', _set_lrminx Toy.labelled_tracer = OK s'
    ∧ lmin s' = Some 200000 ∧ lmax s' = Some 200000
    ∧ rmin s' = Some 200000 ∧ rmax s' = Some 200000.
Proof.
  assert (He : edgearr Toy.labelled_tracer = Some (Toy.bracket_edges 2 4)) by reflexivity.
  split; [exact He|].
  destruct (_set_lrminx Toy.labelled_tracer) as [s'|e] eqn:Hrun;
    [|vm_compute in Hrun; discriminate].
  exists s'. split; [reflexivity|].
  destruct (set_lrminx_bounds Toy.labelled_tracer s' _ He Hrun)
    as (l0 & l1 & r0 & r1 & _).
  vm_compute in Hrun. injection Hrun as <-. repeat split; reflexivity.
Defined.

(** X2.  [_set_lrminx] returns exactly when the edge map holds a
    negative and a positive entry.  Without a negative entry it raises the
    [ValueError] of [np.max] on an empty array; with a negative but no
    positive entry, that of [np.min]. *)
Theorem set_lrminx_needs_both_sides s ea :
  (is_OK (_set_lrminx (set_edgearr (Some ea) s)) ↔ has_left ea ∧ has_right ea)
  ∧ (¬ has_left ea →
     _set_lrminx (set_edgearr (Some ea) s) = Raise (ValueError max_msg))
  ∧ (has_left ea → ¬ has_right ea →
     _set_lrminx (set_edgearr (Some ea) s) = Raise (ValueError min_msg)).
Proof.
  assert (Hneg : ¬ has_left ea →
            _set_lrminx (set_edgearr (Some ea) s) = Raise (ValueError max_msg)).
  { intros Hno. unfold _set_lrminx. simpl. fold (entries ea).
    rewrite (Zmax_all_empty (filter (λ v, v < 0) (entries ea))); [reflexivity|].
    intros v Hv. apply list_elem_of_filter in Hv as [Hv1 Hv2]. apply Hno. apply has_left_iff. exists v. auto. }
  assert (Hpos : has_left ea → ¬ has_right ea →
            _set_lrminx (set_edgearr (Some ea) s) = Raise (ValueError min_msg)).
  { intros (v & Hv & Hlt)%has_left_iff Hno. unfold _set_lrminx. simpl. fold (entries ea).
    assert (Hin : v ∈ filter (λ v, v < 0) (entries ea)) by (apply list_elem_of_filter; auto).
    destruct (Zmax_all_nonempty _ _ Hin) as [m1 ->].
    destruct (Zmin_all_nonempty _ _ Hin) as [m2 ->]. simpl.
    rewrite (Zmin_all_empty (filter (λ v, 0 < v) (entries ea))); [reflexivity|].
    intros w Hw. apply list_elem_of_filter in Hw as [Hw1 Hw2]. apply Hno. apply has_right_iff. exists w. auto. }
  split; [|split; assumption].
  split.
  - intros [s' Hs'].
    destruct (decide (has_left ea)) as [Hl|Hl]; [|rewrite (Hneg Hl) in Hs'; discriminate].
    split; [exact Hl|].
    destruct (decide (has_right ea)) as [Hr|Hr]; [exact Hr|].
    rewrite (Hpos Hl Hr) in Hs'. discriminate.
  - intros [(v & Hv & Hlt)%has_left_iff (w & Hw & Hgt)%has_right_iff]. unfold _set_lrminx. simpl. fold (entries ea).
    assert (Hin : v ∈ filter (λ v, v < 0) (entries ea)) by (apply list_elem_of_filter; auto).
    assert (Hin' : w ∈ filter (λ v, 0 < v) (entries ea)) by (apply list_elem_of_filter; auto).
    destruct (Zmax_all_nonempty _ _ Hin) as [m1 ->].
    destruct (Zmin_all_nonempty _ _ Hin) as [m2 ->].
    destruct (Zmin_all_nonempty _ _ Hin') as [m3 ->].
    destruct (Zmax_all_nonempty _ _ Hin') as [m4 ->]. simpl.
    eexists. reflexivity.
Qed.
End EdgeFacts.
Module EdgeRelabel.
Import Np TraceSlits EdgeSpec EdgeFacts.

Lemma entries_map2d (f : Z → Z) (ea : EdgeArr) :
  entries (map2d f ea) = map f (entries ea).
Proof. unfold entries, map2d. simpl. symmetry. apply concat_map. Qed.

Lemma get_map2d {A B} (f : A → B) (a : ndarray A) r c :
  get (map2d f a) r c = f <$> get a r c.
Proof.
  unfold get, map2d. simpl. rewrite list_lookup_fmap.
  destruct (rows a !! r) as [row|]; simpl; [|reflexivity].
  apply list_lookup_fmap.
Qed.

Lemma get_entries {A} (a : ndarray A) r c v :
  get a r c = Some v → v ∈ concat (rows a).
Proof.
  unfold get. destruct (rows a !! r) as [row|] eqn:Hr; simpl; [|discriminate].
  intros Hc. apply Trimming.elem_of_concat. exists row.
  split; eapply list_elem_of_lookup_2; eassumption.
Qed.

Lemma reset_below s ea mx :
  edgearr s = Some ea → Zmax_all (entries ea) = OK mx → mx < ednum s →
  reset_edgearr_ednum s = OK (set_edgearr (Some (map2d (shifted (ednum s)) ea)) s).
Proof.
  intros Hea Hmx Hlt. unfold reset_edgearr_ednum. rewrite Hea. simpl.
  fold (entries ea). rewrite Hmx. simpl. rewrite decide_True by exact Hlt. reflexivity.
Qed.

Lemma reset_final s ea mx :
  edgearr s = Some ea → Zmax_all (entries ea) = OK mx → ednum s ≤ mx →
  reset_edgearr_ednum s = OK s.
Proof.
  intros Hea Hmx Hge. unfold reset_edgearr_ednum. rewrite Hea. simpl.
  fold (entries ea). rewrite Hmx. simpl. rewrite decide_False by lia. reflexivity.
Qed.

(** X3.  On an edge map with a right edge, [reset_edgearr_ednum]
    returns, and a second call changes nothing.  If the largest entry was
    at least [ednum] the tracer is unchanged; if it was below, every
    negative entry went down and every positive entry went up by
    [ednum - 1], ending at or beyond [-ednum] and [ednum], and the zeros
    stayed. *)
Theorem reset_edgearr_ednum_relabels s s1 ea :
  edgearr s = Some ea → has_right ea →
  reset_edgearr_ednum s = OK s1 →
  reset_edgearr_ednum s1 = OK s1
  ∧ ∃ ea1 mx,
      edgearr s1 = Some ea1 ∧ Zmax_all (entries ea) = OK mx
      ∧ shape0 ea1 = shape0 ea ∧ shape1 ea1 = shape1 ea
      ∧ (ednum s ≤ mx → s1 = s)
      ∧ (mx < ednum s →
         ∀ r c v, get ea r c = Some v →
           ∃ v', get ea1 r c = Some v'
                 ∧ (v = 0 → v' = 0)
                 ∧ (v < 0 → v' = v - (ednum s - 1) ∧ v' ≤ - ednum s)
                 ∧ (0 < v → v' = v + (ednum s - 1) ∧ ednum s ≤ v')).
Proof.
  intros Hea (w & Hw & Hpos)%has_right_iff Hr.
  destruct (Zmax_all_nonempty _ _ Hw) as [mx Hmx].
  destruct (decide (mx < ednum s)) as [Hlt|Hge].
  - rewrite (reset_below s ea mx Hea Hmx Hlt) in Hr. injection Hr as <-.
    split.
    + assert (Hin : shifted (ednum s) w ∈ entries (map2d (shifted (ednum s)) ea)).
      { rewrite entries_map2d. apply list_elem_of_fmap_2. exact Hw. }
      destruct (Zmax_all_nonempty _ _ Hin) as [mx' Hmx'].
      apply (reset_final _ (map2d (shifted (ednum s)) ea) mx'); [reflexivity|exact Hmx'|].
      apply Zmax_all_OK in Hmx' as [_ Hle]. specialize (Hle _ Hin).
      unfold shifted in Hle. rewrite decide_False in Hle by lia.
      rewrite decide_True in Hle by lia. simpl. lia.
    + eexists _, mx. split; [reflexivity|]. split; [exact Hmx|].
      split; [reflexivity|]. split; [reflexivity|].
      split; [intros; lia|].
      intros _ r c v Hg. exists (shifted (ednum s) v).
      rewrite get_map2d, Hg. split; [reflexivity|]. unfold shifted.
      repeat split; intros; repeat case_decide; lia.
  - rewrite (reset_final s ea mx Hea Hmx) in Hr by lia. injection Hr as <-.
    split; [apply (reset_final s ea mx Hea Hmx); lia|].
    exists ea, mx. repeat split; try assumption; try reflexivity. intros; lia.
Qed.

Lemma reset_edgearr_ednum_relabels_witness :
  edgearr Toy.labelled_tracer = Some (Toy.bracket_edges 2 4)
  ∧ has_right (Toy.bracket_edges 2 4)
  ∧ ∃ s1, reset_edgearr_ednum Toy.labelled_tracer = OK s1
          ∧ reset_edgearr_ednum s1 = OK s1.
Proof.
  assert (He : edgearr Toy.labelled_tracer = Some (Toy.bracket_edges 2 4)) by reflexivity.
  assert (Hr : has_right (Toy.bracket_edges 2 4)).
  { apply (bool_decide_unpack _). vm_compute. exact I. }
  split; [exact He|]. split; [exact Hr|].
  destruct (reset_edgearr_ednum Toy.labelled_tracer) as [s1|e] eqn:Hrun;
    [|vm_compute in Hrun; discriminate].
  exists s1. split; [reflexivity|].
  exact (proj1 (reset_edgearr_ednum_relabels Toy.labelled_tracer s1 _ He Hr Hrun)).
Defined.

(** Without any right edge the test "were we really final?" holds again
    after the relabelling: a second call shifts the left edges once
    more. *)
Example reset_edgearr_ednum_twice_without_right_edge :
  ∃ s1 s2 : State,
    reset_edgearr_ednum (set_edgearr (Some left_only) Toy.auto_tracer) = OK s1
    ∧ reset_edgearr_ednum s1 = OK s2
    ∧ rows <$> edgearr s1 = Some [[-100000; 0]]
    ∧ rows <$> edgearr s2 = Some [[-199999; 0]].
Proof. eexists _, _. repeat split; vm_compute; reflexivity. Qed.

(** X4.  When [_maxgap_prep] returns it has kept the edge map as
    [edgearrcp], recorded its step, left the non-negative entries alone
    and added [1 + max - min] to every negative entry, which then exceeds
    the largest entry there was; if that maximum was not negative, no
    negative entry remains. *)
Theorem maxgap_prep_moves_left_edges_up s s' ea :
  edgearr s = Some ea → _maxgap_prep s = OK s' →
  edgearrcp s' = Some ea
  ∧ steps s' = steps s ++ ["_maxgap_prep"]
  ∧ ∃ ea' mx mn,
      edgearr s' = Some ea'
      ∧ Zmax_all (entries ea) = OK mx ∧ Zmin_all (entries ea) = OK mn
      ∧ shape0 ea' = shape0 ea ∧ shape1 ea' = shape1 ea
      ∧ (∀ r c v, get ea r c = Some v →
           ∃ v', get ea' r c = Some v'
                 ∧ (0 ≤ v → v' = v)
                 ∧ (v < 0 → v' = v + (1 + mx - mn) ∧ mx < v'))
      ∧ (0 ≤ mx → ∀ v', v' ∈ entries ea' → 0 ≤ v').
Proof.
  intros Hea H. unfold _maxgap_prep in H. rewrite Hea in H. simpl in H.
  fold (entries ea) in H.
  apply Running.bind_OK in H as (mx & Hmx & H).
  apply Running.bind_OK in H as (mn & Hmn & H).
  injection H as <-. simpl.
  split; [reflexivity|]. split; [reflexivity|].
  eexists _, mx, mn. split; [reflexivity|].
  split; [exact Hmx|]. split; [exact Hmn|].
  split; [reflexivity|]. split; [reflexivity|].
  apply Zmax_all_OK in Hmx as [_ Hle]. apply Zmin_all_OK in Hmn as [_ Hge].
  split.
  - intros r c v Hg. eexists. rewrite get_map2d, Hg. split; [reflexivity|].
    pose proof (Hge v (get_entries _ _ _ _ Hg)).
    split; intros; case_decide; lia.
  - intros Hmx0 v' Hv'. rewrite entries_map2d in Hv'.
    apply list_elem_of_fmap in Hv' as (v & -> & Hv).
    pose proof (Hge v Hv). case_decide; lia.
Qed.

Lemma maxgap_prep_moves_left_edges_up_witness :
  edgearr Toy.labelled_tracer = Some (Toy.bracket_edges 2 4)
  ∧ ∃ s', _maxgap_prep Toy.labelled_tracer = OK s'
    ∧ edgearrcp s' = Some (Toy.bracket_edges 2 4)
    ∧ rows <$> edgearr s' = Some [[200001; 0; 0; 200000]; [200001; 0; 0; 200000]].
Proof.
  assert (He : edgearr Toy.labelled_tracer = Some (Toy.bracket_edges 2 4)) by reflexivity.
  split; [exact He|].
  destruct (_maxgap_prep Toy.labelled_tracer) as [s'|e] eqn:Hrun;
    [|vm_compute in Hrun; discriminate].
  exists s'. split; [reflexivity|].
  split; [exact (proj1 (maxgap_prep_moves_left_edges_up Toy.labelled_tracer s' _ He Hrun))|].
  vm_compute in Hrun. injection Hrun as <-. reflexivity.
Defined.

(** X5.  With [lcnt = rcnt = 1] and a positive [ednum],
    [_assign_edges] returns whatever the collaborators are: every entry
    at or below [-2 ednum] becomes [-ednum], every entry at or above
    [2 ednum] becomes [ednum], the others stay, so that all entries end
    strictly between [-2 ednum] and [2 ednum]; the step is recorded. *)
Theorem assign_edges_single_edges `{ext : Collaborators} s ea :
  edgearr s = Some ea → lcnt s = Some 1 → rcnt s = Some 1 → 0 < ednum s →
  ∃ s' ea',
    _assign_edges s = OK s'
    ∧ edgearr s' = Some ea'
    ∧ steps s' = steps s ++ ["_assign_edges"]
    ∧ shape0 ea' = shape0 ea ∧ shape1 ea' = shape1 ea
    ∧ (∀ r c v, get ea r c = Some v →
         ∃ v', get ea' r c = Some v'
               ∧ -2 * ednum s < v' < 2 * ednum s
               ∧ (v ≤ -2 * ednum s → v' = - ednum s)
               ∧ (2 * ednum s ≤ v → v' = ednum s)
               ∧ (-2 * ednum s < v < 2 * ednum s → v' = v)).
Proof.
  intros Hea Hl Hr Hpos. unfold _assign_edges. simpl. rewrite Hea, Hl, Hr. simpl.
  repeat (rewrite decide_True by reflexivity). simpl.
  eexists _, _. split; [reflexivity|]. simpl.
  split; [reflexivity|]. split; [reflexivity|].
  split; [reflexivity|]. split; [reflexivity|].
  intros r c v Hg. eexists. rewrite !get_map2d, Hg. split; [reflexivity|].
  repeat split; intros; repeat case_decide; lia.
Qed.

Lemma assign_edges_single_edges_witness :
  edgearr single_edge_tracer = Some (Toy.bracket_edges 2 4)
  ∧ lcnt single_edge_tracer = Some 1 ∧ rcnt single_edge_tracer = Some 1
  ∧ 0 < ednum single_edge_tracer
  ∧ ∃ s', _assign_edges (ext := Toy.collaborators) single_edge_tracer = OK s'
    ∧ rows <$> edgearr s' = Some [[-100000; 0; 0; 100000]; [-100000; 0; 0; 100000]].
Proof.
  set (s := single_edge_tracer).
  assert (He : edgearr s = Some (Toy.bracket_edges 2 4)) by reflexivity.
  assert (Hl : lcnt s = Some 1) by reflexivity.
  assert (Hr : rcnt s = Some 1) by reflexivity.
  assert (Hp : 0 < ednum s) by (simpl; lia).
  do 4 (split; [assumption|]).
  destruct (assign_edges_single_edges (ext := Toy.collaborators) s _ He Hl Hr Hp)
    as (s' & ea' & Hrun & _).
  exists s'. split; [exact Hrun|].
  vm_compute in Hrun. injection Hrun as <-. reflexivity.
Defined.
End EdgeRelabel.
Module RunFacts.
Import Np TraceSlits RunSpec RunStages Running.

Lemma bind_assoc {A B C} (m : res A) (f : A → res B) (g : B → res C) :
  (m ≫= f) ≫= g = m ≫= (λ a, f a ≫= g).
Proof. destruct m; reflexivity. Qed.

Lemma bind_ext {A B} (m : res A) (f g : A → res B) :
  (∀ a, f a = g a) → m ≫= f = m ≫= g.
Proof. intros H. destruct m; simpl; [apply H|reflexivity]. Qed.

Section Stages.
Context `{ext : Collaborators}.

(** [run] is its four stages in sequence. *)
Lemma run_stages armlsd ignore_orders add_user s :
  run armlsd ignore_orders add_user s
  = (s ← first_stage s;
     s ← middle_stages armlsd ignore_orders add_user s;
     r ← curve_stage armlsd s;
     pixel_stage r.2).
Proof.
  unfold run, middle_stages, curve_stage.
  apply bind_ext; intros s1.
  repeat first [ rewrite bind_assoc | apply bind_ext; intros ? ].
  match goal with a : (bool * State)%type |- _ => destruct a as [done_ s16] end.
  rewrite bind_assoc. apply bind_ext; intros s17. reflexivity.
Qed.
End Stages.
End RunFacts.

(** ** What a run records and returns *)

Module RunResults.
Import Np TraceSlits RunSpec RunStages Running RunFacts.

(** Inverts [H : m s = OK s'] for a method [m] and closes a goal that
    reads an attribute the method does not set. *)
Ltac untouched H :=
  repeat (Running.split_binds H;
          try match type of H with
              | (if ?c then _ else _) ≫= _ = OK _ => destruct c; simpl in H
              | (let '(_, _) := ?p in _) ≫= _ = OK _ => destruct p; simpl in H
              | when ?c _ _ = OK _ => unfold when in H; destruct c
              end);
  try (injection H as <-); try reflexivity.

Section TcDict.
Context `{ext : Collaborators}.

Lemma first_stage_tc_dict s s' : first_stage s = OK s' → tc_dict s' = tc_dict s.
Proof.
  unfold first_stage. intros H.
  destruct (decide _); apply bind_OK in H as (s0 & H0 & H); injection H as <-; simpl.
  - unfold _edgearr_single_slit in H0. untouched H0.
  - unfold _edgearr_from_binarr in H0. untouched H0.
Qed.

Lemma match_edges_tc_dict s s' : _match_edges s = OK s' → tc_dict s' = tc_dict s.
Proof. unfold _match_edges, msgs_error. intros H. untouched H. Qed.
Lemma add_left_right_tc_dict s s' : _add_left_right s = OK s' → tc_dict s' = tc_dict s.
Proof. unfold _add_left_right. intros H. untouched H. Qed.
Lemma maxgap_prep_tc_dict s s' : _maxgap_prep s = OK s' → tc_dict s' = tc_dict s.
Proof. unfold _maxgap_prep. intros H. untouched H. Qed.
Lemma assign_edges_tc_dict s s' : _assign_edges s = OK s' → tc_dict s' = tc_dict s.
Proof. unfold _assign_edges. intros H. untouched H. Qed.
Lemma maxgap_close_tc_dict s s' : _maxgap_close s = OK s' → tc_dict s' = tc_dict s.
Proof. unfold _maxgap_close. intros H. untouched H. Qed.
Lemma final_left_right_tc_dict s s' : _final_left_right s = OK s' → tc_dict s' = tc_dict s.
Proof. unfold _final_left_right. intros H. untouched H. Qed.
Lemma mslit_sync_tc_dict s s' : _mslit_sync s = OK s' → tc_dict s' = tc_dict s.
Proof. unfold _mslit_sync. intros H. untouched H. Qed.
Lemma mslit_tcrude_tc_dict s s' : _mslit_tcrude s = OK s' → is_Some (tc_dict s').
Proof. unfold _mslit_tcrude. intros H. untouched H. simpl. eauto. Qed.
Lemma reset_edgearr_ednum_tc_dict s s' :
  reset_edgearr_ednum s = OK s' → tc_dict s' = tc_dict s.
Proof. unfold reset_edgearr_ednum. intros H. untouched H. Qed.
Lemma add_user_slits_tc_dict us s s' :
  add_user_slits us false s = OK s' → tc_dict s' = tc_dict s.
Proof.
  unfold add_user_slits. intros H.
  apply bind_OK in H as (s1 & H1 & H). apply reset_edgearr_ednum_tc_dict in H1.
  Running.split_binds H. injection Ha1 as <-. injection H as <-. simpl. exact H1.
Qed.
Lemma ignore_orders_tc_dict s s' : _ignore_orders s = OK s' → tc_dict s' = tc_dict s.
Proof. unfold _ignore_orders. intros H. untouched H. Qed.
Lemma set_lrminx_tc_dict s s' : _set_lrminx s = OK s' → tc_dict s' = tc_dict s.
Proof. unfold _set_lrminx. intros H. untouched H. Qed.
Lemma fit_edges_tc_dict side s s' : _fit_edges side s = OK s' → tc_dict s' = tc_dict s.
Proof.
  unfold _fit_edges. intros H. apply bind_OK in H as (ea & _ & H).
  apply bind_OK in H as (s1 & H1 & H). injection H as <-. simpl.
  destruct (decide (side = "left")); untouched H1.
Qed.
Lemma chk_for_longslit_tc_dict s b s' :
  _chk_for_longslit s = OK (b, s') → tc_dict s' = tc_dict s.
Proof.
  unfold _chk_for_longslit. intros H.
  apply bind_OK in H as (hi & _ & H). apply bind_OK in H as (lo & _ & H).
  destruct (decide _); [|injection H as <- <-; reflexivity].
  apply bind_OK in H as (rhi & _ & H). apply bind_OK in H as (rlo & _ & H).
  destruct (decide _); [|injection H as <- <-; reflexivity].
  Running.split_binds H. injection H as <- <-. reflexivity.
Qed.
Lemma synchronize_tc_dict s s' : _synchronize s = OK s' → tc_dict s' = tc_dict s.
Proof. unfold _synchronize. intros H. untouched H. Qed.
Lemma pca_tc_dict s s' : _pca s = OK s' → tc_dict s' = tc_dict s.
Proof.
  unfold _pca, _pca_order_slit_edges, _pca_pixel_slit_edges. intros H.
  repeat (destruct (decide _)); untouched H.
Qed.
Lemma trim_slits_tc_dict u s s' : _trim_slits u s = OK s' → tc_dict s' = tc_dict s.
Proof. unfold _trim_slits. intros H. untouched H. Qed.
Lemma pixel_stage_tc_dict s s' : pixel_stage s = OK s' → tc_dict s' = tc_dict s.
Proof. unfold pixel_stage. intros H. untouched H. Qed.

Lemma curve_stage_tc_dict armlsd s r :
  curve_stage armlsd s = OK r → tc_dict r.2 = tc_dict s.
Proof.
  unfold curve_stage. intros H.
  apply bind_OK in H as ([d s1] & H1 & H). apply chk_for_longslit_tc_dict in H1.
  apply bind_OK in H as (s2 & H2 & H). injection H as <-. simpl. rewrite <- H1.
  destruct d.
  - injection H2 as <-. reflexivity.
  - apply bind_OK in H2 as (sa & Ha & H2). apply synchronize_tc_dict in Ha.
    apply bind_OK in H2 as (sb & Hb & H2). apply pca_tc_dict in Hb.
    apply trim_slits_tc_dict in H2. congruence.
Qed.

Lemma when_tc_dict (c : bool) m s s' :
  (∀ s s', m s = OK s' → tc_dict s' = tc_dict s) →
  when c m s = OK s' → tc_dict s' = tc_dict s.
Proof. intros Hm. unfold when. destruct c; [apply Hm|]. intros [= <-]. reflexivity. Qed.

Lemma middle_stages_tc_dict armlsd ignore_orders add_user s s' :
  middle_stages armlsd ignore_orders add_user s = OK s' →
  if armlsd then is_Some (tc_dict s') else tc_dict s' = tc_dict s.
Proof.
  unfold middle_stages. intros H.
  apply bind_OK in H as (s2 & H2 & H). apply match_edges_tc_dict in H2.
  apply bind_OK in H as (s3 & H3 & H). apply add_left_right_tc_dict in H3.
  apply bind_OK in H as (s4 & H4 & H). apply (when_tc_dict _ _ _ _ maxgap_prep_tc_dict) in H4.
  apply bind_OK in H as (s5 & H5 & H). apply assign_edges_tc_dict in H5.
  apply bind_OK in H as (s6 & H6 & H). apply (when_tc_dict _ _ _ _ maxgap_close_tc_dict) in H6.
  apply bind_OK in H as (s7 & H7 & H).
  apply (when_tc_dict _ _ _ _ final_left_right_tc_dict) in H7.
  apply bind_OK in H as (s8 & H8 & H).
  apply bind_OK in H as (s9 & H9 & H).
  apply bind_OK in H as (s10 & H10 & H).
  assert (E10 : tc_dict s10 = tc_dict s9).
  { destruct add_user; [eapply add_user_slits_tc_dict; eassumption|].
    injection H10 as <-. reflexivity. }
  apply bind_OK in H as (s11 & H11 & H).
  apply (when_tc_dict _ _ _ _ ignore_orders_tc_dict) in H11.
  apply bind_OK in H as (s12 & H12 & H). apply set_lrminx_tc_dict in H12.
  apply bind_OK in H as (s13 & H13 & H). apply fit_edges_tc_dict in H13.
  apply fit_edges_tc_dict in H.
  assert (E : tc_dict s' = tc_dict s9) by congruence.
  destruct armlsd; simpl in H8, H9.
  - apply mslit_tcrude_tc_dict in H8. apply mslit_sync_tc_dict in H9.
    rewrite E, H9. exact H8.
  - injection H8 as <-. injection H9 as <-. congruence.
Qed.

Lemma run_tc_dict armlsd ignore_orders add_user s s' :
  run armlsd ignore_orders add_user s = OK s' →
  if armlsd then is_Some (tc_dict s') else tc_dict s' = tc_dict s.
Proof.
  rewrite run_stages. intros H.
  apply bind_OK in H as (s1 & H1 & H). apply first_stage_tc_dict in H1.
  apply bind_OK in H as (s2 & H2 & H). apply middle_stages_tc_dict in H2.
  apply bind_OK in H as (r & H3 & H). apply curve_stage_tc_dict in H3.
  apply pixel_stage_tc_dict in H.
  destruct armlsd; congruence.
Qed.
End TcDict.
End RunResults.
Module RunSteps.
Import Np TraceSlits RunSpec RunStages Running RunFacts.

Section Steps.
Context `{ext : Collaborators}.

(** Extends [F : frame acc t sk] by [Hk : frame a sk sk'], in which [a]
    may mention the settings or [user_set] of [sk]. *)
Ltac extend F Hk :=
  let T := fresh "T" in let U := fresh "U" in
  pose proof F as (_ & T & U); rewrite ?T, ?U in Hk; clear T U;
  let F' := fresh "F" in
  pose proof (frame_trans _ _ _ _ _ F Hk) as F'; clear F Hk; rename F' into F.

Lemma frame_edgearr_from_binarr s s' :
  _edgearr_from_binarr s = OK s' → frame ["_edgearr_from_binarr"] s s'.
Proof. unfold _edgearr_from_binarr. intros H. Running.frame_of_OK H. Qed.

Lemma middle_stages_steps armlsd ignore_orders add_user s s' :
  middle_stages armlsd ignore_orders add_user s = OK s' →
  frame (["_match_edges"; "_add_left_right"]
         ++ (if bool_decide (maxgap (settings s) ≠ None) then ["_maxgap_prep"] else [])
         ++ ["_assign_edges"]
         ++ (if bool_decide (maxgap (settings s) ≠ None) then ["_maxgap_close"] else [])
         ++ (if bool_decide (user_set s ≠ Some true) then ["_final_left_right"] else [])
         ++ (if armlsd then ["_mslit_tcrude"; "_mslit_sync"] else [])
         ++ (if bool_decide (add_user ≠ None) then ["add_user_slits"] else [])
         ++ (if ignore_orders then ["_ignore_orders"] else [])
         ++ ["_fit_edges_left"; "_fit_edges_right"]) s s'.
Proof.
  unfold middle_stages. intros H.
  pose proof (frame_refl s) as F.
  apply bind_OK in H as (s2 & H2 & H). apply frame_match_edges in H2. extend F H2.
  apply bind_OK in H as (s3 & H3 & H). apply frame_add_left_right in H3. extend F H3.
  apply bind_OK in H as (s4 & H4 & H).
  apply (frame_when _ _ _ _ _ frame_maxgap_prep) in H4. extend F H4.
  apply bind_OK in H as (s5 & H5 & H). apply frame_assign_edges in H5. extend F H5.
  apply bind_OK in H as (s6 & H6 & H).
  apply (frame_when _ _ _ _ _ frame_maxgap_close) in H6. extend F H6.
  apply bind_OK in H as (s7 & H7 & H).
  apply (frame_when _ _ _ _ _ frame_final_left_right) in H7. extend F H7.
  apply bind_OK in H as (s8 & H8 & H).
  apply (frame_when _ _ _ _ _ frame_mslit_tcrude) in H8. extend F H8.
  apply bind_OK in H as (s9 & H9 & H).
  apply (frame_when _ _ _ _ _ frame_mslit_sync) in H9. extend F H9.
  apply bind_OK in H as (s10 & H10 & H).
  assert (F10 : frame (if bool_decide (add_user ≠ None) then ["add_user_slits"] else [])
                  s9 s10).
  { destruct add_user as [us|].
    - apply frame_add_user_slits in H10. exact H10.
    - injection H10 as <-. apply frame_refl. }
  clear H10. extend F F10.
  apply bind_OK in H as (s11 & H11 & H).
  apply (frame_when _ _ _ _ _ frame_ignore_orders) in H11. extend F H11.
  apply bind_OK in H as (s12 & H12 & H). apply frame_set_lrminx in H12. extend F H12.
  apply bind_OK in H as (s13 & H13 & H). apply frame_fit_edges in H13. extend F H13.
  apply frame_fit_edges in H. extend F H.
  destruct F as (E & T & U). split; [|auto].
  rewrite E. f_equal.
  destruct (bool_decide (maxgap (settings s) ≠ None)),
    (bool_decide (user_set s ≠ Some true)), armlsd,
    (bool_decide (add_user ≠ None)), ignore_orders; reflexivity.
Qed.

Lemma curve_stage_steps armlsd s r :
  curve_stage armlsd s = OK r →
  frame (after_fit_steps (pca_type (settings s)) r.1) s r.2.
Proof.
  unfold curve_stage. intros H.
  apply bind_OK in H as ([d s1] & H1 & H). apply frame_chk_for_longslit in H1.
  apply bind_OK in H as (s2 & H2 & H). injection H as <-. simpl.
  assert (F2 : frame (after_fit_steps (pca_type (settings s1)) d) s1 s2).
  { destruct d; simpl.
    - injection H2 as <-. unfold frame. simpl. rewrite app_nil_r. auto.
    - apply bind_OK in H2 as (sa & Ha & H2). apply frame_synchronize in Ha.
      apply bind_OK in H2 as (sb & Hb & H2). apply frame_pca in Hb.
      apply frame_trim_slits in H2.
      assert (Ts : settings sa = settings s1) by (destruct Ha as (_ & Ts & _); exact Ts).
      rewrite Ts in Hb.
      pose proof (frame_trans _ _ _ _ _ Ha Hb) as F'.
      pose proof (frame_trans _ _ _ _ _ F' H2) as F''.
      rewrite <- app_assoc in F''. exact F''. }
  clear H2. extend H1 F2. exact H1.
Qed.

Lemma pixel_stage_steps s s' : pixel_stage s = OK s' → frame [] s s'.
Proof. unfold pixel_stage. intros H. Running.frame_of_OK H. Qed.

End Steps.

End RunSteps.
Module RunOutputs.
Import Np TraceSlits RunSpec RunStages Running RunFacts.

Section Outputs.
Context `{ext : Collaborators}.

Lemma pca_sets_extrapord s s' : _pca s = OK s' → is_Some (extrapord s').
Proof.
  unfold _pca, _pca_order_slit_edges, _pca_pixel_slit_edges. intros H.
  repeat (destruct (decide _)); Running.split_binds H; injection H as <-;
    simpl; eauto.
Qed.

Lemma trim_slits_extrapord u s s' :
  _trim_slits u s = OK s' → extrapord s' = extrapord s.
Proof.
  unfold _trim_slits. intros H. Running.split_binds H. injection H as <-. reflexivity.
Qed.

Lemma curve_stage_extrapord armlsd s r :
  curve_stage armlsd s = OK r → is_Some (extrapord r.2).
Proof.
  unfold curve_stage. intros H.
  apply bind_OK in H as ([d s1] & H1 & H).
  apply bind_OK in H as (s2 & H2 & H). injection H as <-. simpl.
  destruct d.
  - injection H2 as <-. simpl. eauto.
  - apply bind_OK in H2 as (sa & Ha & H2).
    apply bind_OK in H2 as (sb & Hb & H2). apply pca_sets_extrapord in Hb.
    apply trim_slits_extrapord in H2. rewrite H2. exact Hb.
Qed.

(** X9.  The dictionary that a successful [run] returns has no [None]
    in it, and its pixel arrays belong to the curves it returns:
    [pixcen] is [phys_to_pix] of their mean, [pixwid] the truncated
    column means of their difference, [lordpix] and [rordpix] are
    [phys_to_pix] of each, and [slitpix] is [core_slit_pixels] of
    both. *)
Theorem run_returns_complete_dict armlsd ignore_orders add_user s s' :
  run armlsd ignore_orders add_user s = OK s' →
  ∃ lc rc pc lp rp ex sp mid wd,
    trace_slits_dict s'
    = (Some lc, Some rc, Some pc, Some (map int (mean0 wd)), Some lp, Some rp,
       Some ex, Some sp)
    ∧ broadcast2d 0%Q Qplus lc rc = OK mid
    ∧ phys_to_pix (map2d (Qmult (1 # 2)) mid) (pixlocn s') 1 = OK pc
    ∧ broadcast2d 0%Q Qminus rc lc = OK wd
    ∧ phys_to_pix lc (pixlocn s') 1 = OK lp
    ∧ phys_to_pix rc (pixlocn s') 1 = OK rp
    ∧ core_slit_pixels lc rc (shape0 (mstrace s'), shape1 (mstrace s'))
        (pad (settings s')) = OK sp.
Proof.
  rewrite run_stages. intros H.
  apply bind_OK in H as (s1 & _ & H).
  apply bind_OK in H as (s2 & _ & H).
  apply bind_OK in H as (r & H3 & H). apply curve_stage_extrapord in H3 as [ex Hex].
  unfold pixel_stage in H.
  apply bind_OK in H as (lc & Hlc & H). apply bind_OK in H as (rc & Hrc & H).
  apply bind_OK in H as (mid & Hmid & H). apply bind_OK in H as (pc & Hpc & H).
  apply bind_OK in H as (wd & Hwd & H). apply bind_OK in H as (lp & Hlp & H).
  apply bind_OK in H as (rp & Hrp & H). apply bind_OK in H as (sp & Hsp & H).
  injection H as <-.
  simpl in Hlc, Hrc.
  destruct (lcen r.2) as [lc'|] eqn:El; [|discriminate]. injection Hlc as ->.
  destruct (rcen r.2) as [rc'|] eqn:Er; [|discriminate]. injection Hrc as ->.
  exists lc, rc, pc, lp, rp, ex, sp, mid, wd.
  unfold trace_slits_dict. simpl. rewrite El, Er, Hex.
  split; [reflexivity|]. auto 10.
Qed.
End Outputs.

Lemma run_returns_complete_dict_witness :
  ∃ s', run (ext := Toy.collaborators) true false None Toy.auto_tracer = OK s'
        ∧ ∃ lc rc pc pw lp rp ex sp,
            trace_slits_dict s'
            = (Some lc, Some rc, Some pc, Some pw, Some lp, Some rp, Some ex, Some sp).
Proof.
  destruct (run (ext := Toy.collaborators) true false None Toy.auto_tracer)
    as [s'|e] eqn:Hrun; [|vm_compute in Hrun; discriminate].
  exists s'. split; [reflexivity|].
  destruct (run_returns_complete_dict (ext := Toy.collaborators) true false None
              Toy.auto_tracer s' Hrun)
    as (lc & rc & pc & lp & rp & ex & sp & mid & wd & Hd & _).
  exists lc, rc, pc, (map int (mean0 wd)), lp, rp, ex, sp. exact Hd.
Defined.

(** ** The long-slit check *)
Section Longslit.
Context `{ext : Collaborators}.

Lemma fill_column_OK n v a :
  fill_column n v = OK a → shape0 a = n ∧ shape1 a = 1%nat ∧ wf a.
Proof.
  unfold fill_column. destruct (decide (length v = n)) as [Hl|Hl].
  - intros [= <-]. simpl. repeat split; simpl.
    + rewrite length_map. exact Hl.
    + apply Forall_forall. intros r Hr. apply list_elem_of_fmap in Hr as (x & -> & _).
      reflexivity.
  - destruct v as [|x [|? ?]]; try discriminate. intros [= <-]. simpl.
    repeat split; simpl.
    + apply length_replicate.
    + apply Forall_forall. intros r Hr. apply elem_of_replicate in Hr as [-> _].
      reflexivity.
Qed.

(** X7.  With the four ranges set, [_chk_for_longslit], when it returns,
    answers [True] exactly when [lmax = lmin] and [rmax = rmin].  On
    [False] the tracer is unchanged.  On [True] [lcen] and [rcen] are
    single columns with one row per row of the trace image, and no step
    is recorded. *)
Theorem chk_for_longslit_decides s b s' l0 l1 r0 r1 :
  lmin s = Some l0 → lmax s = Some l1 → rmin s = Some r0 → rmax s = Some r1 →
  _chk_for_longslit s = OK (b, s') →
  (b = true ↔ l1 = l0 ∧ r1 = r0)
  ∧ (b = false → s' = s)
  ∧ (b = true →
     ∃ lc rc, lcen s' = Some lc ∧ rcen s' = Some rc
              ∧ shape0 lc = shape0 (mstrace s) ∧ shape1 lc = 1%nat ∧ wf lc
              ∧ shape0 rc = shape0 (mstrace s) ∧ shape1 rc = 1%nat ∧ wf rc
              ∧ steps s' = steps s).
Proof.
  intros Hl0 Hl1 Hr0 Hr1. unfold _chk_for_longslit.
  rewrite Hl0, Hl1, Hr0, Hr1. simpl.
  destruct (decide (l1 + 1 - l0 = 1)) as [Hl|Hl].
  2:{ intros [= <- <-]. split; [split; [discriminate|lia]|].
      split; [reflexivity|discriminate]. }
  destruct (decide (r1 + 1 - r0 = 1)) as [Hr|Hr].
  2:{ intros [= <- <-]. split; [split; [discriminate|lia]|].
      split; [reflexivity|discriminate]. }
  intros H. Running.split_binds H. injection H as <- <-.
  split; [split; [intros _; lia|reflexivity]|].
  split; [discriminate|]. intros _.
  match goal with
  | Hl : fill_column _ _ = OK ?l, Hr : fill_column _ _ = OK ?r |- _ =>
      apply fill_column_OK in Hl as (? & ? & ?);
      apply fill_column_OK in Hr as (? & ? & ?);
      exists l, r
  end.
  simpl in *. auto 10.
Qed.
End Longslit.
End RunOutputs.
Module PcaFacts.
Import Np NpFacts TraceSlits PcaSpec Running.

Lemma where_true_spec k m i :
  i ∈ where_true k m ↔ ∃ j, i = (k + j)%nat ∧ m !! j = Some true.
Proof.
  revert k. induction m as [|b m IH]; intros k; simpl.
  - split; [intros H; inversion H|intros (j & _ & H); discriminate].
  - destruct b.
    + rewrite elem_of_cons, IH. split.
      * intros [->|(j & -> & Hj)]; [exists 0%nat; split; [lia|reflexivity]|].
        exists (S j). split; [lia|exact Hj].
      * intros ([|j] & -> & Hj); [left; lia|]. right. exists j. split; [lia|exact Hj].
    + rewrite IH. split.
      * intros (j & -> & Hj). exists (S j). split; [lia|exact Hj].
      * intros ([|j] & -> & Hj); [discriminate|]. exists j. split; [lia|exact Hj].
Qed.

Lemma all_axis1_lookup (a : image) i :
  all_axis1 a !! i = forallb (λ v, negb (Qeq_bool v 0)) <$> rows a !! i.
Proof. unfold all_axis1. apply list_lookup_fmap. Qed.

Lemma forallb_nonzero row :
  forallb (λ v, negb (Qeq_bool v 0)) row = true ↔ Forall (λ v, ¬ (v == 0)%Q) row.
Proof.
  rewrite forallb_forall, Forall_forall. split.
  - intros H v Hv Hz. apply list_elem_of_In in Hv. specialize (H v Hv).
    apply Qeq_bool_iff in Hz. rewrite Hz in H. discriminate.
  - intros H v Hv. apply list_elem_of_In in Hv. specialize (H v Hv).
    destruct (Qeq_bool v 0) eqn:Hz; [|reflexivity].
    apply Qeq_bool_iff in Hz. contradiction.
Qed.

Lemma take_rows_wf {A} (a : ndarray A) idx :
  length (rows a) = shape0 a → Forall (λ i, (i < shape0 a)%nat) idx →
  ∃ rs, take_rows a idx = OK (mk_ndarray (length idx) (shape1 a) rs)
        ∧ Forall2 (λ i r, rows a !! i = Some r) idx rs.
Proof.
  intros Hl Hidx. unfold take_rows.
  assert (H : ∃ rs, mapR (λ i, of_option IndexError (rows a !! i)) idx = OK rs
                    ∧ Forall2 (λ i r, rows a !! i = Some r) idx rs).
  { induction Hidx as [|i idx Hi _ IH].
    - exists []. split; [reflexivity|constructor].
    - destruct IH as (rs & Hrs & HF).
      destruct (lookup_lt_is_Some_2 (rows a) i) as [r Hr]; [lia|].
      exists (r :: rs). simpl. rewrite Hr. simpl. rewrite Hrs. simpl.
      split; [reflexivity|]. constructor; assumption. }
  destruct H as (rs & -> & HF). exists rs. split; [reflexivity|exact HF].
Qed.

Lemma get_transpose_rows (a : image) rs idx r k i :
  wf a → Forall2 (λ i r, rows a !! i = Some r) idx rs →
  idx !! k = Some i → (r < shape1 a)%nat →
  get (transpose 0%Q (mk_ndarray (length idx) (shape1 a) rs)) r k = get a i r.
Proof.
  intros [_ Hrows] HF Hk Hr. unfold get, transpose. simpl.
  rewrite list_lookup_fmap, lookup_seq_lt by exact Hr. simpl.
  rewrite list_lookup_fmap.
  destruct (Forall2_lookup_l _ _ _ _ _ HF Hk) as (row & Hrow & Hi).
  rewrite Hrow, Hi. simpl.
  assert (Hlen : length row = shape1 a).
  { rewrite Forall_forall in Hrows. apply Hrows. eapply list_elem_of_lookup_2. exact Hi. }
  destruct (row !! r) as [v|] eqn:Hv.
  - f_equal. apply nth_lookup_Some with (d := 0%Q) in Hv. exact Hv.
  - apply lookup_ge_None in Hv. lia.
Qed.

(** X6.  With a PCA type other than 'order' and 'pixel', and centroid
    traces [lcent], [rcent] with the same number of rows (one per slit),
    [_pca] returns and records no step.  A slit is kept exactly when
    neither of its two traces contains a zero; the kept slits stay in
    order, [lcen] and [rcen] hold their traces as columns, and
    [extrapord] is [False] for each. *)
Theorem pca_without_pca_keeps_complete_traces `{ext : Collaborators} s lct rct :
  pca_type (settings s) ≠ "order" → pca_type (settings s) ≠ "pixel" →
  lcent s = Some lct → rcent s = Some rct →
  wf lct → wf rct → shape0 lct = shape0 rct →
  ∃ s' lc rc ww,
    _pca s = OK s'
    ∧ steps s' = steps s
    ∧ lcen s' = Some lc ∧ rcen s' = Some rc
    ∧ extrapord s' = Some (replicate (length ww) false)
    ∧ (∀ i, i ∈ ww ↔ complete lct i ∧ complete rct i)
    ∧ (∀ j k ij ik, ww !! j = Some ij → ww !! k = Some ik → (j < k)%nat → (ij < ik)%nat)
    ∧ shape0 lc = shape1 lct ∧ shape1 lc = length ww
    ∧ shape0 rc = shape1 rct ∧ shape1 rc = length ww
    ∧ (∀ r k i, ww !! k = Some i →
         ((r < shape1 lct)%nat → get lc r k = get lct i r)
         ∧ ((r < shape1 rct)%nat → get rc r k = get rct i r)).
Proof.
  intros Ho Hp Hl Hr Hwl Hwr Hsh.
  pose proof Hwl as [Hll _]. pose proof Hwr as [Hlr _].
  set (m := zip_with orb (map negb (all_axis1 lct)) (map negb (all_axis1 rct))).
  set (ww := filter (λ i, i ∉ where_true 0 m) (seq 0 (shape0 lct))).
  assert (Hm : broadcast2 orb (map negb (all_axis1 lct)) (map negb (all_axis1 rct)) = OK m).
  { unfold broadcast2. rewrite decide_True; [reflexivity|].
    unfold all_axis1. rewrite !length_map. lia. }
  assert (Hww : ∀ i, i ∈ ww ↔ complete lct i ∧ complete rct i).
  { intros i. unfold ww. rewrite list_elem_of_filter, elem_of_seq, where_true_spec.
    unfold complete. split.
    - intros [Hno Hi].
      destruct (lookup_lt_is_Some_2 (rows lct) i) as [rl Hrl]; [lia|].
      destruct (lookup_lt_is_Some_2 (rows rct) i) as [rr Hrr]; [lia|].
      assert (Hmi : m !! i = Some (negb (forallb (λ v, negb (Qeq_bool v 0)) rl)
                                   || negb (forallb (λ v, negb (Qeq_bool v 0)) rr))).
      { unfold m. rewrite lookup_zip_with, !list_lookup_fmap, !all_axis1_lookup, Hrl, Hrr.
        reflexivity. }
      destruct (forallb _ rl) eqn:Hfl.
      2:{ exfalso. apply Hno. exists i. split; [lia|]. rewrite Hmi. reflexivity. }
      destruct (forallb _ rr) eqn:Hfr.
      2:{ exfalso. apply Hno. exists i. split; [lia|]. rewrite Hmi. reflexivity. }
      split; eexists; (split; [eassumption|]); apply forallb_nonzero; assumption.
    - intros [(rl & Hrl & Hfl) (rr & Hrr & Hfr)].
      apply forallb_nonzero in Hfl. apply forallb_nonzero in Hfr.
      split.
      + intros (j & Hj & Hmj). simpl in Hj. subst j.
        unfold m in Hmj.
        rewrite lookup_zip_with, !list_lookup_fmap, !all_axis1_lookup, Hrl, Hrr in Hmj.
        simpl in Hmj. rewrite Hfl, Hfr in Hmj. discriminate.
      + apply lookup_lt_Some in Hrl. lia. }
  assert (Hin : Forall (λ i, (i < shape0 lct)%nat) ww).
  { apply Forall_forall. intros i Hi. unfold ww in Hi.
    apply list_elem_of_filter in Hi as [_ Hi]. apply elem_of_seq in Hi. lia. }
  destruct (take_rows_wf lct ww Hll Hin) as (rsl & Htl & HFl).
  destruct (take_rows_wf rct ww Hlr) as (rsr & Htr & HFr).
  { rewrite <- Hsh. exact Hin. }
  assert (Hpca : pca_none lct rct
                 = OK (transpose 0%Q (mk_ndarray (length ww) (shape1 lct) rsl),
                       transpose 0%Q (mk_ndarray (length ww) (shape1 rct) rsr),
                       replicate (length ww) false)).
  { unfold pca_none. rewrite Hm. simpl. fold ww. rewrite Htl. simpl. rewrite Htr.
    reflexivity. }
  eexists _, _, _, ww. split.
  { unfold _pca. rewrite decide_False by exact Ho. rewrite decide_False by exact Hp.
    rewrite Hl, Hr. simpl. rewrite Hpca. reflexivity. }
  simpl. do 4 (split; [reflexivity|]).
  split; [exact Hww|].
  split; [intros j k ij ik; apply TrimFacts.filter_seq_increasing|].
  do 4 (split; [reflexivity|]).
  intros r k i Hk. split; intros Hlt; eapply get_transpose_rows; eassumption.
Qed.

Lemma pca_without_pca_keeps_complete_traces_witness :
  pca_type (settings gap_tracer) ≠ "order" ∧ pca_type (settings gap_tracer) ≠ "pixel"
  ∧ lcent gap_tracer = Some lcent3 ∧ rcent gap_tracer = Some rcent3
  ∧ wf lcent3 ∧ wf rcent3 ∧ shape0 lcent3 = shape0 rcent3
  ∧ ∃ s', _pca (ext := Toy.collaborators) gap_tracer = OK s'
          ∧ rows <$> lcen s' = Some [[1; 9]; [1; 9]]%Q
          ∧ rows <$> rcen s' = Some [[3; 12]; [3; 12]]%Q
          ∧ extrapord s' = Some [false; false].
Proof.
  assert (H1 : pca_type (settings gap_tracer) ≠ "order") by discriminate.
  assert (H2 : pca_type (settings gap_tracer) ≠ "pixel") by discriminate.
  assert (H3 : lcent gap_tracer = Some lcent3) by reflexivity.
  assert (H4 : rcent gap_tracer = Some rcent3) by reflexivity.
  assert (H5 : wf lcent3) by (split; [reflexivity|repeat constructor]).
  assert (H6 : wf rcent3) by (split; [reflexivity|repeat constructor]).
  assert (H7 : shape0 lcent3 = shape0 rcent3) by reflexivity.
  do 7 (split; [assumption|]).
  destruct (pca_without_pca_keeps_complete_traces (ext := Toy.collaborators)
              gap_tracer lcent3 rcent3 H1 H2 H3 H4 H5 H6 H7)
    as (s' & lc & rc & ww & Hrun & _).
  exists s'. split; [exact Hrun|].
  vm_compute in Hrun. injection Hrun as <-. repeat split; reflexivity.
Defined.

Lemma chk_for_longslit_decides_witness :
  lmin fitted_tracer = Some 1 ∧ lmax fitted_tracer = Some 1
  ∧ rmin fitted_tracer = Some 1 ∧ rmax fitted_tracer = Some 1
  ∧ ∃ s', _chk_for_longslit (ext := Toy.collaborators) fitted_tracer = OK (true, s')
          ∧ rows <$> lcen s' = Some [[0]; [0]]%Q
          ∧ rows <$> rcen s' = Some [[3]; [3]]%Q.
Proof.
  do 4 (split; [reflexivity|]).
  destruct (_chk_for_longslit (ext := Toy.collaborators) fitted_tracer)
    as [[b s']|e] eqn:Hrun; [|vm_compute in Hrun; discriminate].
  destruct (RunOutputs.chk_for_longslit_decides (ext := Toy.collaborators)
              fitted_tracer b s' 1 1 1 1 eq_refl eq_refl eq_refl eq_refl Hrun)
    as ([_ Hb] & _).
  rewrite (Hb (conj eq_refl eq_refl)) in *.
  exists s'. split; [reflexivity|].
  vm_compute in Hrun. injection Hrun as <-. split; reflexivity.
Defined.
End PcaFacts.
Module Reload.
Import Np TraceSlits ResumeSpec ReloadSpec Running Persistence.

Section Reload.
Context `{ext : Collaborators}.

(** [from_files] on the two files of [write], computed. *)
Lemma from_files_write root s fs :
  from_files root (write root s fs).1
  = match tc_dict s with
    | Some tc => OK (reloaded root s tc)
    | None => Raise (KeyError "tc_dict")
    end.
Proof.
  pose proof (read_fits root s fs) as Hf.
  pose proof (read_json root s fs) as Hj.
  generalize dependent (write root s fs).1. intros fs' Hf Hj.
  pose proof (json_settings s) as Hset.
  pose proof (json_steps s) as Hstp.
  pose proof (json_tc_dict s) as Htcd.
  generalize dependent (write_dict s). intros d Hj Hset Hstp Htcd.
  unfold from_files, reloaded. rewrite Hf. unfold write_hdul.
  destruct (lcen s) as [l|].
  - destruct (rcen s) as [r|], (edgearr s) as [ea|], (siglev s) as [sl|], (input_binbpx s);
      cbn -[json_get init]; rewrite Hj; cbn -[json_get init];
      rewrite Hset; cbn -[json_get init]; rewrite Hstp; cbn -[json_get init];
      rewrite Htcd; destruct (tc_dict s); reflexivity.
  - destruct (edgearr s) as [ea|], (siglev s) as [sl|], (input_binbpx s);
      cbn -[json_get init]; rewrite Hj; cbn -[json_get init];
      rewrite Hset; cbn -[json_get init]; rewrite Hstp; cbn -[json_get init];
      rewrite Htcd; destruct (tc_dict s); reflexivity.
Qed.

(** X11.  Reading back what [write] wrote for a tracer with a
    [tc_dict] returns a tracer with the same trace image, pixel
    locations, settings, steps, edge map, significance image, [lcen]
    and [tc_dict]; [rcen] comes back when [lcen] was set; the bad-pixel
    mask comes back when it had been given, and is zero otherwise;
    [binarr] is filtered anew.  The detector number, [ednum]
    (back to 100000), [user_set], the ranges and the fits are not
    restored. *)
Theorem write_then_from_files root s fs tc :
  tc_dict s = Some tc →
  ∃ s', from_files root (write root s fs).1 = OK s'
    ∧ mstrace s' = mstrace s ∧ pixlocn s' = pixlocn s ∧ settings s' = settings s
    ∧ steps s' = steps s ∧ edgearr s' = edgearr s ∧ siglev s' = siglev s
    ∧ lcen s' = lcen s
    ∧ rcen s' = (if lcen s is Some _ then rcen s else None)
    ∧ tc_dict s' = Some tc
    ∧ input_binbpx s' = input_binbpx s
    ∧ binbpx s' = (if input_binbpx s then binbpx s
                   else map2d (λ _, 0%Q) (mstrace s))
    ∧ binarr s' = uniform_filter (mstrace s)
    ∧ det s' = None ∧ ednum s' = 100000 ∧ user_set s' = None
    ∧ lmin s' = None ∧ lmax s' = None ∧ rmin s' = None ∧ rmax s' = None
    ∧ lcoeff s' = None ∧ rcoeff s' = None.
Proof.
  intros Htc. rewrite from_files_write, Htc. eexists. split; [reflexivity|].
  unfold reloaded.
  destruct (lcen s), (rcen s), (edgearr s), (siglev s), (input_binbpx s);
    repeat split; reflexivity.
Qed.

(** X12.  For a tracer with a [tc_dict] whose [binarr] is the filtered
    trace image, the fitting phase ([_set_lrminx], the two fits, the
    long-slit check, then synchronisation, PCA and trimming) gives on
    the reloaded tracer the curves [lcen], [rcen], or the exception,
    that it gives on the tracer that was written. *)
Theorem resume_reloaded_tracer root s fs tc armlsd :
  tc_dict s = Some tc →
  binarr s = uniform_filter (mstrace s) →
  ∃ s', from_files root (write root s fs).1 = OK s'
        ∧ edge_curves <$> fit_phase armlsd s' = edge_curves <$> fit_phase armlsd s.
Proof.
  intros Htc Hbin. rewrite from_files_write, Htc. eexists. split; [reflexivity|].
  apply Resume.fit_phase_depends_on_inputs.
  unfold fit_inputs, reloaded.
  destruct (lcen s), (edgearr s), (siglev s), (input_binbpx s); simpl;
    rewrite Hbin; reflexivity.
Qed.

Lemma from_files_fresh root fs s' :
  from_files root fs = OK s' →
  det s' = None ∧ ednum s' = 100000 ∧ user_set s' = None
  ∧ lmin s' = None ∧ lmax s' = None ∧ rmin s' = None ∧ rmax s' = None
  ∧ lcnt s' = None ∧ rcnt s' = None.
Proof.
  unfold from_files. intros H.
  apply bind_OK in H as (hdul & _ & H).
  apply bind_OK in H as (mst & _ & H).
  apply bind_OK in H as (loc & _ & H).
  apply bind_OK in H as ([bpx msgs] & _ & H).
  apply bind_OK in H as (d & _ & H).
  apply bind_OK in H as (st & _ & H).
  apply bind_OK in H as (stp & _ & H).
  apply bind_OK in H as (s1 & H1 & H).
  apply bind_OK in H as (s2 & H2 & H).
  apply bind_OK in H as (s3 & H3 & H).
  apply bind_OK in H as (tc & _ & H). injection H as <-.
  destruct (hdu_mem "SIGLEV" hdul); [Running.split_binds H3|]; injection H3 as <-.
  all: destruct (hdu_mem "EDGEARR" hdul); [Running.split_binds H2|]; injection H2 as <-.
  all: destruct (hdu_mem "LCEN" hdul); [Running.split_binds H1|]; injection H1 as <-.
  all: repeat split; reflexivity.
Qed.

(** X13.  Whatever the files hold, a tracer returned by [from_files]
    has no detector number, [ednum = 100000], and neither [user_set]
    nor ranges nor edge counts; [_edgearr_single_slit] raises
    [TypeError] on it, and so does [run] when its settings name a
    single slit. *)
Theorem from_files_forgets_detector root fs s' armlsd ignore_orders add_user :
  from_files root fs = OK s' →
  det s' = None ∧ ednum s' = 100000 ∧ user_set s' = None
  ∧ lmin s' = None ∧ lmax s' = None ∧ rmin s' = None ∧ rmax s' = None
  ∧ lcnt s' = None ∧ rcnt s' = None
  ∧ _edgearr_single_slit s' = Raise TypeError
  ∧ (single (settings s') ≠ [] →
     run armlsd ignore_orders add_user s' = Raise TypeError).
Proof.
  intros H. apply from_files_fresh in H as (Hd & He & Hu & H1 & H2 & H3 & H4 & H5 & H6).
  do 9 (split; [assumption|]).
  assert (Hs : _edgearr_single_slit s' = Raise TypeError).
  { unfold _edgearr_single_slit. rewrite Hd. reflexivity. }
  split; [exact Hs|].
  intros Hne. unfold run. rewrite decide_True.
  - rewrite Hs. reflexivity.
  - destruct (single (settings s')); [congruence|simpl; lia].
Qed.

(** X10.  After a successful [run] on a tracer that had no [tc_dict]:
    with [armlsd] the tracer has one, and [from_files] returns for the
    files of [write]; without [armlsd] it still has none, and
    [from_files] raises [KeyError] for the files of [write]. *)
Theorem reload_after_run armlsd ignore_orders add_user root s s' fs :
  tc_dict s = None →
  run armlsd ignore_orders add_user s = OK s' →
  (armlsd = true →
   ∃ tc, tc_dict s' = Some tc
         ∧ from_files root (write root s' fs).1 = OK (reloaded root s' tc))
  ∧ (armlsd = false →
     tc_dict s' = None
     ∧ from_files root (write root s' fs).1 = Raise (KeyError "tc_dict")).
Proof.
  intros Hnone Hrun. apply RunResults.run_tc_dict in Hrun.
  rewrite from_files_write. split; intros ->.
  - destruct Hrun as [tc Htc]. exists tc. rewrite Htc. auto.
  - rewrite Hrun, Hnone. auto.
Qed.
End Reload.

Lemma write_then_from_files_witness :
  tc_dict crude_tracer = Some (JDict [])
  ∧ ∃ s', from_files (ext := Toy.collaborators) "trace"
            (write "trace" crude_tracer ∅).1 = OK s'
          ∧ edgearr s' = Some (Toy.bracket_edges 2 4)
          ∧ steps s' = ["make_binarr"]
          ∧ det crude_tracer = Some 1 ∧ det s' = None.
Proof.
  assert (Ht : tc_dict crude_tracer = Some (JDict [])) by reflexivity.
  split; [exact Ht|].
  destruct (write_then_from_files (ext := Toy.collaborators) "trace" crude_tracer ∅ _ Ht)
    as (s' & Hs' & _ & _ & _ & Hst & He & _ & _ & _ & _ & _ & _ & _ & Hd & _).
  exists s'. split; [exact Hs'|]. rewrite He, Hst, Hd. repeat split; reflexivity.
Defined.

Lemma resume_reloaded_tracer_witness :
  tc_dict crude_tracer = Some (JDict [])
  ∧ binarr crude_tracer = uniform_filter (Collaborators := Toy.collaborators)
                            (mstrace crude_tracer)
  ∧ ∃ s', from_files (ext := Toy.collaborators) "trace"
            (write "trace" crude_tracer ∅).1 = OK s'
          ∧ edge_curves <$> fit_phase (ext := Toy.collaborators) true s'
            = edge_curves <$> fit_phase (ext := Toy.collaborators) true crude_tracer.
Proof.
  assert (Ht : tc_dict crude_tracer = Some (JDict [])) by reflexivity.
  assert (Hb : binarr crude_tracer = uniform_filter (Collaborators := Toy.collaborators)
                                       (mstrace crude_tracer)) by reflexivity.
  split; [exact Ht|]. split; [exact Hb|].
  exact (resume_reloaded_tracer (ext := Toy.collaborators) "trace" crude_tracer ∅ _
           true Ht Hb).
Defined.

Lemma from_files_forgets_detector_witness :
  ∃ s', from_files (ext := Toy.collaborators) "trace"
          (write "trace" crude_tracer ∅).1 = OK s'
        ∧ det crude_tracer = Some 1 ∧ det s' = None
        ∧ _edgearr_single_slit (ext := Toy.collaborators) s' = Raise TypeError.
Proof.
  destruct (from_files (ext := Toy.collaborators) "trace" (write "trace" crude_tracer ∅).1)
    as [s'|e] eqn:Hrun; [|vm_compute in Hrun; discriminate].
  exists s'. split; [reflexivity|]. split; [reflexivity|].
  destruct (from_files_forgets_detector (ext := Toy.collaborators) "trace" _ s'
              true false None Hrun) as (Hd & _ & _ & _ & _ & _ & _ & _ & _ & Hs & _).
  split; assumption.
Defined.

Lemma reload_after_run_witness :
  tc_dict Toy.auto_tracer = None
  ∧ ∃ s', run (ext := Toy.collaborators) false false None Toy.auto_tracer = OK s'
          ∧ from_files (ext := Toy.collaborators) "trace" (write "trace" s' ∅).1
            = Raise (KeyError "tc_dict").
Proof.
  assert (Ht : tc_dict Toy.auto_tracer = None) by reflexivity.
  split; [exact Ht|].
  destruct (run (ext := Toy.collaborators) false false None Toy.auto_tracer)
    as [s'|e] eqn:Hrun; [|vm_compute in Hrun; discriminate].
  exists s'. split; [reflexivity|].
  destruct (reload_after_run (ext := Toy.collaborators) false false None "trace"
              Toy.auto_tracer s' ∅ Ht Hrun) as (_ & Hf).
  exact (proj2 (Hf eq_refl)).
Defined.
End Reload.
Module TrimAgain.
Import Np NpFacts TraceSlits TrimSpec TrimFacts TrimExamples.

Lemma nth_map_in {A B} (g : A → B) l k d d' :
  (k < length l)%nat → nth k (map g l) d = g (nth k l d').
Proof.
  intros Hk. rewrite (nth_indep _ d (g d')) by (rewrite length_map; exact Hk).
  apply map_nth.
Qed.

(** Column [k] of the columns [idx] of an array. *)
Lemma colv_take_cols (a : image) idx k :
  (k < length idx)%nat →
  colv (mk_ndarray (shape0 a) (length idx)
          (map (λ r, map (λ j, nth j r 0%Q) idx) (rows a))) k
  = colv a (nth k idx 0%nat).
Proof.
  intros Hk. unfold colv. simpl. rewrite map_map. apply map_ext. intros r.
  apply (nth_map_in (λ j, nth j r 0%Q)). exact Hk.
Qed.

(** The tests of [_trim_slits] look at the two columns of a slit only. *)
Lemma dropped_b_columns l r l' r' n fp u o o' :
  colv l o = colv l' o' → colv r o = colv r' o' →
  dropped_b l r n fp u o = dropped_b l' r' n fp u o'.
Proof.
  intros Hl Hr. unfold dropped_b, off_b, narrow_b. rewrite Hl, Hr. reflexivity.
Qed.

Lemma messages_of_kept l r n fp u o :
  dropped_b l r n fp u o = false → messages_of l r n fp u o = [].
Proof.
  unfold dropped_b, messages_of. intros H. apply orb_false_iff in H as [-> ->].
  reflexivity.
Qed.

Lemma filter_seq_all (P : nat → Prop) `{∀ o, Decision (P o)} k n :
  (∀ o, (k ≤ o < k + n)%nat → P o) → filter P (seq k n) = seq k n.
Proof.
  revert k. induction n as [|n IH]; intros k HP; simpl; [reflexivity|].
  rewrite filter_cons, decide_True by (apply HP; lia).
  f_equal. apply IH. intros o Ho. apply HP. lia.
Qed.

Lemma row_by_index (r : list Q) m :
  length r = m → map (λ j, nth j r 0%Q) (seq 0 m) = r.
Proof.
  intros <-. apply nth_ext with (d := 0%Q) (d' := 0%Q).
  - rewrite length_map, length_seq. reflexivity.
  - intros k Hk. rewrite length_map, length_seq in Hk.
    rewrite (nth_map_in (λ j, nth j r 0%Q) _ _ _ 0%nat) by (rewrite length_seq; exact Hk).
    rewrite seq_nth by exact Hk. reflexivity.
Qed.

Lemma take_all_cols (a : image) :
  wf a → take_cols a (seq 0 (shape1 a)) = OK a.
Proof.
  intros Hw. rewrite take_cols_wf; [|exact Hw|].
  2:{ apply Forall_forall. intros j Hj. apply elem_of_seq in Hj. lia. }
  destruct a as [n m rs]. destruct Hw as [Hl Hr]. simpl in *.
  rewrite length_seq. f_equal. f_equal.
  rewrite <- (map_id rs) at 2. apply map_ext_Forall.
  eapply Forall_impl; [exact Hr|]. intros r Hlen. simpl in Hlen.
  apply row_by_index. exact Hlen.
Qed.

Lemma concat_nil_Forall {A} (ls : list (list A)) :
  Forall (λ l, l = []) ls → concat ls = [].
Proof. induction 1 as [|l ls -> _ IH]; simpl; [reflexivity|exact IH]. Qed.

(** The arrays that trimming returns pass it unchanged and unreported. *)
Lemma trim_arrays_again lc rc ncols fi u lc' rc' msgs :
  same_shape lc rc → (0 < shape0 lc)%nat →
  trim_arrays lc rc ncols fi u = OK (lc', rc', msgs) →
  same_shape lc' rc' ∧ trim_arrays lc' rc' ncols fi u = OK (lc', rc', []).
Proof.
  intros Hshape Hrows Ht.
  pose proof Hshape as (Hwl & Hwr & H0 & H1).
  set (fp := fracpix_of fi ncols) in *.
  set (db := dropped_b lc rc ncols fp u).
  set (wok := filter (λ o, db o = false) (seq 0 (shape1 lc))).
  assert (Hin : Forall (λ j, (j < shape1 lc)%nat) wok).
  { apply Forall_forall. intros o Ho. apply list_elem_of_filter in Ho as [_ Ho].
    apply elem_of_seq in Ho. lia. }
  assert (Hin' : Forall (λ j, (j < shape1 rc)%nat) wok) by (rewrite <- H1; exact Hin).
  unfold trim_arrays in Ht.
  rewrite (trim_loop_wf lc rc ncols _ u Hshape Hrows) in Ht.
  2:{ apply Forall_forall. intros o Ho. apply elem_of_seq in Ho. lia. }
  simpl in Ht. rewrite where_false_map in Ht. fold fp db wok in Ht.
  rewrite (take_cols_wf lc wok Hwl Hin) in Ht. simpl in Ht.
  rewrite (take_cols_wf rc wok Hwr Hin') in Ht. simpl in Ht.
  injection Ht as <- <- _.
  set (L := mk_ndarray (shape0 lc) (length wok)
              (map (λ r, map (λ j, nth j r 0%Q) wok) (rows lc))).
  set (R := mk_ndarray (shape0 rc) (length wok)
              (map (λ r, map (λ j, nth j r 0%Q) wok) (rows rc))).
  assert (HwL : wf L) by (apply take_cols_wf_result; exact Hwl).
  assert (HwR : wf R) by (apply take_cols_wf_result; exact Hwr).
  assert (HS : same_shape L R) by (repeat split; try assumption; apply HwL || apply HwR).
  split; [exact HS|].
  assert (Hkept : ∀ k, (k < length wok)%nat → dropped_b L R ncols fp u k = false).
  { intros k Hk.
    rewrite (dropped_b_columns L R lc rc ncols fp u k (nth k wok 0%nat)).
    - assert (Hel : nth k wok 0%nat ∈ wok).
      { apply list_elem_of_In. apply nth_In. exact Hk. }
      apply list_elem_of_filter in Hel as [Hel _]. exact Hel.
    - apply colv_take_cols. exact Hk.
    - apply colv_take_cols. exact Hk. }
  unfold trim_arrays. fold fp.
  rewrite (trim_loop_wf L R ncols fp u HS) by (simpl; try lia;
    apply Forall_forall; intros o Ho; apply elem_of_seq in Ho; simpl; lia).
  simpl. rewrite where_false_map.
  rewrite filter_seq_all by (intros o Ho; apply Hkept; lia).
  pose proof (take_all_cols L HwL) as EL. change (shape1 L) with (length wok) in EL.
  pose proof (take_all_cols R HwR) as ER. change (shape1 R) with (length wok) in ER.
  rewrite EL. simpl. rewrite ER. simpl.
  f_equal. f_equal.
  apply concat_nil_Forall. apply Forall_forall. intros l Hl.
  apply list_elem_of_fmap in Hl as (o & -> & Ho).
  apply elem_of_seq in Ho. apply messages_of_kept. apply Hkept. lia.
Qed.

(** X14.  Trimming twice is trimming once: on arrays of one shape with
    at least one row, a second [_trim_slits] (same image, settings and
    [usefracpix]) keeps every slit, reports nothing, and only records its
    step. *)
Theorem trim_slits_idempotent usefracpix s s1 lc rc :
  lcen s = Some lc → rcen s = Some rc →
  same_shape lc rc → (0 < shape0 lc)%nat →
  _trim_slits usefracpix s = OK s1 →
  ∃ s2, _trim_slits usefracpix s1 = OK s2
        ∧ lcen s2 = lcen s1 ∧ rcen s2 = rcen s1
        ∧ log s2 = log s1
        ∧ steps s2 = steps s1 ++ ["_trim_slits"].
Proof.
  intros Hl Hr Hshape Hrows. unfold _trim_slits at 1. rewrite Hl, Hr. simpl.
  destruct (trim_arrays lc rc _ _ _) as [[[lc' rc'] msgs]|e] eqn:Ht; simpl; [|discriminate].
  intros [= <-].
  destruct (trim_arrays_again _ _ _ _ _ _ _ _ Hshape Hrows Ht) as (_ & Hagain).
  eexists. split.
  - unfold _trim_slits. simpl. rewrite Hagain. simpl. reflexivity.
  - simpl. rewrite app_nil_r. auto.
Qed.

Lemma trim_slits_idempotent_witness :
  lcen untrimmed_tracer = Some lcen3 ∧ rcen untrimmed_tracer = Some rcen3
  ∧ same_shape lcen3 rcen3 ∧ (0 < shape0 lcen3)%nat
  ∧ ∃ s1 s2, _trim_slits true untrimmed_tracer = OK s1
             ∧ _trim_slits true s1 = OK s2
             ∧ rows <$> lcen s1 = Some [[10; 40]; [10; 40]]%Q
             ∧ lcen s2 = lcen s1 ∧ rcen s2 = rcen s1.
Proof.
  assert (Hl : lcen untrimmed_tracer = Some lcen3) by reflexivity.
  assert (Hr : rcen untrimmed_tracer = Some rcen3) by reflexivity.
  assert (Hs : same_shape lcen3 rcen3).
  { repeat split; try reflexivity; repeat constructor. }
  assert (Hn : (0 < shape0 lcen3)%nat) by (simpl; lia).
  do 4 (split; [assumption|]).
  destruct (_trim_slits true untrimmed_tracer) as [s1|e] eqn:Hrun;
    [|vm_compute in Hrun; discriminate].
  assert (H1 : rows <$> lcen s1 = Some [[10; 40]; [10; 40]]%Q).
  { vm_compute in Hrun. injection Hrun as <-. reflexivity. }
  destruct (trim_slits_idempotent true untrimmed_tracer s1 lcen3 rcen3 Hl Hr Hs Hn Hrun)
    as (s2 & H2 & El & Er & _).
  exists s1, s2. split; [reflexivity|]. split; [exact H2|].
  split; [exact H1|]. split; assumption.
Defined.
End TrimAgain.
Module GratingFacts.
Import Np NpFacts KeckDEIMOS GratingSpec DeimosExamples Running.

Lemma fold_digits_nonneg ds acc :
  0 ≤ acc → 0 ≤ fold_left (λ acc d, acc * 10 + Z.of_nat d) ds acc.
Proof.
  revert acc. induction ds as [|d ds IH]; intros acc Hacc; simpl; [exact Hacc|].
  apply IH. lia.
Qed.

Lemma name_number_nonneg name : 0 ≤ name_number name.
Proof. apply fold_digits_nonneg. lia. Qed.

Lemma near_1200 n : Qltb (Qabs (inject_Z n - 1200)) (1 # 2) = true ↔ n = 1200.
Proof.
  rewrite Qltb_lt. unfold Qlt, Qabs, Qminus, Qplus, Qopp, inject_Z. simpl. lia.
Qed.

Lemma near_831 n : Qltb (Qabs (inject_Z n - 831)) 2 = true ↔ 830 ≤ n ≤ 832.
Proof.
  rewrite Qltb_lt. unfold Qlt, Qabs, Qminus, Qplus, Qopp, inject_Z. simpl. lia.
Qed.

Lemma ruling_of_digits name :
  contains "Mirror" name = false → digits_of name ≠ [] →
  ruling_of_name name = OK (adjusted_ruling (name_number name)).
Proof.
  intros Hm Hd. unfold ruling_of_name, float_of_digits. rewrite Hm.
  destruct (digits_of name) as [|d ds] eqn:Hds; [congruence|]. rewrite <- Hds.
  cbn [mbind res_bind]. fold (name_number name). unfold adjusted_ruling.
  destruct (decide (name_number name = 1200)) as [H12|H12].
  - apply near_1200 in H12. rewrite H12. reflexivity.
  - destruct (Qltb (Qabs (inject_Z (name_number name) - 1200)) (1 # 2)) eqn:E12.
    { apply near_1200 in E12. contradiction. }
    destruct (decide (830 ≤ name_number name ≤ 832)) as [H83|H83].
    + apply near_831 in H83. rewrite H83. reflexivity.
    + destruct (Qltb (Qabs (inject_Z (name_number name) - 831)) 2) eqn:E83;
        [|reflexivity].
      apply near_831 in E83. contradiction.
Qed.

Lemma int_adjusted n : Np.int (adjusted_ruling n) = nominal_ruling n.
Proof.
  unfold adjusted_ruling, nominal_ruling, Np.int.
  destruct (decide (n = 1200)) as [->|H12].
  - rewrite decide_False by lia. reflexivity.
  - destruct (decide (830 ≤ n ≤ 832)); [reflexivity|]. simpl. apply Z.quot_1_r.
Qed.

Lemma adjusted_zero n : Qeq_bool (adjusted_ruling n) 0 = true ↔ n = 0.
Proof.
  rewrite Qeq_bool_iff. unfold adjusted_ruling.
  destruct (decide (n = 1200)) as [->|H12]; [split; [intros H; vm_compute in H|]; lia|].
  destruct (decide (830 ≤ n ≤ 832)); [split; [intros H; vm_compute in H|]; lia|].
  unfold Qeq, inject_Z. simpl. lia.
Qed.

(** X16.  A grating name without 'Mirror' gives the ruling spelled by
    its digits, every other character being dropped: the number 1200 is
    stored as 1200.06, the numbers 830 to 832 as 831.90, any other as it
    is.  Its integer part, which selects the orientation coefficients, is
    the number itself, with 830 to 832 read as 831; the ruling is zero
    only for the number 0.  A name without 'Mirror' and without any digit
    raises [ValueError]. *)
Theorem ruling_of_name_reads_the_digits name :
  contains "Mirror" name = false →
  (digits_of name = [] → ruling_of_name name = Raise (ValueError float_msg))
  ∧ (digits_of name ≠ [] →
     0 ≤ name_number name
     ∧ ruling_of_name name = OK (adjusted_ruling (name_number name))
     ∧ Np.int (adjusted_ruling (name_number name)) = nominal_ruling (name_number name)
     ∧ (Qeq_bool (adjusted_ruling (name_number name)) 0 = true ↔ name_number name = 0)).
Proof.
  intros Hm. split.
  - intros Hd. unfold ruling_of_name, float_of_digits. rewrite Hm, Hd. reflexivity.
  - intros Hd. split; [apply name_number_nonneg|].
    split; [apply ruling_of_digits; assumption|].
    split; [apply int_adjusted|apply adjusted_zero].
Qed.

Lemma ruling_of_name_reads_the_digits_witness :
  contains "Mirror" "830G" = false
  ∧ name_number "830G" = 830
  ∧ ruling_of_name "830G" = OK (83190 # 100)%Q
  ∧ Np.int (83190 # 100)%Q = 831.
Proof.
  assert (Hm : contains "Mirror" "830G" = false) by reflexivity.
  split; [exact Hm|]. split; [reflexivity|].
  destruct (ruling_of_name_reads_the_digits "830G" Hm) as (_ & H).
  destruct H as (_ & Hr & Hi & _); [discriminate|].
  split; [exact Hr|exact Hi].
Defined.

Lemma orientation_slider2_ruled slider ruling tilt :
  slider = 2 → Np.int ruling ≠ 0 →
  _grating_orientation slider ruling tilt = Raise (ValueError slider2_msg).
Proof.
  intros -> Hr. unfold _grating_orientation.
  rewrite decide_False by tauto. rewrite decide_True by reflexivity. reflexivity.
Qed.

Lemma orientation_slider2_mirror slider ruling tilt :
  slider = 2 → Np.int ruling = 0 →
  _grating_orientation slider ruling tilt = OK (0, 0, - (19423 # 1000))%Q.
Proof.
  intros -> Hr. unfold _grating_orientation. rewrite decide_True by tauto. reflexivity.
Qed.

Lemma orientation_other_slider slider ruling tilt :
  slider ≠ 2 → slider ≠ 3 → slider ≠ 4 →
  _grating_orientation slider ruling tilt = Raise (KeyError (pretty slider)).
Proof.
  intros N2 N3 N4. unfold _grating_orientation, orientation_coeffs.
  rewrite decide_False by tauto. rewrite !decide_False by assumption.
  reflexivity.
Qed.

Lemma orientation_sliders_3_4 slider ruling :
  slider = 3 ∨ slider = 4 →
  ∃ k0 k1 k2 k3,
    ∀ t, _grating_orientation slider ruling t = OK (k0, k1, t * (1 - k2) + k3)%Q.
Proof.
  intros Hs.
  assert (N2 : slider ≠ 2) by (destruct Hs; lia).
  destruct (orientation_coeffs slider
              (if decide (Np.int ruling ∈ [600; 831; 900; 1200])
               then Some (Np.int ruling) else None))
    as [[[[k0 k1] k2] k3]|e] eqn:Hc.
  - exists k0, k1, k2, k3. intros t. unfold _grating_orientation.
    rewrite (decide_False (P := slider = 2 ∧ Np.int ruling = 0)) by tauto.
    rewrite (decide_False (P := slider = 2)) by exact N2.
    rewrite Hc. reflexivity.
  - exfalso. unfold orientation_coeffs in Hc.
    destruct Hs as [-> | ->]; simpl in Hc; discriminate.
Qed.

Lemma orientation_returns slider ruling tilt :
  is_OK (_grating_orientation slider ruling tilt)
  → slider = 3 ∨ slider = 4 ∨ (slider = 2 ∧ Np.int ruling = 0).
Proof.
  intros [v Hv].
  destruct (decide (slider = 3)); [auto|]. destruct (decide (slider = 4)); [auto|].
  destruct (decide (slider = 2)) as [E2|N2].
  - destruct (decide (Np.int ruling = 0)); [auto|].
    rewrite orientation_slider2_ruled in Hv by assumption. discriminate.
  - rewrite orientation_other_slider in Hv by assumption. discriminate.
Qed.

(** X15.  [_grating_orientation] returns exactly for slider 3, slider 4,
    and slider 2 with a ruling whose integer part is 0.  Slider 2 with
    another ruling raises [ValueError], any other slider [KeyError].  In
    sliders 3 and 4 roll and yaw do not depend on the tilt read from the
    header, and the tilt returned is [tilt * (1 - k2) + k3] for the
    coefficients of the slider and ruling; with the mirror in slider 2
    the result is (0, 0, -19.423). *)
Theorem grating_orientation_domain slider ruling tilt :
  (is_OK (_grating_orientation slider ruling tilt)
   ↔ slider = 3 ∨ slider = 4 ∨ (slider = 2 ∧ Np.int ruling = 0))
  ∧ (slider = 2 → Np.int ruling ≠ 0 →
     _grating_orientation slider ruling tilt = Raise (ValueError slider2_msg))
  ∧ (slider = 2 → Np.int ruling = 0 →
     _grating_orientation slider ruling tilt = OK (0, 0, - (19423 # 1000))%Q)
  ∧ (slider ≠ 2 → slider ≠ 3 → slider ≠ 4 →
     _grating_orientation slider ruling tilt = Raise (KeyError (pretty slider)))
  ∧ (slider = 3 ∨ slider = 4 →
     ∃ k0 k1 k2 k3,
       ∀ t, _grating_orientation slider ruling t = OK (k0, k1, t * (1 - k2) + k3)%Q).
Proof.
  split; [split|].
  - apply orientation_returns.
  - intros [H|[H|[H Hr]]].
    + destruct (orientation_sliders_3_4 slider ruling) as (k0 & k1 & k2 & k3 & E);
        [auto|]. rewrite E. eexists. reflexivity.
    + destruct (orientation_sliders_3_4 slider ruling) as (k0 & k1 & k2 & k3 & E);
        [auto|]. rewrite E. eexists. reflexivity.
    + rewrite orientation_slider2_mirror by assumption. eexists. reflexivity.
  - split; [apply orientation_slider2_ruled|].
    split; [apply orientation_slider2_mirror|].
    split; [apply orientation_other_slider|].
    apply orientation_sliders_3_4.
Qed.

Section Calls.
Variable slit_centers : list (list (Q * Q)) → list (Q * Q).
Variable mask_to_imaging_coordinates :
  DEIMOSOpticalModel → list Q → list Q → option Q → Z → res (list Q * list Q).
Variable ccd_coordinates :
  DEIMOSDetectorMap → list Q → list Q → res (list Z * list Q * list Q).

Lemma get_grating_frame f self g self' :
  get_grating f self = OK (g, self') →
  self' = mk_Spectrograph (slitmask self) g (optical_model self) (detector_map self).
Proof.
  unfold get_grating.
  destruct (decide (GRATEPOS (header f) = 3));
    destruct (ruling_of_name _) as [r|]; simpl; try discriminate;
    destruct (_grating_orientation _ _ _) as [[[ro ya] ti]|]; simpl; try discriminate;
    intros [= <- <-]; reflexivity.
Qed.

Lemma get_slitmask_frame f self m self' :
  get_slitmask slit_centers f self = OK (m, self') →
  self' = mk_Spectrograph (Some m) (grating self) (optical_model self)
            (detector_map self).
Proof.
  unfold get_slitmask. destruct (bluslits f); simpl; [|discriminate].
  intros [= <- <-]. reflexivity.
Qed.

(** X17.  When [get_grating] returns, only the grating attribute has
    changed, and the slider is 2, 3 or 4.  In slider 2 the grating
    stored is [None].  A grating that is stored has a positive ruling,
    comes from a name without 'Mirror', and carries the central
    wavelength of the G3TLTWAV card in slider 3 and of the G4TLTWAV card
    otherwise. *)
Theorem get_grating_result f self g self' :
  get_grating f self = OK (g, self') →
  grating self' = g
  ∧ slitmask self' = slitmask self
  ∧ optical_model self' = optical_model self
  ∧ detector_map self' = detector_map self
  ∧ GRATEPOS (header f) ∈ [2; 3; 4]
  ∧ (GRATEPOS (header f) = 2 → g = None)
  ∧ (∀ gr, g = Some gr →
       contains "Mirror" (GRATENAM (header f)) = false
       ∧ (0 < ruling gr)%Q
       ∧ central_wave gr = (if decide (GRATEPOS (header f) = 3)
                            then G3TLTWAV (header f) else G4TLTWAV (header f))).
Proof.
  unfold get_grating. intros H.
  set (slider := GRATEPOS (header f)) in *.
  set (cw := if decide (slider = 3) then G3TLTWAV (header f) else G4TLTWAV (header f)).
  set (tl := if decide (slider = 3) then G3TLTVAL (header f) else G4TLTVAL (header f)).
  assert (H' : (r ← ruling_of_name (GRATENAM (header f));
                '(roll, yaw, tilt) ← _grating_orientation slider r tl;
                let g := if Qeq_bool r 0 then None
                         else Some (mk_ReflectionGrating r tilt roll yaw cw) in
                OK (g, mk_Spectrograph (slitmask self) g (optical_model self)
                         (detector_map self))) = OK (g, self')).
  { subst cw tl. destruct (decide (slider = 3)); exact H. }
  clear H. apply bind_OK in H' as (r & Hr & H).
  apply bind_OK in H as ([[ro ya] ti] & Ho & H). injection H as <- <-. simpl.
  do 4 (split; [reflexivity|]).
  assert (Hdom : slider = 3 ∨ slider = 4 ∨ (slider = 2 ∧ Np.int r = 0)).
  { apply (orientation_returns slider r tl). eexists. exact Ho. }
  split; [rewrite !elem_of_cons; tauto|].
  assert (Hcases : (contains "Mirror" (GRATENAM (header f)) = true ∧ r = 0%Q)
                   ∨ (contains "Mirror" (GRATENAM (header f)) = false
                      ∧ r = adjusted_ruling (name_number (GRATENAM (header f))))).
  { destruct (contains "Mirror" (GRATENAM (header f))) eqn:Hm.
    - left. split; [reflexivity|]. unfold ruling_of_name in Hr. rewrite Hm in Hr.
      congruence.
    - right. split; [reflexivity|].
      destruct (digits_of (GRATENAM (header f))) as [|d ds] eqn:Hd.
      + unfold ruling_of_name, float_of_digits in Hr. rewrite Hm, Hd in Hr. discriminate.
      + rewrite ruling_of_digits in Hr by (assumption || congruence). congruence. }
  split.
  - intros E2. destruct Hdom as [?|[?|[_ Hz]]]; try lia.
    destruct Hcases as [[_ ->]|[_ ->]]; [reflexivity|].
    rewrite int_adjusted in Hz.
    assert (Hn : name_number (GRATENAM (header f)) = 0).
    { unfold nominal_ruling in Hz. case_decide; lia. }
    apply adjusted_zero in Hn. rewrite Hn. reflexivity.
  - intros gr Hg. destruct (Qeq_bool r 0) eqn:Hz; [discriminate|].
    injection Hg as <-. simpl.
    destruct Hcases as [[_ ->]|[Hm ->]]; [discriminate|].
    split; [exact Hm|]. split; [|reflexivity].
    pose proof (name_number_nonneg (GRATENAM (header f))) as Hnn.
    unfold adjusted_ruling in *.
    repeat case_decide; try reflexivity.
    unfold Qlt, inject_Z. simpl.
    assert (name_number (GRATENAM (header f)) ≠ 0).
    { intros E. rewrite E in Hz. discriminate. }
    lia.
Qed.

Abbreviation mtpc := (mask_to_pixel_coordinates slit_centers mask_to_imaging_coordinates
                    ccd_coordinates).

(** X18.  When [mask_to_pixel_coordinates] returns, both coordinates
    were given or neither; the object holds a grating, an optical model
    of that grating, and a detector map, the one it had if it had one
    and a new one otherwise.  Without a file, slit mask and grating are
    unchanged; with coordinates, the slit mask is unchanged even if a
    file is given; without coordinates a slit mask is held. *)
Theorem mask_to_pixel_coordinates_updates x y wave order filename self chip xp yp self' :
  mtpc x y wave order filename self = OK (chip, xp, yp, self') →
  (x = None ↔ y = None)
  ∧ (∃ g, grating self' = Some g
          ∧ optical_model self' = Some (mk_DEIMOSOpticalModel g))
  ∧ detector_map self' = Some (default new_detector_map (detector_map self))
  ∧ (filename = None → slitmask self' = slitmask self ∧ grating self' = grating self)
  ∧ (is_Some x → slitmask self' = slitmask self)
  ∧ (x = None → is_Some (slitmask self')).
Proof.
  unfold mask_to_pixel_coordinates. intros H.
  apply bind_OK in H as ([] & Hxy & H).
  destruct (bool_decide (x = None ∧ y ≠ None ∨ x ≠ None ∧ y = None)) eqn:Exy;
    [discriminate|]. clear Hxy. apply bool_decide_eq_false_1 in Exy.
  assert (Hboth : x = None ↔ y = None).
  { destruct x, y; split; try reflexivity; try discriminate;
      intros _; exfalso; apply Exy; [right|left]; split; congruence. }
  apply bind_OK in H as (self1 & H1 & H).
  apply bind_OK in H as ([] & Hc & H).
  destruct (bool_decide (x = None ∧ y = None ∧ slitmask self1 = None)) eqn:Enone;
    [discriminate|]. clear Hc. apply bool_decide_eq_false_1 in Enone.
  apply bind_OK in H as (_x & Hx & H). apply bind_OK in H as (_y & Hy & H).
  apply bind_OK in H as (g & Hg & H).
  apply bind_OK in H as ([xi yi] & _ & H).
  apply bind_OK in H as ([[c xpix] ypix] & _ & H). injection H as <- <- <- <-.
  simpl.
  destruct (grating self1) as [g'|] eqn:Eg; [|discriminate]. injection Hg as ->.
  assert (Hself1 : detector_map self1 = detector_map self
                   ∧ (filename = None → self1 = self)
                   ∧ (is_Some x → slitmask self1 = slitmask self)).
  { destruct filename as [f|].
    - apply bind_OK in H1 as (self0 & H0 & H1).
      destruct (get_grating f self0) as [[g0 s0]|] eqn:Hgr; [|discriminate].
      injection H1 as <-. apply get_grating_frame in Hgr as ->. simpl.
      destruct (bool_decide (x = None ∧ y = None)) eqn:Exn.
      + apply bool_decide_eq_true_1 in Exn as [-> _].
        destruct (get_slitmask slit_centers f self) as [[m s0]|] eqn:Hm; [|discriminate].
        injection H0 as <-. apply get_slitmask_frame in Hm as ->. simpl.
        split; [reflexivity|]. split; [discriminate|]. intros [? ?]. discriminate.
      + injection H0 as <-. split; [reflexivity|]. split; [discriminate|]. reflexivity.
    - injection H1 as <-. auto. }
  destruct Hself1 as (Hdm & Hnofile & Hcoord).
  split; [exact Hboth|]. split; [eauto|].
  split; [rewrite <- Hdm; destruct (detector_map self1); reflexivity|].
  split; [intros Hn; rewrite (Hnofile Hn) in *; auto|].
  split; [exact Hcoord|].
  intros Hxn. destruct (slitmask self1) eqn:Es; [eauto|].
  exfalso. apply Enone. split; [exact Hxn|]. split; [apply Hboth; exact Hxn|reflexivity].
Qed.
End Calls.

Lemma get_grating_result_witness :
  ∃ gr self', get_grating grating_file new_spectrograph = OK (Some gr, self')
              ∧ grating self' = Some gr
              ∧ (0 < ruling gr)%Q
              ∧ central_wave gr = (8500 + (1 # 128))%Q.
Proof.
  destruct (get_grating grating_file new_spectrograph) as [[[gr|] self']|e] eqn:Hg;
    try (vm_compute in Hg; discriminate).
  exists gr, self'. split; [reflexivity|].
  destruct (get_grating_result grating_file new_spectrograph _ _ Hg)
    as (H1 & _ & _ & _ & _ & _ & H7).
  destruct (H7 gr eq_refl) as (_ & Hpos & Hcw).
  split; [exact H1|]. split; [exact Hpos|exact Hcw].
Defined.

Lemma mask_to_pixel_coordinates_updates_witness :
  ∃ chip xp yp self',
    call None None None 1 (Some grating_file) new_spectrograph = OK (chip, xp, yp, self')
    ∧ detector_map self' = Some new_detector_map
    ∧ is_Some (slitmask self').
Proof.
  destruct (call None None None 1 (Some grating_file) new_spectrograph)
    as [[[[chip xp] yp] self']|e] eqn:Hc; [|vm_compute in Hc; discriminate].
  exists chip, xp, yp, self'. split; [reflexivity|].
  unfold call in Hc.
  destruct (mask_to_pixel_coordinates_updates slit_centers mask_to_imaging_coordinates
              ccd_coordinates _ _ _ _ _ _ _ _ _ _ Hc) as (_ & _ & Hd & _ & _ & Hm).
  split; [exact Hd|]. apply Hm. reflexivity.
Defined.
End GratingFacts.
Module Knots.
Import Np NpFacts KeckDEIMOS DistortionSpec KnotSpec Distortion.

Lemma increasing_b_cons a l :
  increasing_b (a :: l) = true → increasing_b l = true ∧ Forall (λ v, (a < v)%Q) l.
Proof.
  revert a. induction l as [|b l IH]; intros a H; [split; [reflexivity|constructor]|].
  cbn [increasing_b] in H. apply andb_true_iff in H as [Hab Hl].
  split; [exact Hl|]. apply Qltb_lt in Hab.
  constructor; [exact Hab|].
  destruct (IH b Hl) as [_ HF]. eapply Forall_impl; [exact HF|].
  intros v Hv. simpl in Hv. eapply Qlt_trans; eassumption.
Qed.

Lemma Qltb_irrefl a : Qltb a a = false.
Proof. apply Qltb_ge. apply Qle_refl. Qed.

(** In an increasing table [np.searchsorted] finds a knot at its own
    position. *)
Lemma searchsorted_at_knot l k v :
  increasing_b l = true → l !! k = Some v → searchsorted l v = k.
Proof.
  revert k. induction l as [|a l IH]; intros k Hinc Hk; [discriminate|].
  apply increasing_b_cons in Hinc as [Hl HF].
  destruct k as [|k]; simpl in *.
  - injection Hk as ->. rewrite Qltb_irrefl. reflexivity.
  - assert (Hav : (a < v)%Q).
    { rewrite Forall_forall in HF. apply HF. eapply list_elem_of_lookup_2. exact Hk. }
    apply Qltb_lt in Hav. rewrite Hav. f_equal. apply IH; assumption.
Qed.

Lemma increasing_lookup l i j a b :
  increasing_b l = true → l !! i = Some a → l !! j = Some b → (i < j)%nat → (a < b)%Q.
Proof.
  revert i j. induction l as [|x l IH]; intros i j Hinc Hi Hj Hlt; [discriminate|].
  apply increasing_b_cons in Hinc as [Hl HF].
  destruct j as [|j]; [lia|]. destruct i as [|i]; simpl in *.
  - injection Hi as ->. rewrite Forall_forall in HF. apply HF.
    eapply list_elem_of_lookup_2. exact Hj.
  - apply (IH i j); [assumption..|lia].
Qed.

(** The linear interpolant passes through its knots. *)
Lemma interp_at_knot it k xk yk :
  increasing_b (ix it) = true →
  (1 ≤ k)%nat → ix it !! k = Some xk → iy it !! k = Some yk →
  length (iy it) = length (ix it) →
  ∃ w, interp_at it xk = OK w ∧ (w == yk)%Q.
Proof.
  intros Hinc Hk Hx Hy Hlen. unfold interp_at.
  rewrite (searchsorted_at_knot _ k xk Hinc Hx).
  pose proof (lookup_lt_Some _ _ _ Hx) as Hkn.
  replace (Nat.min (Nat.max k 1) (length (ix it) - 1)) with k by lia.
  destruct (lookup_lt_is_Some_2 (ix it) (k - 1)) as [xl Hxl]; [lia|].
  destruct (lookup_lt_is_Some_2 (iy it) (k - 1)) as [yl Hyl]; [lia|].
  rewrite Hxl, Hx, Hyl, Hy. simpl. eexists. split; [reflexivity|].
  assert (Hlt : (xl < xk)%Q).
  { apply (increasing_lookup (ix it) (k - 1) k); [assumption..|lia]. }
  field. intros Hz. apply (Qlt_not_eq _ _ Hlt).
  assert (E : (xl == xk - (xk - xl))%Q) by ring.
  rewrite E, Hz. ring.
Qed.

(** The round trip through the table at one of its inner knots. *)
Lemma round_trip_at_knot c xs k xk :
  ix (interpolator c) = map (remove_distortion c) xs →
  iy (interpolator c) = xs →
  increasing_b (ix (interpolator c)) = true →
  (1 ≤ k)%nat → (S k < length xs)%nat → xs !! k = Some xk →
  ∃ v, apply_distortion c [remove_distortion c xk] = OK ([v], []) ∧ (v == xk)%Q.
Proof.
  intros Hix Hiy Hinc Hk1 Hkn Hk.
  set (it := interpolator c) in *. set (y := remove_distortion c xk).
  assert (Hlen : length (ix it) = length xs) by (rewrite Hix; apply length_map).
  assert (Hy : ix it !! k = Some y).
  { rewrite Hix, list_lookup_fmap, Hk. reflexivity. }
  destruct (lookup_lt_is_Some_2 (ix it) 0) as [x0 Hx0]; [lia|].
  destruct (lookup_lt_is_Some_2 (ix it) (length (ix it) - 1)) as [xn Hxn]; [lia|].
  assert (Hhead : head (ix it) = Some x0) by (rewrite <- Hx0; destruct (ix it); reflexivity).
  assert (Hlast : last (ix it) = Some xn) by (rewrite last_lookup, <- Hxn; f_equal; lia).
  assert (H0y : Qltb x0 y = true).
  { apply Qltb_lt. apply (increasing_lookup (ix it) 0 k); [assumption..|lia]. }
  assert (Hyn : Qltb y xn = true).
  { apply Qltb_lt. apply (increasing_lookup (ix it) k (length (ix it) - 1));
      [assumption..|lia]. }
  destruct (interp_at_knot it k y xk Hinc Hk1 Hy) as (w & Hw & Hwx).
  { rewrite Hiy. exact Hk. }
  { rewrite Hiy. symmetry. exact Hlen. }
  exists w. split; [|exact Hwx].
  unfold apply_distortion. fold it.
  rewrite py_index_first, py_index_last, Hhead, Hlast. cbn [of_option mbind res_bind].
  cbn [map forallb]. rewrite H0y, Hyn. cbn [andb id].
  rewrite filter_cons, decide_True by (rewrite H0y, Hyn; exact I).
  rewrite filter_nil.
  unfold interp_call. rewrite Hhead, Hlast. cbn [of_option mbind res_bind existsb].
  apply Qltb_lt in H0y, Hyn.
  rewrite (proj2 (Qltb_ge y x0)) by (apply Qlt_le_weak; exact H0y).
  rewrite (proj2 (Qltb_ge xn y)) by (apply Qlt_le_weak; exact Hyn).
  cbn [orb mapR mbind res_bind]. rewrite Hw. reflexivity.
Qed.

Lemma tabulates_grid_b_sound c : tabulates_grid_b c = true → tabulates_grid c.
Proof.
  unfold tabulates_grid_b, tabulates_grid. intros H.
  apply andb_true_iff in H as [H H3]. apply andb_true_iff in H as [H1 H2].
  apply bool_decide_eq_true_1 in H1. apply bool_decide_eq_true_1 in H2. auto.
Qed.

(** The table of the constructor. *)
Lemma new_distortion_table c : new_distortion = OK c → tabulates_grid c.
Proof.
  intros Hc. apply tabulates_grid_b_sound.
  assert (H : match new_distortion with
              | OK c => tabulates_grid_b c
              | Raise _ => false
              end = true) by (vm_compute; reflexivity).
  rewrite Hc in H. exact H.
Qed.

Lemma grid_length : length grid = 1000%nat.
Proof. apply linspace_length. Qed.

(** X20.  At each of the 998 inner angles that the constructor
    tabulates, the round trip through a fresh distortion object is exact:
    [apply_distortion(remove_distortion(x))] is [x], and no warning is
    issued. *)
Theorem distortion_round_trip_at_grid c k :
  new_distortion = OK c → (1 ≤ k ≤ 998)%nat →
  ∃ xk v,
    grid !! k = Some xk
    ∧ apply_distortion c [remove_distortion c xk] = OK ([v], [])
    ∧ (v == xk)%Q.
Proof.
  intros Hc Hk. destruct (new_distortion_table c Hc) as (Hix & Hiy & Hinc).
  destruct (lookup_lt_is_Some_2 grid k) as [xk Hxk]; [rewrite grid_length; lia|].
  destruct (round_trip_at_knot c grid k xk Hix Hiy Hinc) as (v & Hv & Hvx);
    [lia | rewrite grid_length; lia | exact Hxk |].
  exists xk, v. auto.
Qed.

Lemma distortion_round_trip_at_grid_witness :
  ∃ c, new_distortion = OK c
       ∧ (1 ≤ 500 ≤ 998)%nat
       ∧ ∃ xk v, grid !! 500%nat = Some xk
                 ∧ apply_distortion c [remove_distortion c xk] = OK ([v], [])
                 ∧ (v == xk)%Q.
Proof.
  destruct new_distortion_OK as [c Hc]. exists c. split; [exact Hc|].
  assert (Hk : (1 ≤ 500 ≤ 998)%nat) by lia. split; [exact Hk|].
  exact (distortion_round_trip_at_grid c 500 Hc Hk).
Defined.

(** X19.  [remove_distortion] is odd: the image of [-x] is the opposite
    of the image of [x], whatever the coefficients. *)
Theorem remove_distortion_odd c x :
  (remove_distortion c (- x) == - remove_distortion c x)%Q.
Proof.
  unfold remove_distortion, remove_distortion_with. cbv zeta. unfold Qdiv.
  assert (E : (- x * - x == x * x)%Q) by ring.
  rewrite E. ring.
Qed.
End Knots.
Module Bounded.
Import Np NpFacts KeckDEIMOS DistortionSpec KnotSpec Distortion Knots.

(** [np.searchsorted]: the knots before the position found are below the
    value, and the knot at it, if any, is not. *)
Lemma searchsorted_spec l v :
  (searchsorted l v ≤ length l)%nat
  ∧ (∀ i a, (i < searchsorted l v)%nat → l !! i = Some a → (a < v)%Q)
  ∧ (∀ a, l !! searchsorted l v = Some a → (v <= a)%Q).
Proof.
  induction l as [|x l (IH1 & IH2 & IH3)]; simpl.
  - split; [lia|]. split; [intros; lia|]. intros a Ha. discriminate.
  - destruct (Qltb x v) eqn:Hx.
    + split; [lia|]. split.
      * intros [|i] a Hi Ha; simpl in Ha.
        -- injection Ha as <-. apply Qltb_lt. exact Hx.
        -- apply (IH2 i); [lia|exact Ha].
      * intros a Ha. simpl in Ha. apply IH3. exact Ha.
    + split; [lia|]. split; [intros; lia|].
      intros a Ha. simpl in Ha. injection Ha as <-. apply Qltb_ge. exact Hx.
Qed.

(** Inside the table the interpolated value lies between the two
    tabulated values around it. *)
Lemma interp_at_between it x0 xn v w :
  increasing_b (ix it) = true → increasing_b (iy it) = true →
  length (iy it) = length (ix it) →
  head (ix it) = Some x0 → last (ix it) = Some xn →
  (x0 < v)%Q → (v < xn)%Q →
  interp_at it v = OK w →
  ∃ k xl xh yl yh,
    ix it !! k = Some xl ∧ ix it !! S k = Some xh
    ∧ iy it !! k = Some yl ∧ iy it !! S k = Some yh
    ∧ (xl < v)%Q ∧ (v <= xh)%Q ∧ (yl < w)%Q ∧ (w <= yh)%Q.
Proof.
  intros Hix Hiy Hlen Hhead Hlast H0 Hn Hw.
  destruct (searchsorted_spec (ix it) v) as (Hs1 & Hs2 & Hs3).
  set (s := searchsorted (ix it) v) in *.
  assert (Hpos : (0 < length (ix it))%nat) by (destruct (ix it); [discriminate|simpl; lia]).
  assert (Hs_ge : (1 ≤ s)%nat).
  { destruct s as [|s'] eqn:Es; [|lia]. exfalso.
    assert (Hx0 : ix it !! 0%nat = Some x0) by (destruct (ix it); [discriminate|exact Hhead]).
    specialize (Hs3 x0 Hx0). exact (Qlt_not_le _ _ H0 Hs3). }
  assert (Hs_lt : (s < length (ix it))%nat).
  { destruct (decide (s < length (ix it))%nat) as [|Hge]; [assumption|]. exfalso.
    rewrite last_lookup in Hlast.
    assert (Hlt : (xn < v)%Q).
    { apply (Hs2 (Nat.pred (length (ix it)))); [lia|exact Hlast]. }
    exact (Qlt_irrefl _ (Qlt_trans _ _ _ Hlt Hn)). }
  unfold interp_at in Hw. fold s in Hw.
  replace (Nat.min (Nat.max s 1) (length (ix it) - 1)) with s in Hw by lia.
  destruct (ix it !! (s - 1)%nat) as [xl|] eqn:Hxl; [|discriminate].
  destruct (ix it !! s) as [xh|] eqn:Hxh; [|discriminate].
  destruct (iy it !! (s - 1)%nat) as [yl|] eqn:Hyl; [|discriminate].
  destruct (iy it !! s) as [yh|] eqn:Hyh; [|discriminate].
  simpl in Hw. injection Hw as <-.
  exists (s - 1)%nat, xl, xh, yl, yh.
  replace (S (s - 1)) with s by lia.
  do 4 (split; [assumption|]).
  assert (Hlv : (xl < v)%Q) by (apply (Hs2 (s - 1)%nat); [lia|exact Hxl]).
  assert (Hvh : (v <= xh)%Q) by (apply Hs3; reflexivity).
  assert (Hyy : (yl < yh)%Q).
  { apply (increasing_lookup (iy it) (s - 1) s); [assumption..|lia]. }
  assert (Hxx : (xl < xh)%Q) by (eapply Qlt_le_trans; eassumption).
  split; [exact Hlv|]. split; [exact Hvh|].
  assert (Hd : (0 < xh - xl)%Q) by exact (proj1 (Qlt_minus_iff _ _) Hxx).
  assert (Hnz : ¬ (xh - xl == 0)%Q).
  { intros E. rewrite E in Hd. exact (Qlt_irrefl _ Hd). }
  set (t := ((v - xl) / (xh - xl))%Q).
  assert (Ht0 : (0 < t)%Q).
  { unfold t. apply Qlt_shift_div_l; [exact Hd|]. rewrite Qmult_0_l.
    exact (proj1 (Qlt_minus_iff _ _) Hlv). }
  assert (Ht1 : (t <= 1)%Q).
  { unfold t. apply Qle_shift_div_r; [exact Hd|]. rewrite Qmult_1_l.
    apply Qplus_le_l with (z := xl). ring_simplify. exact Hvh. }
  assert (Ew : ((yh - yl) / (xh - xl) * (v - xl) + yl == yl + (yh - yl) * t)%Q).
  { unfold t. field. exact Hnz. }
  assert (Hdy : (0 < yh - yl)%Q) by exact (proj1 (Qlt_minus_iff _ _) Hyy).
  split.
  - rewrite Ew. rewrite <- (Qplus_0_r yl) at 1. apply Qplus_lt_r.
    apply Qmult_lt_0_compat; assumption.
  - rewrite Ew.
    assert (Hm : ((yh - yl) * t <= (yh - yl) * 1)%Q).
    { apply (proj2 (Qmult_le_l _ _ _ Hdy)). exact Ht1. }
    assert (E2 : (yl + (yh - yl) * 1 == yh)%Q) by ring.
    apply Qle_trans with (yl + (yh - yl) * 1)%Q.
    + apply Qplus_le_r. exact Hm.
    + rewrite E2. apply Qle_refl.
Qed.

Lemma grid_increasing : increasing_b grid = true.
Proof. vm_compute. reflexivity. Qed.

Lemma grid_bounds g : g ∈ grid → (- (6 # 10) <= g ∧ g <= 6 # 10)%Q.
Proof.
  assert (H : forallb (λ g, Qle_bool (- (6 # 10)) g && Qle_bool g (6 # 10)) grid = true)
    by (vm_compute; reflexivity).
  rewrite forallb_forall in H. intros Hg. apply list_elem_of_In in Hg.
  specialize (H g Hg). apply andb_true_iff in H as [H1 H2].
  split; apply Qle_bool_iff; assumption.
Qed.


End Bounded.
Module FrameFacts.
Import Np DeimosFrames FrameSpec Running.

Ltac eval_mod :=
  repeat match goal with
         | |- context [?a `mod` 4] =>
             let v := eval vm_compute in (a `mod` 4) in change (a `mod` 4) with v
         end.

(** X22.  The rectangles of [indexing].  For the mosaic (no detector
    given) and a non-negative [postpix], the data of chip [t] (0 to 7)
    lies in the columns 0 to 8192, its overscan in the [4 * postpix]
    columns that follow, both in the rows 0 to 8192; the data of two
    different chips do not overlap, nor do their overscans, nor the data
    of one and the overscan of any.  With a detector given the result
    does not depend on the chip or the detector: data in columns 0 to
    2048 and rows 0 to 4096, overscan in the [postpix] columns that
    follow. *)
Theorem indexing_layout postpix :
  0 ≤ postpix →
  (∀ t, 0 ≤ t < 8 →
     within (data_rect t postpix None) 0 8192
     ∧ within (oscan_rect t postpix None) 8192 (8192 + 4 * postpix))
  ∧ (∀ t u, 0 ≤ t < 8 → 0 ≤ u < 8 → t ≠ u →
       disjoint (data_rect t postpix None) (data_rect u postpix None)
       ∧ disjoint (oscan_rect t postpix None) (oscan_rect u postpix None))
  ∧ (∀ t u, 0 ≤ t < 8 → 0 ≤ u < 8 →
       disjoint (data_rect t postpix None) (oscan_rect u postpix None))
  ∧ (∀ itt d,
       indexing itt postpix (Some d)
       = (0, 2048, 0, 4096, 2048, 2048 + postpix, 0, 4096)).
Proof.
  intros Hp.
  assert (Hcase : ∀ t, 0 ≤ t < 8 →
            t = 0 ∨ t = 1 ∨ t = 2 ∨ t = 3 ∨ t = 4 ∨ t = 5 ∨ t = 6 ∨ t = 7) by (intros; lia).
  split; [|split; [|split]].
  - intros t Ht.
    destruct (Hcase t Ht) as [->|[->|[->|[->|[->|[->|[->| ->]]]]]]];
      unfold data_rect, oscan_rect, indexing, within; simpl; eval_mod; lia.
  - intros t u Ht Hu Hne.
    destruct (Hcase t Ht) as [->|[->|[->|[->|[->|[->|[->| ->]]]]]]];
      destruct (Hcase u Hu) as [->|[->|[->|[->|[->|[->|[->| ->]]]]]]];
      try congruence;
      unfold data_rect, oscan_rect, indexing, disjoint; simpl; eval_mod; lia.
  - intros t u Ht Hu.
    destruct (Hcase t Ht) as [->|[->|[->|[->|[->|[->|[->| ->]]]]]]];
      destruct (Hcase u Hu) as [->|[->|[->|[->|[->|[->|[->| ->]]]]]]];
      unfold data_rect, oscan_rect, indexing, disjoint; simpl; eval_mod; lia.
  - intros itt d. unfold indexing. simpl. reflexivity.
Qed.

Lemma indexing_layout_witness :
  0 ≤ 8
  ∧ data_rect 5 8 None = (2048, 4096, 4096, 8192)
  ∧ oscan_rect 5 8 None = (8200, 8208, 4096, 8192)
  ∧ disjoint (data_rect 5 8 None) (data_rect 1 8 None)
  ∧ indexing 5 8 (Some 6) = (0, 2048, 0, 4096, 2048, 2056, 0, 4096).
Proof.
  assert (Hp : 0 ≤ 8) by lia. split; [exact Hp|].
  destruct (indexing_layout 8 Hp) as (_ & Hd & _ & Hs).
  split; [reflexivity|]. split; [reflexivity|].
  split; [apply (Hd 5 1); lia|]. apply (Hs 5 6).
Defined.
End FrameFacts.

Module BpmFacts.
Import Np DeimosFrames FrameSpec Running.

Lemma get_set_cols lo hi (a : ndarray Z) r c :
  get (set_cols lo hi a) r c
  = (λ v, if decide (lo ≤ c < hi)%nat then 1 else v) <$> get a r c.
Proof.
  unfold get, set_cols. simpl. rewrite list_lookup_fmap.
  destruct (rows a !! r) as [row|]; simpl; [|reflexivity].
  rewrite list_lookup_imap. destruct (row !! c); reflexivity.
Qed.

Lemma set_col_OK c (a : ndarray Z) :
  (c < shape1 a)%nat → set_col c a = OK (set_cols c (S c) a).
Proof. intros H. unfold set_col. rewrite decide_True by exact H. reflexivity. Qed.

Lemma set_col_Raise c (a : ndarray Z) :
  (shape1 a ≤ c)%nat → set_col c a = Raise IndexError.
Proof. intros H. unfold set_col. rewrite decide_False by lia. reflexivity. Qed.

Lemma other_detector det :
  det ≠ Some 1 → det ≠ Some 2 → det ≠ Some 3 → det ≠ Some 4 → det ≠ Some 5 →
  det ≠ Some 7 → det ≠ Some 8 →
  bad_columns det = [] ∧ needed_width det = 0%nat.
Proof.
  intros. destruct det as [[|p|p]|]; try (split; reflexivity).
  do 4 (try destruct p as [p|p|]); try (split; reflexivity); congruence.
Qed.

Ltac columns :=
  intros r c; rewrite ?get_set_cols; rewrite <- ?option_fmap_compose;
  apply option_fmap_ext; intros v; simpl;
  repeat case_decide; try reflexivity;
  repeat match goal with
         | H : _ ∈ _ |- _ => rewrite ?elem_of_cons, ?elem_of_nil in H
         | H : ¬ (_ ∈ _) |- _ => rewrite ?elem_of_cons, ?elem_of_nil in H
         end; exfalso; lia.

Section Bpm.
Variable empty_bpm : option string → option Z → res (ndarray Z).

(** X23.  The mask of [bpm].  Let [empty_bpm] leave the mask [img].
    [bpm] raises IndexError when [img] is narrower than the single
    columns it sets for the detector (2048 columns for detector 2,
    852 for detector 3, 130 for detector 5, 934 for detector 8; the
    ranges it sets are clipped instead).  Otherwise it returns a mask
    of the shape of [img] whose entries are 1 in the bad columns of
    the detector and those of [img] elsewhere; for detector 6, for any
    other number and for no detector the mask is [img]. *)
Theorem bpm_masks_bad_columns filename det img :
  empty_bpm filename det = OK img →
  ((shape1 img < needed_width det)%nat →
     bpm empty_bpm filename det = Raise IndexError)
  ∧ ((needed_width det ≤ shape1 img)%nat →
       ∃ out, bpm empty_bpm filename det = OK out
              ∧ shape0 out = shape0 img ∧ shape1 out = shape1 img
              ∧ length (rows out) = length (rows img)
              ∧ (∀ r c, get out r c
                        = (λ v, if decide (c ∈ bad_columns det) then 1 else v)
                            <$> get img r c)
              ∧ (bad_columns det = [] → out = img)).
Proof.
  intros He. unfold bpm. rewrite He. simpl.
  destruct (decide (det = Some 1)) as [->|H1].
  { split; [simpl; lia|]. intros _. eexists. split; [reflexivity|].
    repeat split; simpl; [apply length_map| columns | discriminate]. }
  destruct (decide (det = Some 2)) as [->|H2].
  { simpl. split.
    - intros Hw. apply set_col_Raise. simpl. lia.
    - intros Hw. rewrite set_col_OK by (simpl; lia). eexists. split; [reflexivity|].
      repeat split; simpl; [rewrite !length_map; reflexivity| columns | discriminate]. }
  destruct (decide (det = Some 3)) as [->|H3].
  { simpl. split.
    - intros Hw. apply set_col_Raise. lia.
    - intros Hw. rewrite set_col_OK by lia. eexists. split; [reflexivity|].
      repeat split; simpl; [rewrite !length_map; reflexivity| columns | discriminate]. }
  destruct (decide (det = Some 4)) as [->|H4].
  { split; [simpl; lia|]. intros _. eexists. split; [reflexivity|].
    repeat split; simpl; [rewrite !length_map; reflexivity| columns | discriminate]. }
  destruct (decide (det = Some 5)) as [->|H5].
  { simpl. split.
    - intros Hw. apply set_col_Raise. lia.
    - intros Hw. rewrite set_col_OK by lia. eexists. split; [reflexivity|].
      repeat split; simpl; [rewrite !length_map; reflexivity| columns | discriminate]. }
  destruct (decide (det = Some 7)) as [->|H7].
  { split; [simpl; lia|]. intros _. eexists. split; [reflexivity|].
    repeat split; simpl; [rewrite !length_map; reflexivity| columns | discriminate]. }
  destruct (decide (det = Some 8)) as [->|H8].
  { simpl. split.
    - intros Hw. destruct (decide (931 < shape1 img)%nat) as [Hlt|Hge].
      + rewrite set_col_OK by exact Hlt. simpl. apply set_col_Raise. simpl. lia.
      + rewrite set_col_Raise by lia. reflexivity.
    - intros Hw. rewrite set_col_OK by lia. simpl.
      rewrite set_col_OK by (simpl; lia). eexists. split; [reflexivity|].
      repeat split; simpl; [rewrite !length_map; reflexivity| columns | discriminate]. }
  destruct (other_detector det H1 H2 H3 H4 H5 H7 H8) as [Hb Hn].
  rewrite Hb, Hn. split; [lia|]. intros _. exists img. split; [reflexivity|].
  repeat split. intros r c. destruct (get img r c); reflexivity.
Qed.
End Bpm.

Lemma bpm_masks_bad_columns_witness :
  empty_bpm0 None (Some 2) = OK (Np.zeros 0 2 2048)
  ∧ (∃ out, bpm empty_bpm0 None (Some 2) = OK out
            ∧ get out 1 377 = Some 1 ∧ get out 1 380 = Some 0
            ∧ get out 0 2047 = Some 1 ∧ get out 0 2048 = None).
Proof.
  assert (He : empty_bpm0 None (Some 2) = OK (Np.zeros 0 2 2048)) by reflexivity.
  split; [exact He|].
  destruct (bpm_masks_bad_columns empty_bpm0 None (Some 2) _ He) as [_ Hok].
  destruct Hok as (out & Hout & _ & _ & _ & Hget & _); [simpl; lia|].
  exists out. split; [exact Hout|].
  rewrite !Hget. repeat split; vm_compute; reflexivity.
Defined.
End BpmFacts.

Module TableFacts.
Import Np DeimosFrames FrameSpec Running.

Lemma mask_assign_OK (mask : list bool) (dst src : list Q) :
  length mask = length dst → length mask = length src →
  ∃ d, mask_assign mask dst src = OK d
       ∧ length d = length dst
       ∧ ∀ (i : nat) (m : bool), mask !! i = Some m →
                d !! i = if m then src !! i else dst !! i.
Proof.
  intros H1 H2. unfold mask_assign. rewrite decide_True by (split; assumption).
  eexists. split; [reflexivity|]. split.
  - rewrite length_zip_with, length_zip. lia.
  - intros i m Hm.
    assert (Hi : (i < length mask)%nat) by (eapply lookup_lt_Some; exact Hm).
    destruct (lookup_lt_is_Some_2 dst i) as [x Hx]; [lia|].
    destruct (lookup_lt_is_Some_2 src i) as [y Hy]; [lia|].
    rewrite lookup_zip_with, Hm. simpl.
    rewrite lookup_zip_with, Hx, Hy. simpl. destruct m; reflexivity.
Qed.

(** X24.  [add_to_fitstbl] on a table with [n] frames returns, changes
    only the column [dispangle], and leaves in it the tilt [g3tltwav] of
    the frame for every frame taken with grating position 3 or 4 (also
    for position 4: [g4tltwav] is never read) and the old entry for
    every other frame. *)
Theorem add_to_fitstbl_sets_dispangle n t :
  table_of n t →
  ∃ t', add_to_fitstbl t = OK t'
        ∧ gratepos t' = gratepos t ∧ g3tltwav t' = g3tltwav t
        ∧ g4tltwav t' = g4tltwav t
        ∧ table_of n t'
        ∧ ∀ (i : nat) g, gratepos t !! i = Some g →
                 dispangle t' !! i
                 = if decide (g = 3 ∨ g = 4) then g3tltwav t !! i
                   else dispangle t !! i.
Proof.
  intros (Hg & H3 & Hd). unfold add_to_fitstbl.
  destruct (mask_assign_OK (map (λ g, bool_decide (g = 3)) (gratepos t))
              (dispangle t) (g3tltwav t)) as (d1 & E1 & L1 & G1);
    [rewrite length_map; lia | rewrite length_map; lia |].
  rewrite E1. simpl.
  destruct (mask_assign_OK (map (λ g, bool_decide (g = 4)) (gratepos t))
              d1 (g3tltwav t)) as (d2 & E2 & L2 & G2);
    [rewrite length_map; lia | rewrite length_map; lia |].
  rewrite E2. simpl. eexists. split; [reflexivity|]. simpl.
  split; [reflexivity|]. split; [reflexivity|]. split; [reflexivity|].
  split; [unfold table_of; simpl; lia|].
  intros i g Hi.
  rewrite (G2 i (bool_decide (g = 4))) by (rewrite list_lookup_fmap, Hi; reflexivity).
  rewrite (G1 i (bool_decide (g = 3))) by (rewrite list_lookup_fmap, Hi; reflexivity).
  repeat case_bool_decide; repeat case_decide; try reflexivity; exfalso; lia.
Qed.

Lemma add_to_fitstbl_sets_dispangle_witness :
  table_of 3 frames3
  ∧ ∃ t', add_to_fitstbl frames3 = OK t'
          ∧ dispangle t' = [7000; 7100; 0]%Q.
Proof.
  assert (Ht : table_of 3 frames3) by (repeat split).
  split; [exact Ht|].
  destruct (add_to_fitstbl_sets_dispangle 3 frames3 Ht)
    as (t' & Hrun & _ & _ & _ & _ & _).
  exists t'. split; [exact Hrun|].
  vm_compute in Hrun. injection Hrun as <-. reflexivity.
Defined.
End TableFacts.

Module ReadFacts.
Import Np DeimosFrames FrameSpec Running.

Lemma assign_slice_shape i1 j1 i2 j2 data img out :
  assign_slice i1 j1 i2 j2 data img = OK out →
  shape0 out = shape0 img ∧ shape1 out = shape1 img.
Proof.
  unfold assign_slice.
  destruct (slice_bounds i1 j1 (shape0 img)) as [s1 n1].
  destruct (slice_bounds i2 j2 (shape1 img)) as [s2 n2].
  case_decide; [|discriminate]. intros [= <-]. split; reflexivity.
Qed.

Section Read.
Variable load_sections : string → res (Z * Z * Z * Z).

(** One pass of the loop: the shape of the image and the sections it
    appends. *)
Lemma read_chip_OK hdu det postpix img ds os itt img' ds' os' :
  read_chip load_sections hdu det postpix (img, ds, os) itt = OK (img', ds', os') →
  ds' = ds ++ [rect_text (data_rect itt postpix det)]
  ∧ os' = os ++ [rect_text (oscan_rect itt postpix det)]
  ∧ match det with
    | None => shape0 img' = shape0 img ∧ shape1 img' = shape1 img
    | Some _ => ∃ data oscan,
        deimos_read_1chip load_sections hdu (itt + 1) = OK (data, oscan)
        ∧ shape0 img' = shape0 data
        ∧ shape1 img' = (shape1 data + shape1 oscan)%nat
    end.
Proof.
  unfold read_chip, rect_text, data_rect, oscan_rect. intros H.
  apply bind_OK in H as ([data oscan] & Hd & H).
  destruct (indexing itt postpix det) as [[[[[[[x1 x2] y1] y2] ox1] ox2] oy1] oy2].
  apply bind_OK in H as (im1 & H1 & H).
  apply bind_OK in H as (im2 & H2 & H).
  injection H as <- <- <-.
  apply assign_slice_shape in H1 as [A0 A1], H2 as [B0 B1].
  split; [reflexivity|]. split; [reflexivity|].
  destruct det as [d|].
  - exists data, oscan. split; [exact Hd|]. simpl in A0, A1. split; congruence.
  - split; congruence.
Qed.

Lemma read_chips_cons hdu det postpix acc t chips :
  read_chips load_sections hdu det postpix acc (t :: chips)
  = read_chip load_sections hdu det postpix acc t
    ≫= λ acc, read_chips load_sections hdu det postpix acc chips.
Proof. reflexivity. Qed.

Lemma read_chips_None hdu postpix chips img ds os img' ds' os' :
  read_chips load_sections hdu None postpix (img, ds, os) chips = OK (img', ds', os') →
  ds' = ds ++ map (λ t, rect_text (data_rect t postpix None)) chips
  ∧ os' = os ++ map (λ t, rect_text (oscan_rect t postpix None)) chips
  ∧ shape0 img' = shape0 img ∧ shape1 img' = shape1 img.
Proof.
  revert img ds os. induction chips as [|t chips IH]; intros img ds os H.
  - injection H as <- <- <-. simpl. rewrite !app_nil_r. auto.
  - rewrite read_chips_cons in H.
    apply bind_OK in H as ([[im1 ds1] os1] & H1 & H).
    apply read_chip_OK in H1 as (-> & -> & S0 & S1).
    apply IH in H as (-> & -> & T0 & T1). simpl.
    rewrite <- !app_assoc. simpl. repeat split; congruence.
Qed.

(** What a read that returns has done. *)
Lemma read_deimos_OK fs raw_file det img h secs :
  read_deimos load_sections fs raw_file det = OK (img, h, secs) →
  ∃ name f,
    matching fs raw_file = [(name, f)]
    ∧ h = head0 f
    ∧ BINNING h = "1,1"
    ∧ secs = sections_of det (POSTPIX h)
    ∧ match det with
      | None => ∃ x0 x_npix y0 y_npix,
          load_sections (DETLSIZE h) = OK (x0, x_npix, y0, y_npix)
          ∧ 0 ≤ x_npix ∧ 0 ≤ y_npix + 4 * POSTPIX h
          ∧ shape0 img = Z.to_nat x_npix
          ∧ shape1 img = Z.to_nat (y_npix + 4 * POSTPIX h)
      | Some d => ∃ data oscan,
          deimos_read_1chip load_sections f d = OK (data, oscan)
          ∧ shape0 img = shape0 data
          ∧ shape1 img = (shape1 data + shape1 oscan)%nat
      end.
Proof.
  unfold read_deimos, matching. intros H.
  destruct (filter _ fs) as [|[name f] [|? ?]] eqn:Hfil; try discriminate H.
  simpl in H. exists name, f. split; [reflexivity|].
  apply bind_OK in H as ([[[x0 xn] y0] yn] & Hl & H).
  apply bind_OK in H as (im0 & H0 & H).
  apply bind_OK in H as ([] & Hb & H).
  destruct (decide (BINNING (head0 f) ≠ "1,1")) as [|Hbin]; [discriminate Hb|].
  apply dec_stable in Hbin.
  apply bind_OK in H as ([[im1 ds] os] & Hc & H).
  injection H as <- <- <-.
  split; [reflexivity|]. split; [exact Hbin|].
  destruct det as [d|].
  - rewrite read_chips_cons in Hc.
    apply bind_OK in Hc as ([[im2 ds2] os2] & Hc & H).
    injection H as <- <- <-.
    apply read_chip_OK in Hc as (-> & -> & data & oscan & Hd & S0 & S1).
    replace (d - 1 + 1) with d in Hd by lia.
    split; [reflexivity|]. exists data, oscan. auto.
  - apply read_chips_None in Hc as (-> & -> & S0 & S1).
    split; [reflexivity|].
    exists x0, xn, y0, yn. split; [exact Hl|].
    unfold zeros in H0. case_decide; [discriminate H0|]. injection H0 as <-.
    simpl in S0, S1. repeat split; try lia; assumption.
Qed.

(** X25.  A read that returns.  If [read_deimos] returns, exactly one
    file matches [raw_file + '*'], the header returned is its primary
    header and its BINNING is 1,1.  For the mosaic the image has the
    shape that DETLSIZE gives, with [4 * POSTPIX] more columns; for a
    single detector [d] it has the rows of the data of HDU [d] and the
    columns of the data and of the overscan together. *)
Theorem read_deimos_returns fs raw_file det img h secs :
  read_deimos load_sections fs raw_file det = OK (img, h, secs) →
  ∃ name f,
    matching fs raw_file = [(name, f)]
    ∧ h = head0 f
    ∧ BINNING h = "1,1"
    ∧ match det with
      | None => ∃ x0 x_npix y0 y_npix,
          load_sections (DETLSIZE h) = OK (x0, x_npix, y0, y_npix)
          ∧ 0 ≤ x_npix ∧ 0 ≤ y_npix + 4 * POSTPIX h
          ∧ shape0 img = Z.to_nat x_npix
          ∧ shape1 img = Z.to_nat (y_npix + 4 * POSTPIX h)
      | Some d => ∃ data oscan,
          deimos_read_1chip load_sections f d = OK (data, oscan)
          ∧ shape0 img = shape0 data
          ∧ shape1 img = (shape1 data + shape1 oscan)%nat
      end.
Proof.
  intros H. apply read_deimos_OK in H as (name & f & H1 & H2 & H3 & _ & H5).
  exists name, f. auto.
Qed.

(** X26.  The sections of a frame.  If [get_image_section] returns,
    one file matches and the section asked for is datasec or oscansec;
    the sections returned are those of the fixed layout and depend on
    the file through POSTPIX only.  For a single detector they are
    [0:4096,0:2048] for the data and the [POSTPIX] columns from 2048
    for the overscan, whatever the detector and the size of its
    image; for the mosaic they are the eight rectangles of
    [indexing].  The three flags are false. *)
Theorem get_image_section_layout fs filename det section out :
  get_image_section load_sections fs filename det section = OK out →
  ∃ name f,
    matching fs filename = [(name, f)]
    ∧ ((section = "datasec"
        ∧ out = ((sections_of det (POSTPIX (head0 f))).1, false, false, false))
       ∨ (section = "oscansec"
          ∧ out = ((sections_of det (POSTPIX (head0 f))).2, false, false, false))).
Proof.
  unfold get_image_section. intros H.
  apply bind_OK in H as ([[img h] secs] & Hr & H).
  apply read_deimos_OK in Hr as (name & f & Hm & -> & _ & -> & _).
  exists name, f. split; [exact Hm|].
  destruct (decide (section = "datasec")) as [->|_].
  - injection H as <-. left. auto.
  - destruct (decide (section = "oscansec")) as [->|_]; [|discriminate H].
    injection H as <-. right. auto.
Qed.
End Read.

Lemma read_deimos_returns_witness :
  ∃ img, read_deimos load_sections0 disk "d0913_0002.fits" (Some 1)
         = OK (img, head0 tiny_file, single_sections 8)
         ∧ matching disk "d0913_0002.fits" = [("d0913_0002.fits", tiny_file)]
         ∧ rows img = [[5%Q]] ∧ shape0 img = 1%nat ∧ shape1 img = 1%nat.
Proof.
  assert (Hrun : read_deimos load_sections0 disk "d0913_0002.fits" (Some 1)
                 = OK (mk_ndarray 1 1 [[5%Q]], head0 tiny_file, single_sections 8))
    by (vm_compute; reflexivity).
  exists (mk_ndarray 1 1 [[5%Q]]). split; [exact Hrun|].
  destruct (read_deimos_returns load_sections0 _ _ _ _ _ _ Hrun)
    as (name & f & Hm & _).
  split; [vm_compute; reflexivity|]. repeat split.
Defined.

Lemma get_image_section_layout_witness :
  get_image_section load_sections0 disk "d0913_0002.fits" (Some 1) "oscansec"
  = OK (["[0:4096,2048:2056]"], false, false, false)
  ∧ ∃ name, matching disk "d0913_0002.fits" = [(name, tiny_file)].
Proof.
  assert (Hrun : get_image_section load_sections0 disk "d0913_0002.fits" (Some 1)
                   "oscansec"
                 = OK (["[0:4096,2048:2056]"], false, false, false))
    by (vm_compute; reflexivity).
  split; [exact Hrun|].
  destruct (get_image_section_layout load_sections0 _ _ _ _ _ Hrun)
    as (name & f & Hm & _).
  exists "d0913_0002.fits". vm_compute. reflexivity.
Defined.
End ReadFacts.

Module Arrays.
Import Np DeimosFrames FrameSpec Running.

Lemma bidx_lt n i : (i < n)%nat → bidx n i = i.
Proof. unfold bidx. intros. case_decide; lia. Qed.

Lemma at_lookup (a : ndarray Q) r c row v :
  rows a !! r = Some row → row !! c = Some v → at_ 0%Q a r c = v.
Proof.
  intros Hr Hc. unfold at_. rewrite nth_lookup.
  rewrite (nth_lookup (rows a)), Hr. simpl. rewrite Hc. reflexivity.
Qed.

Lemma wf_row {A} (a : ndarray A) r :
  wf a → (r < shape0 a)%nat →
  ∃ row, rows a !! r = Some row ∧ length row = shape1 a.
Proof.
  intros [Hl Hf] Hr. destruct (lookup_lt_is_Some_2 (rows a) r) as [row Hrow]; [lia|].
  exists row. split; [exact Hrow|].
  rewrite Forall_lookup in Hf. exact (Hf r row Hrow).
Qed.

Lemma get_Some {A} (a : ndarray A) r c :
  wf a → (r < shape0 a)%nat → (c < shape1 a)%nat →
  ∃ row v, rows a !! r = Some row ∧ row !! c = Some v ∧ get a r c = Some v.
Proof.
  intros Hw Hr Hc. destruct (wf_row a r Hw Hr) as (row & Hrow & Hlen).
  destruct (lookup_lt_is_Some_2 row c) as [v Hv]; [lia|].
  exists row, v. unfold get. rewrite Hrow. simpl. auto.
Qed.

Lemma get_None_row {A} (a : ndarray A) r c :
  wf a → (shape0 a ≤ r)%nat → get a r c = None.
Proof.
  intros [Hl _] Hr. unfold get. rewrite (lookup_ge_None_2 (rows a) r) by lia.
  reflexivity.
Qed.

Lemma get_None_col {A} (a : ndarray A) r c :
  wf a → (shape1 a ≤ c)%nat → get a r c = None.
Proof.
  intros [Hl Hf] Hc. unfold get. destruct (rows a !! r) as [row|] eqn:Hrow; [|reflexivity].
  simpl. apply lookup_ge_None_2. rewrite Forall_lookup in Hf.
  rewrite (Hf r row Hrow). exact Hc.
Qed.

(** Two arrays of the same shape with the same entries are equal. *)
Lemma wf_ext {A} (a b : ndarray A) :
  wf a → wf b → shape0 a = shape0 b → shape1 a = shape1 b →
  (∀ r c, get a r c = get b r c) → a = b.
Proof.
  destruct a as [a0 a1 ra], b as [b0 b1 rb]. unfold wf, get. simpl.
  intros [La Fa] [Lb Fb] <- <- H. f_equal.
  apply list_eq. intros r.
  destruct (ra !! r) as [x|] eqn:Ex, (rb !! r) as [y|] eqn:Ey.
  - f_equal. apply list_eq. intros c. specialize (H r c).
    rewrite Ex, Ey in H. exact H.
  - apply lookup_lt_Some in Ex. apply lookup_ge_None in Ey. lia.
  - apply lookup_ge_None in Ex. apply lookup_lt_Some in Ey. lia.
  - reflexivity.
Qed.

Lemma wf_zeros {A} (z : A) n m : wf (Np.zeros z n m).
Proof.
  unfold wf, Np.zeros. simpl. split; [apply length_replicate|].
  apply Forall_replicate. apply length_replicate.
Qed.

Lemma wf_hstack {A} (a b : ndarray A) :
  wf a → wf b → shape0 b = shape0 a → wf (hstack a b).
Proof.
  intros [La Fa] [Lb Fb] Hs. unfold wf, hstack. simpl. split.
  - rewrite length_zip_with. lia.
  - apply Forall_lookup. intros r row Hrow.
    rewrite lookup_zip_with in Hrow.
    destruct (rows a !! r) as [x|] eqn:Ex; [|discriminate].
    destruct (rows b !! r) as [y|] eqn:Ey; [|discriminate].
    simpl in Hrow. injection Hrow as <-. rewrite length_app.
    rewrite Forall_lookup in Fa, Fb. rewrite (Fa r x Ex), (Fb r y Ey). reflexivity.
Qed.

Lemma get_hstack {A} (a b : ndarray A) r c :
  wf a → wf b → shape0 b = shape0 a →
  get (hstack a b) r c
  = if decide (c < shape1 a)%nat then get a r c else get b r (c - shape1 a).
Proof.
  intros Ha Hb Hs. unfold get at 1. unfold hstack. simpl.
  rewrite lookup_zip_with.
  destruct (decide (r < shape0 a)%nat) as [Hr|Hr].
  - destruct (wf_row a r Ha Hr) as (x & Ex & Lx).
    destruct (wf_row b r Hb) as (y & Ey & Ly); [lia|].
    rewrite Ex, Ey. simpl. unfold get. rewrite Ex, Ey. simpl.
    case_decide.
    + apply lookup_app_l. lia.
    + rewrite lookup_app_r by lia. rewrite Lx. reflexivity.
  - destruct Ha as [La _], Hb as [Lb _].
    unfold get. rewrite (lookup_ge_None_2 (rows a) r) by lia.
    rewrite (lookup_ge_None_2 (rows b) r) by lia. simpl. case_decide; reflexivity.
Qed.

(** [img[i1:j1, i2:j2] = data] with data of the shape of the slice. *)
Lemma assign_slice_spec i1 j1 i2 j2 (data img : ndarray Q) s1 n1 s2 n2 :
  slice_bounds i1 j1 (shape0 img) = (s1, n1) →
  slice_bounds i2 j2 (shape1 img) = (s2, n2) →
  shape0 data = n1 → shape1 data = n2 →
  (s1 + n1 ≤ shape0 img)%nat → (s2 + n2 ≤ shape1 img)%nat →
  wf data → wf img →
  ∃ out, assign_slice i1 j1 i2 j2 data img = OK out
         ∧ wf out ∧ shape0 out = shape0 img ∧ shape1 out = shape1 img
         ∧ ∀ r c, get out r c
                  = if decide ((s1 ≤ r < s1 + n1)%nat ∧ (s2 ≤ c < s2 + n2)%nat)
                    then get data (r - s1) (c - s2) else get img r c.
Proof.
  intros E1 E2 D0 D1 B1 B2 Wd Wi. unfold assign_slice. rewrite E1, E2.
  rewrite decide_True by (split; left; assumption).
  eexists. split; [reflexivity|]. destruct Wi as [Li Fi].
  split; [|split; [reflexivity|split; [reflexivity|]]].
  - unfold wf. simpl. split; [rewrite length_imap; exact Li|].
    apply Forall_lookup. intros r row Hrow. rewrite list_lookup_imap in Hrow.
    destruct (rows img !! r) as [x|] eqn:Ex; [|discriminate].
    simpl in Hrow. injection Hrow as <-.
    rewrite Forall_lookup in Fi. specialize (Fi r x Ex).
    case_decide; [rewrite length_imap|]; exact Fi.
  - intros r c. unfold get at 1. simpl. rewrite list_lookup_imap.
    destruct (rows img !! r) as [x|] eqn:Ex.
    + simpl. rewrite Forall_lookup in Fi. specialize (Fi r x Ex).
      destruct (decide (s1 ≤ r < s1 + n1)%nat) as [Hr|Hr].
      * rewrite list_lookup_imap.
        destruct (x !! c) as [v|] eqn:Ev.
        -- simpl. destruct (decide (s2 ≤ c < s2 + n2)%nat) as [Hc|Hc].
           ++ rewrite decide_True by (split; assumption).
              destruct (get_Some data (r - s1) (c - s2) Wd) as (dr & dv & Hdr & Hdv & ->);
                [lia | lia |].
              f_equal. rewrite !bidx_lt by lia. apply (at_lookup _ _ _ dr); assumption.
           ++ rewrite decide_False by tauto. unfold get. rewrite Ex. simpl.
              rewrite Ev. reflexivity.
        -- simpl. apply lookup_ge_None in Ev.
           rewrite decide_False by lia. unfold get. rewrite Ex. simpl.
           symmetry. apply lookup_ge_None_2. exact Ev.
      * rewrite decide_False by tauto. unfold get. rewrite Ex. reflexivity.
    + simpl. apply lookup_ge_None in Ex. rewrite decide_False by lia.
      unfold get. rewrite (lookup_ge_None_2 (rows img) r) by exact Ex. reflexivity.
Qed.
End Arrays.

Module SingleRead.
Import Np DeimosFrames FrameSpec Running Arrays.

Lemma indexing_single itt postpix d :
  indexing itt postpix (Some d)
  = (0, 2048, 0, 4096, 2048, 2048 + postpix, 0, 4096).
Proof. reflexivity. Qed.

Section Read.
Variable load_sections : string → res (Z * Z * Z * Z).

(** X27.  The image of a single detector.  Let one unbinned file match
    and [deimos_read_1chip] give, for detector [d], data of 2048
    columns and at most 4096 rows with an overscan of as many rows and
    at most POSTPIX columns.  Then [read_deimos] returns the data with
    the overscan to its right, the primary header, and the sections of
    a single detector. *)
Theorem read_deimos_single_detector fs raw_file d name f data oscan :
  matching fs raw_file = [(name, f)] →
  BINNING (head0 f) = "1,1" →
  is_OK (load_sections (DETLSIZE (head0 f))) →
  deimos_read_1chip load_sections f d = OK (data, oscan) →
  wf data → wf oscan →
  shape1 data = 2048%nat → (shape0 data ≤ 4096)%nat →
  shape0 oscan = shape0 data →
  Z.of_nat (shape1 oscan) ≤ POSTPIX (head0 f) →
  read_deimos load_sections fs raw_file (Some d)
  = OK (hstack data oscan, head0 f, single_sections (POSTPIX (head0 f))).
Proof.
  intros Hm Hb [q Hq] Hd Wd Wo D1 D0 O0 O1.
  unfold read_deimos. unfold matching in Hm. rewrite Hm. simpl.
  rewrite Hq. simpl. destruct q as [[[x0 xn] y0] yn].
  rewrite decide_False by (intros Hne; apply Hne; exact Hb). simpl.
  unfold read_chip. replace (d - 1 + 1) with d by lia. rewrite Hd. simpl.
  change (0 `mod` 4 * 2048) with 0.
  change ((0 `mod` 4 + 1) * 2048) with 2048.
  change (2048 + 0 `mod` 4 * POSTPIX (head0 f)) with 2048.
  set (img0 := Np.zeros 0%Q (shape0 data) (shape1 data + shape1 oscan)).
  assert (W0 : wf img0) by apply wf_zeros.
  destruct (assign_slice_spec 0 4096 0 2048 data img0 0 (shape0 data) 0 2048)
    as (im1 & E1 & W1 & S10 & S11 & G1); try assumption.
  { unfold slice_bounds, img0. simpl. repeat case_decide; try lia. f_equal; lia. }
  { unfold slice_bounds, img0. simpl. repeat case_decide; try lia. f_equal; lia. }
  { reflexivity. }
  { unfold img0. simpl. lia. }
  { unfold img0. simpl. lia. }
  rewrite E1. simpl.
  destruct (assign_slice_spec 0 4096 2048 (2048 + POSTPIX (head0 f)) oscan im1
              0 (shape0 data) 2048 (shape1 oscan))
    as (im2 & E2 & W2 & S20 & S21 & G2); try assumption.
  { rewrite S10. unfold slice_bounds, img0. simpl.
    repeat case_decide; try lia. f_equal; lia. }
  { rewrite S11. unfold slice_bounds, img0. simpl.
    repeat case_decide; try lia. f_equal; lia. }
  { reflexivity. }
  { rewrite S10. unfold img0. simpl. lia. }
  { rewrite S11. unfold img0. simpl. lia. }
  rewrite E2. simpl. unfold single_sections.
  assert (Him : im2 = hstack data oscan).
  { apply wf_ext.
    - exact W2.
    - apply wf_hstack; assumption.
    - rewrite S20, S10. reflexivity.
    - rewrite S21, S11. reflexivity.
    - intros r c. rewrite G2, G1, get_hstack by assumption.
      rewrite D1. repeat case_decide; try lia.
      + f_equal; lia.
      + f_equal; lia.
      + rewrite !get_None_row by (try assumption; unfold img0; simpl; lia).
        reflexivity.
      + destruct (decide (shape0 data ≤ r)%nat).
        * rewrite !get_None_row by (try assumption; unfold img0; simpl; lia).
          reflexivity.
        * rewrite !get_None_col by (try assumption; unfold img0; simpl; lia).
          reflexivity. }
  rewrite Him. reflexivity.
Qed.
End Read.

Lemma read_deimos_single_detector_witness :
  read_deimos load_sections0 [("d0913_0004.fits", wide_file)] "d0913_0004.fits"
    (Some 1)
  = OK (chip_data wide_chip, head0 wide_file, single_sections 1).
Proof.
  assert (Hd : deimos_read_1chip load_sections0 wide_file 1
               = OK (wide_data, wide_oscan)) by (vm_compute; reflexivity).
  assert (Wd : wf wide_data).
  { split; [reflexivity|]. constructor; [vm_compute; reflexivity|constructor]. }
  assert (Wo : wf wide_oscan) by (split; [reflexivity|repeat constructor]).
  rewrite (read_deimos_single_detector load_sections0
             [("d0913_0004.fits", wide_file)] "d0913_0004.fits" 1
             "d0913_0004.fits" wide_file wide_data wide_oscan);
    [ vm_compute; reflexivity
    | vm_compute; reflexivity
    | reflexivity
    | eexists; vm_compute; reflexivity
    | exact Hd | exact Wd | exact Wo
    | reflexivity | simpl; lia | reflexivity | simpl; lia ].
Defined.
End SingleRead.

Module ChipFacts.
Import Np DeimosFrames FrameSpec Running Arrays.

Lemma slice_bounds_in i j n :
  0 ≤ i → i ≤ j → j ≤ Z.of_nat n →
  slice_bounds i j n = (Z.to_nat i, Z.to_nat (j - i)).
Proof.
  intros. unfold slice_bounds. repeat case_decide; try lia. f_equal; f_equal; lia.
Qed.

Lemma slice_length {A} i j (l : list A) :
  0 ≤ i → i ≤ j → j ≤ Z.of_nat (length l) →
  length (slice i j l) = Z.to_nat (j - i).
Proof.
  intros. unfold slice. rewrite slice_bounds_in by assumption.
  rewrite length_take, length_drop. lia.
Qed.

Lemma slice_lookup {A} i j (l : list A) k :
  0 ≤ i → i ≤ j → j ≤ Z.of_nat (length l) → (k < Z.to_nat (j - i))%nat →
  slice i j l !! k = l !! (Z.to_nat i + k)%nat.
Proof.
  intros. unfold slice. rewrite slice_bounds_in by assumption.
  rewrite lookup_take_lt by assumption. apply lookup_drop.
Qed.

Lemma wf_slice2d {A} x1 x2 y1 y2 (a : ndarray A) :
  wf a → 0 ≤ x1 → x1 ≤ x2 → x2 ≤ Z.of_nat (shape0 a) →
  0 ≤ y1 → y1 ≤ y2 → y2 ≤ Z.of_nat (shape1 a) →
  wf (slice2d x1 x2 y1 y2 a)
  ∧ shape0 (slice2d x1 x2 y1 y2 a) = Z.to_nat (x2 - x1)
  ∧ shape1 (slice2d x1 x2 y1 y2 a) = Z.to_nat (y2 - y1).
Proof.
  intros [Hl Hf] ? ? ? ? ? ?. unfold wf, slice2d.
  rewrite !slice_bounds_in by assumption. simpl.
  split; [|split; reflexivity]. split.
  - rewrite length_map. apply slice_length; lia.
  - apply Forall_fmap. unfold slice at 2. apply Forall_take, Forall_drop.
    eapply Forall_impl; [exact Hf|]. simpl. intros row Hrow.
    apply slice_length; lia.
Qed.

Lemma get_slice2d {A} x1 x2 y1 y2 (a : ndarray A) r c :
  wf a → 0 ≤ x1 → x1 ≤ x2 → x2 ≤ Z.of_nat (shape0 a) →
  0 ≤ y1 → y1 ≤ y2 → y2 ≤ Z.of_nat (shape1 a) →
  (r < Z.to_nat (x2 - x1))%nat → (c < Z.to_nat (y2 - y1))%nat →
  get (slice2d x1 x2 y1 y2 a) r c = get a (Z.to_nat x1 + r) (Z.to_nat y1 + c).
Proof.
  intros Hw ? ? ? ? ? ? Hr Hc. pose proof Hw as [Hl Hf].
  unfold get, slice2d. simpl. rewrite list_lookup_fmap.
  rewrite slice_lookup by (try assumption; lia).
  destruct (wf_row a (Z.to_nat x1 + r) Hw) as (row & -> & Hlen); [lia|].
  simpl. apply slice_lookup; try assumption; lia.
Qed.

Lemma wf_cols_from {A} y2 (a : ndarray A) :
  wf a → 0 ≤ y2 → y2 ≤ Z.of_nat (shape1 a) →
  wf (cols_from y2 a)
  ∧ shape0 (cols_from y2 a) = shape0 a
  ∧ shape1 (cols_from y2 a) = (shape1 a - Z.to_nat y2)%nat.
Proof.
  intros [Hl Hf] ? ?. unfold wf, cols_from.
  rewrite slice_bounds_in by lia. simpl.
  split; [|split; [reflexivity|lia]]. split.
  - rewrite length_map. exact Hl.
  - apply Forall_fmap. eapply Forall_impl; [exact Hf|]. simpl. intros row Hrow.
    rewrite slice_length by lia. lia.
Qed.

Lemma get_cols_from {A} y2 (a : ndarray A) r c :
  wf a → 0 ≤ y2 → y2 ≤ Z.of_nat (shape1 a) →
  (c < shape1 a - Z.to_nat y2)%nat →
  get (cols_from y2 a) r c = get a r (Z.to_nat y2 + c).
Proof.
  intros Hw ? ? Hc. pose proof Hw as [Hl Hf].
  unfold get, cols_from. simpl. rewrite list_lookup_fmap.
  destruct (rows a !! r) as [row|] eqn:Hrow; [|reflexivity]. simpl.
  rewrite Forall_lookup in Hf. specialize (Hf r row Hrow).
  apply slice_lookup; lia.
Qed.

Lemma wf_flipud {A} (a : ndarray A) : wf a → wf (flipud a).
Proof.
  intros [Hl Hf]. unfold wf, flipud. simpl. split.
  - rewrite length_reverse. exact Hl.
  - apply Forall_reverse. exact Hf.
Qed.

Lemma wf_fliplr {A} (a : ndarray A) : wf a → wf (fliplr a).
Proof.
  intros [Hl Hf]. unfold wf, fliplr. simpl. split.
  - rewrite length_map. exact Hl.
  - apply Forall_fmap. eapply Forall_impl; [exact Hf|]. simpl. intros row Hrow.
    rewrite length_reverse. exact Hrow.
Qed.

Lemma get_flipud {A} (a : ndarray A) r c :
  wf a → (r < shape0 a)%nat → get (flipud a) r c = get a (shape0 a - 1 - r) c.
Proof.
  intros [Hl Hf] Hr. unfold get, flipud. simpl.
  rewrite reverse_lookup by lia. rewrite Hl.
  replace (shape0 a - S r)%nat with (shape0 a - 1 - r)%nat by lia. reflexivity.
Qed.

Lemma get_fliplr {A} (a : ndarray A) r c :
  wf a → (c < shape1 a)%nat → get (fliplr a) r c = get a r (shape1 a - 1 - c).
Proof.
  intros [Hl Hf] Hc. unfold get, fliplr. simpl. rewrite list_lookup_fmap.
  destruct (rows a !! r) as [row|] eqn:Hrow; [|reflexivity]. simpl.
  rewrite Forall_lookup in Hf. specialize (Hf r row Hrow).
  rewrite reverse_lookup by lia. rewrite Hf.
  replace (shape1 a - S c)%nat with (shape1 a - 1 - c)%nat by lia. reflexivity.
Qed.

Lemma flipped_lt b n i : (i < n)%nat → (flipped b n i < n)%nat.
Proof. unfold flipped. destruct b; lia. Qed.

Lemma oriented_spec {A} ud lr (a : ndarray A) :
  wf a →
  wf (oriented ud lr a)
  ∧ shape0 (oriented ud lr a) = shape0 a
  ∧ shape1 (oriented ud lr a) = shape1 a
  ∧ ∀ r c, (r < shape0 a)%nat → (c < shape1 a)%nat →
           get (oriented ud lr a) r c
           = get a (flipped ud (shape0 a) r) (flipped lr (shape1 a) c).
Proof.
  intros Hw. unfold oriented, flipped.
  destruct ud, lr; (split; [|split; [reflexivity|split; [reflexivity|]]]).
  - apply wf_fliplr, wf_flipud, Hw.
  - intros r c Hr Hc. rewrite get_fliplr by (try apply wf_flipud; assumption).
    apply get_flipud; assumption.
  - apply wf_flipud, Hw.
  - intros r c Hr Hc. apply get_flipud; assumption.
  - apply wf_fliplr, Hw.
  - intros r c Hr Hc. apply get_fliplr; assumption.
  - exact Hw.
  - reflexivity.
Qed.

Section Read.
Variable load_sections : string → res (Z * Z * Z * Z).

Lemma deimos_read_1chip_oriented hdu chipno c x1 x2 y1 y2 a1 a2 b1 b2 :
  hdu_at hdu chipno = OK (Some c) →
  load_sections (DATASEC c) = OK (x1, x2, y1, y2) →
  load_sections (DETSEC c) = OK (a1, a2, b1, b2) →
  deimos_read_1chip load_sections hdu chipno
  = OK (oriented (bool_decide (a2 < a1)) (bool_decide (b2 < b1))
          (slice2d x1 x2 y1 y2 (chip_data c)),
        oriented (bool_decide (a2 < a1)) (bool_decide (b2 < b1))
          (cols_from y2 (chip_data c))).
Proof.
  intros Hh Hd He. unfold deimos_read_1chip. rewrite Hh. simpl.
  rewrite Hd. simpl. rewrite He. simpl. unfold oriented.
  repeat case_decide; repeat case_bool_decide; try lia; reflexivity.
Qed.

(** X28.  The data and the overscan of a detector.  Let HDU [chipno]
    hold a well-formed image and DATASEC give the rows [x1 <= x < x2]
    and the columns [y1 <= y < y2] within it.  Then
    [deimos_read_1chip] returns the data, of [x2 - x1] rows and
    [y2 - y1] columns, and the overscan, of all the rows and the
    columns from [y2] on.  Each is turned upside down when DETSEC
    runs backwards in its first range and mirrored when it runs
    backwards in its second; the overscan is turned with the data. *)
Theorem deimos_read_1chip_orientation hdu chipno c x1 x2 y1 y2 a1 a2 b1 b2 :
  hdu_at hdu chipno = OK (Some c) →
  load_sections (DATASEC c) = OK (x1, x2, y1, y2) →
  load_sections (DETSEC c) = OK (a1, a2, b1, b2) →
  wf (chip_data c) →
  0 ≤ x1 → x1 ≤ x2 → x2 ≤ Z.of_nat (shape0 (chip_data c)) →
  0 ≤ y1 → y1 ≤ y2 → y2 ≤ Z.of_nat (shape1 (chip_data c)) →
  ∃ data oscan,
    deimos_read_1chip load_sections hdu chipno = OK (data, oscan)
    ∧ wf data ∧ wf oscan
    ∧ shape0 data = Z.to_nat (x2 - x1) ∧ shape1 data = Z.to_nat (y2 - y1)
    ∧ shape0 oscan = shape0 (chip_data c)
    ∧ shape1 oscan = (shape1 (chip_data c) - Z.to_nat y2)%nat
    ∧ (∀ r k, (r < shape0 data)%nat → (k < shape1 data)%nat →
         get data r k
         = get (chip_data c)
             (Z.to_nat x1 + flipped (bool_decide (a2 < a1)) (shape0 data) r)
             (Z.to_nat y1 + flipped (bool_decide (b2 < b1)) (shape1 data) k))
    ∧ (∀ r k, (r < shape0 oscan)%nat → (k < shape1 oscan)%nat →
         get oscan r k
         = get (chip_data c)
             (flipped (bool_decide (a2 < a1)) (shape0 oscan) r)
             (Z.to_nat y2 + flipped (bool_decide (b2 < b1)) (shape1 oscan) k)).
Proof.
  intros Hh Hd He Hw ? ? ? ? ? ?.
  rewrite (deimos_read_1chip_oriented _ _ _ _ _ _ _ _ _ _ _ Hh Hd He).
  destruct (wf_slice2d x1 x2 y1 y2 (chip_data c)) as (Wd & D0 & D1); try assumption.
  destruct (wf_cols_from y2 (chip_data c)) as (Wo & O0 & O1); try assumption; [lia|].
  destruct (oriented_spec (bool_decide (a2 < a1)) (bool_decide (b2 < b1)) _ Wd)
    as (Wd' & D0' & D1' & Gd).
  destruct (oriented_spec (bool_decide (a2 < a1)) (bool_decide (b2 < b1)) _ Wo)
    as (Wo' & O0' & O1' & Go).
  eexists _, _. split; [reflexivity|].
  split; [exact Wd'|]. split; [exact Wo'|].
  split; [congruence|]. split; [congruence|].
  split; [congruence|]. split; [congruence|]. split.
  - intros r k Hr Hk. rewrite D0' in Hr. rewrite D1' in Hk.
    rewrite Gd by assumption. rewrite D0', D1'.
    rewrite D0 in Hr |- *. rewrite D1 in Hk |- *.
    apply get_slice2d; try assumption; apply flipped_lt; assumption.
  - intros r k Hr Hk. rewrite O0' in Hr. rewrite O1' in Hk.
    rewrite Go by assumption. rewrite O0', O1'.
    rewrite O0 in Hr |- *. rewrite O1 in Hk |- *.
    apply get_cols_from; try assumption; try lia.
    apply flipped_lt; assumption.
Qed.
End Read.

Lemma deimos_read_1chip_orientation_witness :
  deimos_read_1chip load_sections0 turned_file 1
  = OK (mk_ndarray 2 2 [[5; 4]; [2; 1]]%Q, mk_ndarray 2 1 [[6]; [3]]%Q).
Proof.
  assert (Hw : wf (chip_data turned_chip)) by (split; [reflexivity|repeat constructor]).
  destruct (deimos_read_1chip_orientation load_sections0 turned_file 1 turned_chip
              0 2 0 2 2 1 2 1 eq_refl eq_refl eq_refl Hw)
    as (data & oscan & Hrun & _); try (simpl; lia).
  vm_compute. reflexivity.
Defined.
End ChipFacts.
